(** * screenshot_daemon.c : a shallow embedding and its properties

    The daemon captures the X11 root window every N milliseconds and stores
    each frame as a PNG under [~/Screenshots/YYYY/MM/DD/HH/<8 hex>.png].

    The C code is embedded function by function.  Calls into libc, Xlib and
    libpng are answered by an [env] record (what the outside world returns at
    each call) and leave an [event] in a chronological trace, so that
    properties of order, resources and control flow are statements about
    traces.

    Conventions:
    - a C string is the list of its characters before the terminating NUL;
    - [int] and [unsigned] arithmetic is done in [Z] with the wrap-around
      written out ([int_wrap], [uint_wrap], [uchar]);
    - a [for]/[while] loop is a [Fixpoint] on its iteration count. *)

From Stdlib Require Import ZArith Lia Ascii String List Bool.
From stdpp Require Import base list.
Import ListNotations.
Local Open Scope Z_scope.

(** ** Machine integers *)

Definition INT_MAX : Z := 2147483647.
Definition LONG_MAX : Z := 9223372036854775807.
Definition LONG_MIN : Z := -9223372036854775808.

(** Conversion to a 32-bit [int] (two's complement wrap-around). *)
Definition int_wrap (z : Z) : Z := (z + 2147483648) mod 4294967296 - 2147483648.

(** Conversion to a 32-bit [unsigned] ([useconds_t]). *)
Definition uint_wrap (z : Z) : Z := z mod 4294967296.

(** Conversion to [unsigned char] ([png_byte]). *)
Definition uchar (z : Z) : Z := z mod 256.

(** ** C strings *)

Abbreviation cstring := (list ascii).

Definition NUL : ascii := "000"%char.
Definition SLASH : ascii := "/"%char.

Definition str (s : string) : cstring := list_ascii_of_string s.

(** The string a [char *] denotes: the bytes before the first NUL. *)
Fixpoint c_str (buf : list ascii) : cstring :=
  match buf with
  | [] => []
  | c :: rest => if Ascii.eqb c NUL then [] else c :: c_str rest
  end.

(** [buf[i]]; the byte just after the stored characters is the terminator. *)
Definition char_at (buf : list ascii) (i : nat) : ascii :=
  match buf !! i with
  | Some c => c
  | None => NUL
  end.

(** [snprintf(buf, size, ...)]: [formatted] is the complete output of the
    format; the buffer keeps at most [size - 1] characters of it. *)
Definition snprintf (size : nat) (formatted : cstring) : cstring :=
  take (size - 1)%nat formatted.

(** The [%s] conversion. *)
Definition fmt_s (s : list ascii) : cstring := c_str s.

Definition digit_char (d : Z) : ascii := ascii_of_nat (48 + Z.to_nat d).

Fixpoint dec_digits (fuel : nat) (n : Z) : cstring :=
  match fuel with
  | O => []
  | S fuel' =>
      if n <? 10 then [digit_char n]
      else dec_digits fuel' (n / 10) ++ [digit_char (n mod 10)]
  end.

(** The decimal digits of a non-negative number; a number has at most
    [1 + log2 n] decimal digits, which bounds the recursion. *)
Definition fmt_u (n : Z) : cstring := dec_digits (S (Z.to_nat (Z.log2 n))) n.

Definition zero_pad (w : nat) (s : cstring) : cstring :=
  repeat "0"%char (w - length s)%nat ++ s.

(** The [%0<w>d] conversion: sign first, then zeros up to the field width. *)
Definition fmt_0d (w : nat) (z : Z) : cstring :=
  if z <? 0 then "-"%char :: zero_pad (w - 1)%nat (fmt_u (- z))
  else zero_pad w (fmt_u z).

Definition is_digit (c : ascii) : bool :=
  let n := nat_of_ascii c in (48 <=? n)%nat && (n <=? 57)%nat.

Definition is_lower_hex (c : ascii) : bool :=
  let n := nat_of_ascii c in
  is_digit c || ((97 <=? n)%nat && (n <=? 102)%nat).

Definition digit_val (c : ascii) : Z := Z.of_nat (nat_of_ascii c) - 48.

(** The number a string of decimal digits denotes. *)
Definition dec_value (s : cstring) : Z :=
  fold_left (fun acc c => acc * 10 + digit_val c) s 0.

(** ** [atoi] (libc)

    glibc's [atoi] is [(int) strtol(s, NULL, 10)]: leading white space, an
    optional sign, then the longest run of decimal digits; [strtol] saturates
    at the range of [long] and the cast wraps to [int].  No digits give 0. *)

Definition is_space (c : ascii) : bool :=
  let n := nat_of_ascii c in
  (n =? 32)%nat || ((9 <=? n)%nat && (n <=? 13)%nat).

Fixpoint skip_space (s : cstring) : cstring :=
  match s with
  | c :: rest => if is_space c then skip_space rest else s
  | [] => []
  end.

Fixpoint strtol_digits (acc : Z) (s : cstring) : Z :=
  match s with
  | c :: rest => if is_digit c then strtol_digits (acc * 10 + digit_val c) rest else acc
  | [] => acc
  end.

Definition strtol (s : cstring) : Z :=
  let v :=
    match skip_space s with
    | c :: rest =>
        if Ascii.eqb c "-" then - strtol_digits 0 rest
        else if Ascii.eqb c "+" then strtol_digits 0 rest
        else strtol_digits 0 (c :: rest)
    | [] => 0
    end in
  Z.max LONG_MIN (Z.min LONG_MAX v).

Definition atoi (s : cstring) : Z := int_wrap (strtol s).

(** ** Xlib and libc data *)

(** [XImage]: the fields the program reads.  [XGetPixel] is Xlib's macro for
    the image's own [f.get_pixel] function pointer. *)
Record XImage := {
  width : Z;
  height : Z;
  red_mask : Z;
  green_mask : Z;
  blue_mask : Z;
  get_pixel : Z -> Z -> Z
}.

Definition XGetPixel (img : XImage) (x y : Z) : Z := get_pixel img x y.

(** [struct tm]: the fields the program reads. *)
Record tm := {
  tm_year : Z;
  tm_mon : Z;
  tm_mday : Z;
  tm_hour : Z
}.

(** ** Events and the outside world *)

Inductive event :=
| EvMkdir (path : cstring) (mode : Z) (ret : Z)
| EvRand (value : Z)
| EvTime
| EvFopen (path : cstring) (ok : bool)
| EvPerror (msg : cstring)
| EvFclose
| EvPngCreateWrite (ok : bool)
| EvPngCreateInfo (ok : bool)
| EvPngDestroy
| EvPngInitIO
| EvPngSetIHDR (w h depth : Z)
| EvPngWriteInfo
| EvMalloc (size : Z) (ok : bool)
| EvFree
| EvPngWriteRow (y : Z) (row : list Z)
| EvPngWriteEnd
| EvPngError
| EvXOpenDisplay (ok : bool)
| EvXGetWindowAttributes
| EvSrand
| EvXGetImage (w h : Z) (ok : bool)
| EvXDestroyImage
| EvStderr (msg : cstring)
| EvStdout (msg : cstring)
| EvUsleep (usec : Z)
| EvXCloseDisplay.

(** What libpng, [fopen] and [malloc] answer during one call of [save_png].
    A libpng call that is not [ok] reports through [png_error], which
    [longjmp]s to the [setjmp] point. *)
Record png_oracle := {
  fopen_ok : bool;
  create_write_ok : bool;
  create_info_ok : bool;
  init_io_ok : bool;
  set_IHDR_ok : bool;
  write_info_ok : bool;
  malloc_ok : bool;
  malloc_garbage : nat -> Z;
  write_row_ok : Z -> bool;
  write_end_ok : bool
}.

(** What the outside world answers during one run of [main]; the loop's
    calls are indexed by the iteration (or, for [rand], by the call). *)
Record env := {
  env_argv : list cstring;
  env_home : option cstring;
  env_display : bool;
  env_width : Z;
  env_height : Z;
  env_localtime : nat -> tm;
  env_rand : nat -> Z;
  env_image : nat -> option XImage;
  env_png : nat -> png_oracle
}.

(** The state the program acts on: the directories and files on disk and
    the number of [rand] calls made so far. *)
Record world := {
  w_dirs : list cstring;
  w_files : list cstring;
  w_rand_calls : nat
}.

(** ** A state monad over the world that records events

    A computation returns its value, the world it leaves and the events it
    produced, in chronological order. *)

Record Run (A : Type) := mkRun {
  r_val : A;
  r_world : world;
  r_events : list event
}.
Arguments mkRun {A} _ _ _.
Arguments r_val {A} _.
Arguments r_world {A} _.
Arguments r_events {A} _.

Definition M (A : Type) : Type := world -> Run A.

Definition ret {A} (a : A) : M A := fun w => mkRun a w [].

Definition bind {A B} (m : M A) (f : A -> M B) : M B :=
  fun w =>
    let r1 := m w in
    let r2 := f (r_val r1) (r_world r1) in
    mkRun (r_val r2) (r_world r2) (r_events r1 ++ r_events r2).

Definition log (ev : event) : M unit := fun w => mkRun tt w [ev].

(** Code between [setjmp] and the end of the function: [None] is a
    [longjmp] out of a libpng call, [Some a] is normal completion. *)
Definition J (A : Type) : Type := M (option A).

Definition bindJ {A B} (m : J A) (f : A -> J B) : J B :=
  bind m (fun r => match r with
                   | Some a => f a
                   | None => ret None
                   end).

Definition lift {A} (m : M A) : J A := bind m (fun a => ret (Some a)).

Declare Scope prog_scope.
Delimit Scope prog_scope with prog.
Notation "x <- m ;; k" := (bind m (fun x => k))
  (at level 100, m at next level, right associativity) : prog_scope.
Notation "m ;;; k" := (bind m (fun _ => k))
  (at level 100, right associativity) : prog_scope.
Notation "x <-! m ;; k" := (bindJ m (fun x => k))
  (at level 100, m at next level, right associativity) : prog_scope.
Notation "m !;; k" := (bindJ m (fun _ => k))
  (at level 100, right associativity) : prog_scope.

(** ** The file system: [mkdir(2)]

    Paths are compared as texts.  The parent of a path is what precedes its
    last slash; the root and the working directory (an empty parent) exist.
    [mkdir] fails with [-1] when the path is empty or its parent is missing
    (ENOENT) or the path exists (EEXIST), and otherwise creates the
    directory and returns 0.  This is one file system, with none of the
    other reasons [mkdir(2)] has to fail; what is stated of the value of
    [mkdir] is stated over any answer, with [mkdir_p_on] below. *)

Fixpoint strip_leaf (rev_path : cstring) : cstring :=
  match rev_path with
  | [] => []
  | c :: rest => if Ascii.eqb c SLASH then rest else strip_leaf rest
  end.

Definition parent (p : cstring) : cstring := rev (strip_leaf (rev p)).

Fixpoint cstring_eqb (a b : cstring) : bool :=
  match a, b with
  | [], [] => true
  | x :: a', y :: b' => Ascii.eqb x y && cstring_eqb a' b'
  | _, _ => false
  end.

Definition exists_in (l : list cstring) (p : cstring) : bool :=
  existsb (cstring_eqb p) l.

Definition mkdir_ret (dirs : list cstring) (p : cstring) : Z :=
  if cstring_eqb p [] then -1
  else if exists_in dirs p then -1
  else if cstring_eqb (parent p) [] || exists_in dirs (parent p) then 0
  else -1.

Definition mkdir (p : cstring) (mode : Z) : M Z := fun w =>
  let r := mkdir_ret (w_dirs w) p in
  mkRun r
    {| w_dirs := if r =? 0 then w_dirs w ++ [p] else w_dirs w;
       w_files := w_files w;
       w_rand_calls := w_rand_calls w |}
    [EvMkdir p mode r].

(** ** [mkdir_p] *)

Local Open Scope prog_scope.

(** The loop [for (p = tmp + 1; *p; ++p)]; [i] is [p - tmp].  It ends at the
    terminator, at most [length tmp] bytes after the start, so [fuel] =
    [length tmp] runs it to its end. *)
Fixpoint mkdir_p_loop (fuel : nat) (i : nat) (tmp : list ascii) (mode : Z)
  : M (list ascii) :=
  match fuel with
  | O => ret tmp
  | S fuel' =>
      if Ascii.eqb (char_at tmp i) NUL then ret tmp
      else if Ascii.eqb (char_at tmp i) SLASH then
        let tmp1 := <[i := NUL]> tmp in
        mkdir (c_str tmp1) mode ;;;
        let tmp2 := <[i := SLASH]> tmp1 in
        mkdir_p_loop fuel' (S i) tmp2 mode
      else mkdir_p_loop fuel' (S i) tmp mode
  end.

Definition mkdir_p (path : cstring) (mode : Z) : M Z :=
  let tmp := snprintf 512 (fmt_s path) in
  let len := length tmp in
  if (len =? 0)%nat then ret (-1)
  else
    let tmp :=
      if Ascii.eqb (char_at tmp (len - 1)) SLASH
      then <[(len - 1)%nat := NUL]> tmp else tmp in
    tmp <- mkdir_p_loop (length tmp) 1 tmp mode ;;
    mkdir (c_str tmp) mode.

(** ** [random_hex] *)

Definition RANDOM_NAME_LEN : nat := 8.

Definition hex : cstring := str "0123456789abcdef".

(** [rand()]: the next value of the generator. *)
Definition rand (e : env) : M Z := fun w =>
  let v := env_rand e (w_rand_calls w) in
  mkRun v
    {| w_dirs := w_dirs w; w_files := w_files w;
       w_rand_calls := S (w_rand_calls w) |}
    [EvRand v].

(** [out[i] = hex[rand() % 16]] for [i = 0 .. len - 1], then the
    terminator; the result is the string left in [out]. *)
Fixpoint random_hex (e : env) (len : nat) : M cstring :=
  match len with
  | O => ret []
  | S len' =>
      r <- rand e ;;
      rest <- random_hex e len' ;;
      ret (char_at hex (Z.to_nat (Z.rem r 16)) :: rest)
  end.

(** ** [save_png] *)

Definition fopen (o : png_oracle) (filepath : cstring) : M bool := fun w =>
  mkRun (fopen_ok o)
    {| w_dirs := w_dirs w;
       w_files := if fopen_ok o && negb (exists_in (w_files w) filepath)
                  then w_files w ++ [filepath] else w_files w;
       w_rand_calls := w_rand_calls w |}
    [EvFopen filepath (fopen_ok o)].

(** A libpng call made after [setjmp]. *)
Definition png_call (ok : bool) (ev : event) : J unit :=
  if ok then lift (log ev) else (log ev ;;; log EvPngError ;;; ret None).

(** The argument of [malloc]: [3 * img->width] is an [int], converted to
    [size_t]. *)
Definition row_size (img : XImage) : Z :=
  int_wrap (3 * width img) mod 18446744073709551616.

(** [malloc] answers as the oracle says, except that a request of more
    than half the address space always fails. *)
Definition malloc_succeeds (o : png_oracle) (img : XImage) : bool :=
  malloc_ok o && (row_size img <? 9223372036854775808).

(** [malloc(3 * img->width)]: a buffer of that many bytes, with whatever
    the memory held, or NULL. *)
Definition malloc_row (o : png_oracle) (img : XImage) : M (option (list Z)) :=
  let ok := malloc_succeeds o img in
  log (EvMalloc (row_size img) ok) ;;;
  ret (if ok
       then Some (map (malloc_garbage o) (seq 0 (Z.to_nat (row_size img))))
       else None).

(** [row[i] = v] for a [png_byte] row. *)
Definition store_byte (row : list Z) (i : Z) (v : Z) : list Z :=
  <[Z.to_nat i := uchar v]> row.

(** The loop over [x]: one scanline of the image into the row buffer. *)
Fixpoint fill_row_loop (img : XImage) (y : Z) (n : nat) (x : Z) (row : list Z)
  : list Z :=
  match n with
  | O => row
  | S n' =>
      let pixel := XGetPixel img x y in
      let row := store_byte row (int_wrap (3 * x))
                   (Z.shiftr (Z.land pixel (red_mask img)) 16) in
      let row := store_byte row (int_wrap (int_wrap (3 * x) + 1))
                   (Z.shiftr (Z.land pixel (green_mask img)) 8) in
      let row := store_byte row (int_wrap (int_wrap (3 * x) + 2))
                   (Z.land pixel (blue_mask img)) in
      fill_row_loop img y n' (x + 1) row
  end.

Definition fill_row (img : XImage) (y : Z) (row : list Z) : list Z :=
  fill_row_loop img y (Z.to_nat (width img)) 0 row.

(** The loop over [y]: fill the row, hand it to [png_write_row]. *)
Fixpoint write_rows (o : png_oracle) (img : XImage) (n : nat) (y : Z)
  (row : list Z) : J (list Z) :=
  match n with
  | O => lift (ret row)
  | S n' =>
      let row := fill_row img y row in
      png_call (write_row_ok o y) (EvPngWriteRow y row) !;;
      write_rows o img n' (y + 1) row
  end.

(** The part of [save_png] that runs under the [setjmp] handler; its value
    is the function's return value. *)
Definition save_png_body (o : png_oracle) (img : XImage) : J Z :=
  png_call (init_io_ok o) EvPngInitIO !;;
  png_call (set_IHDR_ok o) (EvPngSetIHDR (width img) (height img) 8) !;;
  png_call (write_info_ok o) EvPngWriteInfo !;;
  row <-! lift (malloc_row o img) ;;
  match row with
  | None =>
      lift (log EvPngDestroy ;;; log EvFclose ;;; ret (-1))
  | Some row =>
      write_rows o img (Z.to_nat (height img)) 0 row !;;
      lift (log EvFree) !;;
      png_call (write_end_ok o) EvPngWriteEnd !;;
      lift (log EvPngDestroy ;;; log EvFclose ;;; ret 0)
  end.

Definition save_png (o : png_oracle) (img : XImage) (filepath : cstring) : M Z :=
  fp <- fopen o filepath ;;
  if negb fp then
    log (EvPerror (str "fopen")) ;;; ret (-1)
  else
    log (EvPngCreateWrite (create_write_ok o)) ;;;
    if negb (create_write_ok o) then
      log EvFclose ;;; ret (-1)
    else
      log (EvPngCreateInfo (create_info_ok o)) ;;;
      if negb (create_info_ok o) then
        log EvPngDestroy ;;; log EvFclose ;;; ret (-1)
      else
        r <- save_png_body o img ;;
        match r with
        | Some status => ret status
        | None => log EvPngDestroy ;;; log EvFclose ;;; ret (-1)
        end.

(** ** [main] *)

Definition DEFAULT_INTERVAL_MS : Z := 1000.

(** The interval argument: [argv] holds [argc] strings. *)
Definition parse_interval (argv : list cstring) : Z :=
  let interval_ms := DEFAULT_INTERVAL_MS in
  match argv with
  | _ :: arg1 :: _ =>
      let v := atoi arg1 in
      if v >? 0 then v else interval_ms
  | _ => interval_ms
  end.

Definition base_dir (e : env) : cstring :=
  match env_home e with
  | Some home => home
  | None => str "."
  end.

Definition dirpath_of (home : cstring) (t : tm) : cstring :=
  snprintf 512
    (fmt_s home ++ str "/Screenshots/"
       ++ fmt_0d 4 (int_wrap (tm_year t + 1900)) ++ str "/"
       ++ fmt_0d 2 (int_wrap (tm_mon t + 1)) ++ str "/"
       ++ fmt_0d 2 (tm_mday t) ++ str "/"
       ++ fmt_0d 2 (tm_hour t)).

Definition filepath_of (dirpath name : cstring) : cstring :=
  snprintf 1024 (fmt_s dirpath ++ str "/" ++ fmt_s name ++ str ".png").

(** The argument of [usleep]: an [int] product converted to [useconds_t]. *)
Definition usleep_arg (interval_ms : Z) : Z :=
  uint_wrap (int_wrap (interval_ms * 1000)).

(** The body of [while (1)], on its [k]-th pass. *)
Definition iteration (e : env) (home : cstring) (interval_ms : Z)
  (scr_w scr_h : Z) (k : nat) : M unit :=
  log EvTime ;;;
  let tm_now := env_localtime e k in
  let dirpath := dirpath_of home tm_now in
  mkdir_p dirpath 493 (* 0755 *) ;;;
  name <- random_hex e RANDOM_NAME_LEN ;;
  let filepath := filepath_of dirpath name in
  let img := env_image e k in
  log (EvXGetImage scr_w scr_h
         match img with Some _ => true | None => false end) ;;;
  match img with
  | None => log (EvStderr (str "Screenshot failed" ++ ["010"%char]))
  | Some img =>
      status <- save_png (env_png e k) img filepath ;;
      (if status =? 0
       then log (EvStdout (str "Saved " ++ filepath ++ ["010"%char]))
       else ret tt) ;;;
      log EvXDestroyImage
  end ;;;
  log (EvUsleep (usleep_arg interval_ms)).

(** [while (1) { ... }]: the body has no [break], [return] or [exit], so
    the only way out of [n] passes is to have made them. *)
Fixpoint main_loop (e : env) (home : cstring) (interval_ms : Z)
  (scr_w scr_h : Z) (n : nat) (k : nat) : M unit :=
  match n with
  | O => ret tt
  | S n' =>
      iteration e home interval_ms scr_w scr_h k ;;;
      main_loop e home interval_ms scr_w scr_h n' (S k)
  end.

(** What is known of the process after a bounded observation. *)
Inductive outcome :=
| Exited (status : Z)
| Running.

(** [main], observed until it exits or has made [n] passes of its loop. *)
Definition main (e : env) (n : nat) : M outcome :=
  let interval_ms := parse_interval (env_argv e) in
  let home := base_dir e in
  log (EvXOpenDisplay (env_display e)) ;;;
  if negb (env_display e) then
    log (EvStderr (str "Cannot open X display" ++ ["010"%char])) ;;;
    ret (Exited 1)
  else
    log EvXGetWindowAttributes ;;;
    log EvTime ;;; (* srand((unsigned)time(NULL)): the argument first *)
    log EvSrand ;;;
    main_loop e home interval_ms (env_width e) (env_height e) n 0 ;;;
    ret Running.

(** ** [mkdir_p] and the loop body on any file system

    What [mkdir(2)] answers depends on more than the model above holds:
    permissions, the length of a name, a file in the way, the way a path
    with "." or a doubled slash resolves.  Here [mkdir_p] and the loop
    body are given with that answer left open: [answer w p] is the value
    of [mkdir(p)] on the disk of [w]; a call that returns 0 has made the
    directory, any other call has changed nothing.  [mkdir_ret] is one
    such answer.  What [fopen], libpng and [malloc] answer during the
    [save_png] of pass [k] may depend on the disk and on the path too:
    [png k w filepath]. *)

Definition mkdir_on (answer : world -> cstring -> Z) (p : cstring) (mode : Z)
  : M Z := fun w =>
  let r := answer w p in
  mkRun r
    {| w_dirs := if r =? 0 then w_dirs w ++ [p] else w_dirs w;
       w_files := w_files w;
       w_rand_calls := w_rand_calls w |}
    [EvMkdir p mode r].

Fixpoint mkdir_p_loop_on (answer : world -> cstring -> Z) (fuel : nat) (i : nat)
  (tmp : list ascii) (mode : Z) : M (list ascii) :=
  match fuel with
  | O => ret tmp
  | S fuel' =>
      if Ascii.eqb (char_at tmp i) NUL then ret tmp
      else if Ascii.eqb (char_at tmp i) SLASH then
        let tmp1 := <[i := NUL]> tmp in
        mkdir_on answer (c_str tmp1) mode ;;;
        let tmp2 := <[i := SLASH]> tmp1 in
        mkdir_p_loop_on answer fuel' (S i) tmp2 mode
      else mkdir_p_loop_on answer fuel' (S i) tmp mode
  end.

Definition mkdir_p_on (answer : world -> cstring -> Z) (path : cstring) (mode : Z)
  : M Z :=
  let tmp := snprintf 512 (fmt_s path) in
  let len := length tmp in
  if (len =? 0)%nat then ret (-1)
  else
    let tmp :=
      if Ascii.eqb (char_at tmp (len - 1)) SLASH
      then <[(len - 1)%nat := NUL]> tmp else tmp in
    tmp <- mkdir_p_loop_on answer (length tmp) 1 tmp mode ;;
    mkdir_on answer (c_str tmp) mode.

(** The body of [while (1)], on its [k]-th pass. *)
Definition iteration_on (answer : world -> cstring -> Z)
  (png : nat -> world -> cstring -> png_oracle) (e : env) (home : cstring)
  (interval_ms : Z) (scr_w scr_h : Z) (k : nat) : M unit :=
  log EvTime ;;;
  let tm_now := env_localtime e k in
  let dirpath := dirpath_of home tm_now in
  mkdir_p_on answer dirpath 493 (* 0755 *) ;;;
  name <- random_hex e RANDOM_NAME_LEN ;;
  let filepath := filepath_of dirpath name in
  let img := env_image e k in
  log (EvXGetImage scr_w scr_h
         match img with Some _ => true | None => false end) ;;;
  match img with
  | None => log (EvStderr (str "Screenshot failed" ++ ["010"%char]))
  | Some img =>
      status <- (fun w => save_png (png k w filepath) img filepath w) ;;
      (if status =? 0
       then log (EvStdout (str "Saved " ++ filepath ++ ["010"%char]))
       else ret tt) ;;;
      log EvXDestroyImage
  end ;;;
  log (EvUsleep (usleep_arg interval_ms)).

Local Close Scope prog_scope.

(** ** Vocabulary for the statements *)

(** The directories on disk after [mkdir p] in a disk holding [dirs]. *)
Definition mkdir_dirs (dirs : list cstring) (p : cstring) : list cstring :=
  if mkdir_ret dirs p =? 0 then dirs ++ [p] else dirs.

(** The string [mkdir_p] leaves in [tmp] before its loop: the path cut to
    the buffer, without one trailing slash. *)
Definition mkdir_p_target (path : cstring) : cstring :=
  let tmp := snprintf 512 (fmt_s path) in
  if Ascii.eqb (char_at tmp (length tmp - 1)) SLASH
  then take (length tmp - 1)%nat tmp else tmp.

(** The proper prefixes of [t] that end just before a slash at an index
    from [i] on, shortest first; [n] is the number of indices to visit. *)
Fixpoint slash_prefixes (t : cstring) (n : nat) (i : nat) : list cstring :=
  match n with
  | O => []
  | S n' =>
      if Ascii.eqb (char_at t i) SLASH
      then take i t :: slash_prefixes t n' (S i)
      else slash_prefixes t n' (S i)
  end.

(** The events of calling [mkdir] on each path of [ps] in turn, on a disk
    that holds [dirs] at first. *)
Fixpoint mkdir_events (ps : list cstring) (mode : Z) (dirs : list cstring)
  : list event :=
  match ps with
  | [] => []
  | p :: rest =>
      EvMkdir p mode (mkdir_ret dirs p)
      :: mkdir_events rest mode (mkdir_dirs dirs p)
  end.

(** A string without NUL characters. *)
Definition nul_free (t : cstring) : Prop :=
  Forall (fun c => Ascii.eqb c NUL = false) t.

(** Paths listed from the shortest to the longest, no two of one length. *)
Fixpoint increasing (ps : list cstring) : Prop :=
  match ps with
  | [] => True
  | p :: rest =>
      Forall (fun q => (length p < length q)%nat) rest /\ increasing rest
  end.

(** Every path [mkdir_p path] hands to [mkdir], in order. *)
Definition mkdir_p_paths (path : cstring) : list cstring :=
  let t := mkdir_p_target path in
  slash_prefixes t (length t - 1)%nat 1 ++ [t].

Definition is_mkdir_ev (ev : event) : bool :=
  match ev with
  | EvMkdir _ _ _ => true
  | _ => false
  end.


Definition is_save_png_ev (ev : event) : bool :=
  match ev with
  | EvFopen _ _ | EvPerror _ | EvFclose
  | EvPngCreateWrite _ | EvPngCreateInfo _ | EvPngDestroy | EvPngInitIO
  | EvPngSetIHDR _ _ _ | EvPngWriteInfo | EvMalloc _ _ | EvFree
  | EvPngWriteRow _ _ | EvPngWriteEnd | EvPngError => true
  | _ => false
  end.

Definition is_usleep_ev (ev : event) : bool :=
  match ev with
  | EvUsleep _ => true
  | _ => false
  end.

Definition is_xgetimage_ev (ev : event) : bool :=
  match ev with
  | EvXGetImage _ _ _ => true
  | _ => false
  end.

Definition is_stdout_ev (ev : event) : bool :=
  match ev with
  | EvStdout _ => true
  | _ => false
  end.

Definition is_xclose_ev (ev : event) : bool :=
  match ev with
  | EvXCloseDisplay => true
  | _ => false
  end.

(** The work of a pass: every event of the loop body but its sleep. *)
Definition is_work_ev (ev : event) : bool :=
  match ev with
  | EvTime | EvMkdir _ _ _ | EvRand _ | EvXGetImage _ _ _ | EvXDestroyImage
  | EvStderr _ | EvStdout _ => true
  | _ => is_save_png_ev ev
  end.

Definition is_rand_ev (ev : event) : bool :=
  match ev with
  | EvRand _ => true
  | _ => false
  end.

(** What is left of a trace when the [mkdir] calls are hidden. *)
Definition non_mkdir (evs : list event) : list event :=
  List.filter (fun ev => negb (is_mkdir_ev ev)) evs.

Definition count_ev (f : event -> bool) (evs : list event) : nat :=
  length (List.filter f evs).

(** File handles opened and not yet closed, over a trace. *)
Fixpoint open_files (evs : list event) : Z :=
  match evs with
  | [] => 0
  | EvFopen _ true :: rest => 1 + open_files rest
  | EvFclose :: rest => open_files rest - 1
  | _ :: rest => open_files rest
  end.

(** Row buffers allocated and not yet freed, over a trace. *)
Fixpoint live_rows (evs : list event) : Z :=
  match evs with
  | [] => 0
  | EvMalloc _ true :: rest => 1 + live_rows rest
  | EvFree :: rest => live_rows rest - 1
  | _ :: rest => live_rows rest
  end.

(** Every step of [save_png] up to and including the allocation of the
    row buffer succeeds. *)
Definition reaches_rows (o : png_oracle) (img : XImage) : bool :=
  fopen_ok o && (create_write_ok o && (create_info_ok o && (init_io_ok o
  && (set_IHDR_ok o && (write_info_ok o && malloc_succeeds o img))))).

(** Every row write succeeds. *)
Definition rows_ok (o : png_oracle) (img : XImage) : bool :=
  forallb (fun y => write_row_ok o (0 + Z.of_nat y)) (seq 0 (Z.to_nat (height img))).

(** Every answer of libpng, [fopen] and [malloc] is a success. *)
Definition all_ok (o : png_oracle) (img : XImage) : bool :=
  reaches_rows o img && (rows_ok o img && write_end_ok o).

(** The stages of the [k]-th pass of the loop, started in world [w]: the
    directory path, the run of [mkdir_p], the run of [random_hex] that
    follows it, the file path, and the run of [save_png] on an image. *)
Definition pass_dirpath (e : env) (home : cstring) (k : nat) : cstring :=
  dirpath_of home (env_localtime e k).

Definition pass_dirs (e : env) (home : cstring) (k : nat) (w : world) : Run Z :=
  mkdir_p (pass_dirpath e home k) 493 w.

Definition pass_name (e : env) (home : cstring) (k : nat) (w : world)
  : Run cstring :=
  random_hex e RANDOM_NAME_LEN (r_world (pass_dirs e home k w)).

Definition pass_filepath (e : env) (home : cstring) (k : nat) (w : world)
  : cstring :=
  filepath_of (pass_dirpath e home k) (r_val (pass_name e home k w)).

Definition pass_png (e : env) (home : cstring) (k : nat) (w : world)
  (img : XImage) : Run Z :=
  save_png (env_png e k) img (pass_filepath e home k w)
    (r_world (pass_name e home k w)).

(** [fmt_0d w z] is exactly [w] decimal digits that denote [z]. *)
Definition exact_digits (w : nat) (z : Z) : bool :=
  (length (fmt_0d w z) =? w)%nat
  && forallb is_digit (fmt_0d w z)
  && (dec_value (fmt_0d w z) =? z).

(** An argument in which [atoi] finds no digit: after white space and an
    optional sign, the string ends or goes on with a non-digit. *)
Definition non_numeric (s : cstring) : bool :=
  match skip_space s with
  | [] => true
  | c :: rest =>
      if Ascii.eqb c "-" || Ascii.eqb c "+"
      then match rest with
           | d :: _ => negb (is_digit d)
           | [] => true
           end
      else negb (is_digit c)
  end.

(** The integer an argument is read as, before it is cut to the range of
    [long] and of [int]: after white space and an optional sign, the
    number its longest run of decimal digits denotes (0 when there is no
    digit). *)
Definition written_value (s : cstring) : Z :=
  match skip_space s with
  | c :: rest =>
      if Ascii.eqb c "-" then - strtol_digits 0 rest
      else if Ascii.eqb c "+" then strtol_digits 0 rest
      else strtol_digits 0 (c :: rest)
  | [] => 0
  end.

Definition INT_MIN : Z := -2147483648.

(** The world with another set of directories on disk. *)
Definition with_dirs (dirs : list cstring) (w : world) : world :=
  {| w_dirs := dirs; w_files := w_files w; w_rand_calls := w_rand_calls w |}.

(** The three channel bytes of the pixel at column [x] of scanline [y]. *)
Definition red_byte (img : XImage) (x y : Z) : Z :=
  uchar (Z.shiftr (Z.land (XGetPixel img x y) (red_mask img)) 16).
Definition green_byte (img : XImage) (x y : Z) : Z :=
  uchar (Z.shiftr (Z.land (XGetPixel img x y) (green_mask img)) 8).
Definition blue_byte (img : XImage) (x y : Z) : Z :=
  uchar (Z.land (XGetPixel img x y) (blue_mask img)).

(** ** Sample data *)

Definition empty_world : world :=
  {| w_dirs := []; w_files := []; w_rand_calls := 0 |}.

(** A 2 x 2 TrueColor image whose top-left pixel is 0x112233. *)
Definition sample_image : XImage :=
  {| width := 2; height := 2;
     red_mask := 0xFF0000; green_mask := 0xFF00; blue_mask := 0xFF;
     get_pixel := fun x y => 0x112233 + 0x010101 * (x + 2 * y) |}.

(** Every call succeeds. *)
Definition png_all_ok : png_oracle :=
  {| fopen_ok := true; create_write_ok := true; create_info_ok := true;
     init_io_ok := true; set_IHDR_ok := true; write_info_ok := true;
     malloc_ok := true; malloc_garbage := fun _ => 0xAA;
     write_row_ok := fun _ => true; write_end_ok := true |}.

(** Writing the second row fails (a full disk, say). *)
Definition png_row_fails : png_oracle :=
  {| fopen_ok := true; create_write_ok := true; create_info_ok := true;
     init_io_ok := true; set_IHDR_ok := true; write_info_ok := true;
     malloc_ok := true; malloc_garbage := fun _ => 0xAA;
     write_row_ok := fun y => negb (y =? 1); write_end_ok := true |}.

Definition sample_tm : tm :=
  {| tm_year := 126; tm_mon := 9; tm_mday := 3; tm_hour := 7 |}.

(** A run with the given arguments: the display opens, even passes capture
    the sample image, odd passes fail to capture. *)
Definition sample_env (argv : list cstring) : env :=
  {| env_argv := argv;
     env_home := Some (str "/home/u");
     env_display := true;
     env_width := 2; env_height := 2;
     env_localtime := fun _ => sample_tm;
     env_rand := fun i => Z.of_nat (7 * i + 3);
     env_image := fun k => if Nat.even k then Some sample_image else None;
     env_png := fun _ => png_all_ok |}.

(** The same run on a machine whose display cannot be opened. *)
Definition headless_env : env :=
  {| env_argv := [str "screenshot_daemon"];
     env_home := None;
     env_display := false;
     env_width := 0; env_height := 0;
     env_localtime := fun _ => sample_tm;
     env_rand := fun _ => 0;
     env_image := fun _ => None;
     env_png := fun _ => png_all_ok |}.

(** A home directory of 500 characters. *)
Definition long_home : cstring := repeat "a"%char 500.

(** ** Vocabulary for further properties *)

Definition is_fclose_ev (ev : event) : bool :=
  match ev with
  | EvFclose => true
  | _ => false
  end.

Definition is_xdestroy_ev (ev : event) : bool :=
  match ev with
  | EvXDestroyImage => true
  | _ => false
  end.

Definition is_write_row_ev (ev : event) : bool :=
  match ev with
  | EvPngWriteRow _ _ => true
  | _ => false
  end.

(** The scanline numbers handed to [png_write_row], in order. *)
Fixpoint written_rows (evs : list event) : list Z :=
  match evs with
  | [] => []
  | EvPngWriteRow y _ :: rest => y :: written_rows rest
  | _ :: rest => written_rows rest
  end.

(** The arguments of the [mkdir] calls of a trace, in order. *)
Fixpoint mkdir_args (evs : list event) : list (cstring * Z) :=
  match evs with
  | [] => []
  | EvMkdir p mode _ :: rest => (p, mode) :: mkdir_args rest
  | _ :: rest => mkdir_args rest
  end.

(** Every path of [ps] is non-empty and comes after its parent: the parent
    is the root or the working directory, or it is in [seen] or earlier in
    [ps]. *)
Fixpoint parents_first (seen : list cstring) (ps : list cstring) : Prop :=
  match ps with
  | [] => True
  | p :: rest =>
      p <> [] /\ (parent p = [] \/ In (parent p) seen)
      /\ parents_first (p :: seen) rest
  end.

(** The three bytes of a pixel, and a whole normalized scanline. *)
Definition pixel_bytes (img : XImage) (y x : Z) : list Z :=
  [red_byte img x y; green_byte img x y; blue_byte img x y].

Definition normalized_row (img : XImage) (y : Z) : list Z :=
  flat_map (fun x => pixel_bytes img y (Z.of_nat x)) (seq 0 (Z.to_nat (width img))).

(** The character [random_hex] stores for a value of [rand]. *)
Definition hex_digit_of (r : Z) : ascii := char_at hex (Z.to_nat (Z.rem r 16)).

(** An image of one pixel in a BGR layout: red in the low byte. *)
Definition bgr_image : XImage :=
  {| width := 1; height := 1;
     red_mask := 0xFF; green_mask := 0xFF00; blue_mask := 0xFF0000;
     get_pixel := fun _ _ => 0x332211 |}.

(** A capture that gave an image. *)
Definition is_captured_ev (ev : event) : bool :=
  match ev with
  | EvXGetImage _ _ true => true
  | _ => false
  end.

(** The passes among the first [n] from [k] on whose capture gives an
    image. *)
Definition captured_passes (e : env) (k n : nat) : nat :=
  length (List.filter (fun i => bool_decide (is_Some (env_image e i))) (seq k n)).

(** ** Vocabulary for file systems *)

(** The file system of the model above, as an answer to [mkdir]. *)
Definition model_answer : world -> cstring -> Z :=
  fun w p => mkdir_ret (w_dirs w) p.

(** A file system on which nothing can be made: every [mkdir] fails (a
    read-only mount, a home directory the user may not write to). *)
Definition refusing : world -> cstring -> Z := fun _ _ => -1.

(** The answers of [env_png], whatever the disk holds. *)
Definition png_of_env (e : env) : nat -> world -> cstring -> png_oracle :=
  fun k _ _ => env_png e k.

Definition fopen_refused (o : png_oracle) : png_oracle :=
  {| fopen_ok := false;
     create_write_ok := create_write_ok o;
     create_info_ok := create_info_ok o;
     init_io_ok := init_io_ok o;
     set_IHDR_ok := set_IHDR_ok o;
     write_info_ok := write_info_ok o;
     malloc_ok := malloc_ok o;
     malloc_garbage := malloc_garbage o;
     write_row_ok := write_row_ok o;
     write_end_ok := write_end_ok o |}.

(** The directory of a file is on disk. *)
Definition dir_on_disk (w : world) (filepath : cstring) : bool :=
  exists_in (w_dirs w) (parent filepath).

(** The answers of [env_png] on a file system that refuses to open a
    file in a directory that does not exist (ENOENT). *)
Definition png_enoent (e : env) : nat -> world -> cstring -> png_oracle :=
  fun k w filepath =>
    if dir_on_disk w filepath then env_png e k else fopen_refused (env_png e k).

(** The disk after [mkdir p]. *)
Definition mkdir_world (answer : world -> cstring -> Z) (w : world) (p : cstring)
  : world :=
  {| w_dirs := if answer w p =? 0 then w_dirs w ++ [p] else w_dirs w;
     w_files := w_files w;
     w_rand_calls := w_rand_calls w |}.

(** The events of calling [mkdir] on each path of [ps] in turn. *)
Fixpoint mkdir_events_on (answer : world -> cstring -> Z) (ps : list cstring)
  (mode : Z) (w : world) : list event :=
  match ps with
  | [] => []
  | p :: rest =>
      EvMkdir p mode (answer w p)
      :: mkdir_events_on answer rest mode (mkdir_world answer w p)
  end.

(** The stages of the [k]-th pass on any file system: the run of
    [mkdir_p], the run of [random_hex] that follows it, the file path, and
    the run of [save_png] on an image. *)
Definition pass_dirs_on (answer : world -> cstring -> Z) (e : env)
  (home : cstring) (k : nat) (w : world) : Run Z :=
  mkdir_p_on answer (pass_dirpath e home k) 493 w.

Definition pass_name_on (answer : world -> cstring -> Z) (e : env)
  (home : cstring) (k : nat) (w : world) : Run cstring :=
  random_hex e RANDOM_NAME_LEN (r_world (pass_dirs_on answer e home k w)).

Definition pass_filepath_on (answer : world -> cstring -> Z) (e : env)
  (home : cstring) (k : nat) (w : world) : cstring :=
  filepath_of (pass_dirpath e home k) (r_val (pass_name_on answer e home k w)).

Definition pass_png_on (answer : world -> cstring -> Z)
  (png : nat -> world -> cstring -> png_oracle) (e : env) (home : cstring)
  (k : nat) (w : world) (img : XImage) : Run Z :=
  save_png
    (png k (r_world (pass_name_on answer e home k w))
       (pass_filepath_on answer e home k w))
    img (pass_filepath_on answer e home k w)
    (r_world (pass_name_on answer e home k w)).

(** A disk on which the home directory of the samples exists. *)
Definition home_world : world :=
  {| w_dirs := [str "/home"; str "/home/u"]; w_files := []; w_rand_calls := 0 |}.

(** * Properties *)

(** ** Machine integers *)

Lemma int_wrap_id (z : Z) :
  -2147483648 <= z <= INT_MAX -> int_wrap z = z.
Proof.
  unfold int_wrap, INT_MAX. intros Hz.
  rewrite Z.mod_small by lia. lia.
Qed.

Lemma uchar_small (z : Z) : 0 <= z < 256 -> uchar z = z.
Proof. intros Hz. unfold uchar. apply Z.mod_small. lia. Qed.

Lemma uchar_range (z : Z) : 0 <= uchar z < 256.
Proof. unfold uchar. apply Z.mod_pos_bound. lia. Qed.

(** ** The pixel normalizer: the loop over [x] *)

Section FillRow.
Variable img : XImage.
Variable y : Z.

Lemma store_byte_length row i v : length (store_byte row i v) = length row.
Proof. unfold store_byte. apply length_insert. Qed.

Lemma fill_row_loop_length n : forall x row,
  length (fill_row_loop img y n x row) = length row.
Proof.
  induction n as [|n IH]; intros x row; simpl; [reflexivity|].
  rewrite IH, !store_byte_length. reflexivity.
Qed.

(** One pass of the loop body writes cells [3x], [3x+1], [3x+2] only. *)
Lemma store_pixel_other row x i v0 v1 v2 :
  0 <= x -> 3 * x + 2 <= INT_MAX ->
  (i < Z.to_nat (3 * x) \/ Z.to_nat (3 * x) + 2 < i)%nat ->
  store_byte
    (store_byte (store_byte row (int_wrap (3 * x)) v0)
       (int_wrap (int_wrap (3 * x) + 1)) v1)
    (int_wrap (int_wrap (3 * x) + 2)) v2 !! i = row !! i.
Proof.
  intros Hx Hmax Hi. unfold INT_MAX in Hmax.
  rewrite (int_wrap_id (3 * x)) by (unfold INT_MAX; lia).
  rewrite !int_wrap_id by (unfold INT_MAX; lia).
  unfold store_byte.
  rewrite !list_lookup_insert_ne by lia. reflexivity.
Qed.

Lemma store_pixel_at row x v0 v1 v2 :
  0 <= x -> 3 * x + 2 <= INT_MAX ->
  (Z.to_nat (3 * x) + 2 < length row)%nat ->
  let row' :=
    store_byte
      (store_byte (store_byte row (int_wrap (3 * x)) v0)
         (int_wrap (int_wrap (3 * x) + 1)) v1)
      (int_wrap (int_wrap (3 * x) + 2)) v2 in
  row' !! Z.to_nat (3 * x) = Some (uchar v0)
  /\ row' !! Z.to_nat (3 * x + 1) = Some (uchar v1)
  /\ row' !! Z.to_nat (3 * x + 2) = Some (uchar v2).
Proof.
  intros Hx Hmax Hlen. unfold INT_MAX in Hmax. cbv zeta.
  rewrite (int_wrap_id (3 * x)) by (unfold INT_MAX; lia).
  rewrite !int_wrap_id by (unfold INT_MAX; lia).
  unfold store_byte. repeat split.
  - rewrite !list_lookup_insert_ne by lia.
    apply list_lookup_insert_eq. lia.
  - rewrite list_lookup_insert_ne by lia.
    apply list_lookup_insert_eq. rewrite length_insert. lia.
  - apply list_lookup_insert_eq. rewrite !length_insert. lia.
Qed.

(** The loop from column [x0] on leaves the cells below [3 * x0] alone. *)
Lemma fill_row_loop_below n : forall x0 row i,
  0 <= x0 -> 3 * (x0 + Z.of_nat n) <= INT_MAX ->
  (i < Z.to_nat (3 * x0))%nat ->
  fill_row_loop img y n x0 row !! i = row !! i.
Proof.
  induction n as [|n IH]; intros x0 row i Hx0 Hmax Hi; simpl; [reflexivity|].
  rewrite IH by lia.
  apply store_pixel_other; [lia | lia | left; lia].
Qed.

(** Once the loop has passed column [x], the three cells of that column
    hold the pixel's channel bytes. *)
Lemma fill_row_loop_at n : forall x0 row x,
  0 <= x0 -> 3 * (x0 + Z.of_nat n) <= INT_MAX ->
  (Z.to_nat (3 * (x0 + Z.of_nat n)) <= length row)%nat ->
  x0 <= x < x0 + Z.of_nat n ->
  let out := fill_row_loop img y n x0 row in
  out !! Z.to_nat (3 * x) = Some (red_byte img x y)
  /\ out !! Z.to_nat (3 * x + 1) = Some (green_byte img x y)
  /\ out !! Z.to_nat (3 * x + 2) = Some (blue_byte img x y).
Proof.
  induction n as [|n IH]; intros x0 row x Hx0 Hmax Hlen Hx; [lia|].
  cbv zeta. simpl fill_row_loop.
  destruct (Z.eq_dec x x0) as [->|Hne].
  - rewrite !fill_row_loop_below by lia.
    apply store_pixel_at; lia.
  - apply IH; [lia | lia | | lia].
    rewrite !store_byte_length. lia.
Qed.
End FillRow.

(** ** The monad *)

Lemma bind_events {A B} (m : M A) (f : A -> M B) (w : world) :
  r_events (bind m f w)
  = r_events (m w) ++ r_events (f (r_val (m w)) (r_world (m w))).
Proof. reflexivity. Qed.

Lemma bind_val {A B} (m : M A) (f : A -> M B) (w : world) :
  r_val (bind m f w) = r_val (f (r_val (m w)) (r_world (m w))).
Proof. reflexivity. Qed.

Lemma bind_world {A B} (m : M A) (f : A -> M B) (w : world) :
  r_world (bind m f w) = r_world (f (r_val (m w)) (r_world (m w))).
Proof. reflexivity. Qed.

Lemma open_files_app (a b : list event) :
  open_files (a ++ b) = open_files a + open_files b.
Proof.
  induction a as [|ev a IH]; simpl; [lia|].
  destruct ev as [| | |? [|]| | | | | | | | | | | | | | | | | | | | | |]; lia.
Qed.

Lemma live_rows_app (a b : list event) :
  live_rows (a ++ b) = live_rows a + live_rows b.
Proof.
  induction a as [|ev a IH]; simpl; [lia|].
  destruct ev as [| | | | | | | | | | | |? [|]| | | | | | | | | | | | |]; lia.
Qed.

Lemma forallb_seq_S (f : nat -> bool) (n : nat) :
  forallb f (seq 1 n) = forallb (fun k => f (S k)) (seq 0 n).
Proof.
  rewrite <- seq_shift.
  induction (seq 0 n) as [|k l IH]; simpl; [reflexivity|].
  rewrite IH. reflexivity.
Qed.

Lemma forallb_pointwise {A} (f g : A -> bool) (l : list A) :
  (forall a, f a = g a) -> forallb f l = forallb g l.
Proof.
  intros Hfg. induction l as [|a l IH]; simpl; [reflexivity|].
  rewrite Hfg, IH. reflexivity.
Qed.

(** ** [save_png]: the loop over [y] *)

Section WriteRows.
Variable o : png_oracle.
Variable img : XImage.

Lemma png_call_world ok ev w : r_world (png_call ok ev w) = w.
Proof. destruct ok; reflexivity. Qed.

Lemma png_call_val ok ev w :
  r_val (png_call ok ev w) = if ok then Some tt else None.
Proof. destruct ok; reflexivity. Qed.

Lemma png_call_events ok ev w :
  r_events (png_call ok ev w) = if ok then [ev] else [ev; EvPngError].
Proof. destruct ok; reflexivity. Qed.

Lemma write_rows_S n y row :
  write_rows o img (S n) y row
  = bindJ (png_call (write_row_ok o y) (EvPngWriteRow y (fill_row img y row)))
      (fun _ => write_rows o img n (y + 1) (fill_row img y row)).
Proof. reflexivity. Qed.

Lemma write_rows_world n : forall y row w,
  r_world (write_rows o img n y row w) = w.
Proof.
  induction n as [|n IH]; intros y row w; [reflexivity|].
  rewrite write_rows_S. unfold bindJ. rewrite bind_world, png_call_world, png_call_val.
  destruct (write_row_ok o y); [apply IH | reflexivity].
Qed.

(** The loop completes exactly when no row write fails. *)
Lemma write_rows_val n : forall y row w,
  is_Some (r_val (write_rows o img n y row w))
  <-> forallb (fun k => write_row_ok o (y + Z.of_nat k)) (seq 0 n) = true.
Proof.
  induction n as [|n IH]; intros y row w.
  - simpl. split; [reflexivity | intros _; eexists; reflexivity].
  - rewrite write_rows_S. unfold bindJ. rewrite bind_val, png_call_world, png_call_val.
    cbn [seq forallb]. rewrite Z.add_0_r.
    destruct (write_row_ok o y); simpl andb.
    + rewrite IH, forallb_seq_S.
      erewrite forallb_pointwise; [reflexivity|].
      intros k. simpl. f_equal. lia.
    + split; [intros [? H]; discriminate H | discriminate].
Qed.

(** Every event of the loop is a row write of a freshly filled buffer, or
    the error that ends the loop. *)
Lemma write_rows_events n : forall y0 row w ev,
  In ev (r_events (write_rows o img n y0 row w)) ->
  ev = EvPngError
  \/ exists y prev,
       y0 <= y < y0 + Z.of_nat n /\ length prev = length row
       /\ ev = EvPngWriteRow y (fill_row img y prev).
Proof.
  induction n as [|n IH]; intros y0 row w ev Hin; [destruct Hin|].
  rewrite write_rows_S in Hin. unfold bindJ in Hin.
  rewrite bind_events, png_call_world, png_call_val, png_call_events in Hin.
  apply in_app_or in Hin. destruct Hin as [Hin|Hin].
  - assert (Hfirst : ev = EvPngError \/ ev = EvPngWriteRow y0 (fill_row img y0 row)).
    { destruct (write_row_ok o y0); simpl in Hin; intuition. }
    destruct Hfirst as [->| ->]; [left; reflexivity|].
    right. exists y0, row. split; [lia | split; reflexivity].
  - destruct (write_row_ok o y0); [|destruct Hin].
    apply IH in Hin. destruct Hin as [->|(y & prev & Hy & Hlen & ->)];
      [left; reflexivity|].
    right. exists y, prev. split; [lia|]. split; [|reflexivity].
    rewrite Hlen. unfold fill_row. apply fill_row_loop_length.
Qed.

(** The loop opens or closes no file, and allocates or frees no buffer. *)
Lemma write_rows_resources n : forall y row w,
  open_files (r_events (write_rows o img n y row w)) = 0
  /\ live_rows (r_events (write_rows o img n y row w)) = 0.
Proof.
  induction n as [|n IH]; intros y row w; [split; reflexivity|].
  rewrite write_rows_S. unfold bindJ.
  rewrite bind_events, png_call_world, png_call_val, png_call_events.
  rewrite open_files_app, live_rows_app.
  destruct (write_row_ok o y); simpl.
  - destruct (IH (y + 1) (fill_row img y row) w) as [-> ->]. split; reflexivity.
  - split; reflexivity.
Qed.
End WriteRows.

(** ** [save_png]: exits, resources, result *)

(** Case analysis on the answers [save_png] meets before its row loop. *)
Ltac png_stages o img :=
  unfold save_png, save_png_body, malloc_row, fopen, all_ok, reaches_rows;
  destruct (fopen_ok o) eqn:Hfopen;
  [ destruct (create_write_ok o) eqn:Hcw;
    [ destruct (create_info_ok o) eqn:Hci;
      [ destruct (init_io_ok o) eqn:Hio;
        [ destruct (set_IHDR_ok o) eqn:Hih;
          [ destruct (write_info_ok o) eqn:Hwi;
            [ destruct (malloc_succeeds o img) eqn:Hmalloc | ] | ] | ] | ] | ] | ].

(** In the case that reaches the row loop: name the loop's run and recall
    what is known of it. *)
Ltac png_rows :=
  cbn -[write_rows Z.mul Z.modulo int_wrap row_size rows_ok];
  match goal with
  | |- context [write_rows ?o ?i ?n ?y ?r ?w] =>
      pose proof (write_rows_world o i n y r w) as Hrows_world;
      pose proof (write_rows_val o i n y r w) as Hrows_val;
      pose proof (write_rows_resources o i n y r w) as [Hrows_open Hrows_live];
      pose proof (write_rows_events o i n y r w) as Hrows_events;
      destruct (write_rows o i n y r w) as [rows_val rows_world rows_events];
      cbn [r_val r_world r_events] in *
  end.

Section SavePng.
Variable o : png_oracle.
Variable img : XImage.
Variable filepath : cstring.
Variable w : world.

(** Whatever happens, the file handle [fopen] returned is closed. *)
Lemma save_png_closes_file :
  open_files (r_events (save_png o img filepath w)) = 0.
Proof.
  png_stages o img; try reflexivity.
  png_rows. rewrite !open_files_app, Hrows_open.
  destruct rows_val; [destruct (write_end_ok o)|]; reflexivity.
Qed.

(** The row buffer stays allocated exactly when a row write fails. *)
Lemma save_png_row_leak :
  live_rows (r_events (save_png o img filepath w))
  = if reaches_rows o img && negb (rows_ok o img) then 1 else 0.
Proof.
  png_stages o img; try reflexivity.
  png_rows. rewrite !live_rows_app, Hrows_live.
  fold (rows_ok o img) in Hrows_val.
  destruct rows_val as [row|].
  - rewrite (proj1 Hrows_val) by (eexists; reflexivity).
    destruct (write_end_ok o); reflexivity.
  - destruct (rows_ok o img); [|reflexivity].
    destruct (proj2 Hrows_val eq_refl) as [? H]. discriminate H.
Qed.

(** The result is 0 when every step succeeds and -1 otherwise. *)
Lemma save_png_status :
  r_val (save_png o img filepath w) = if all_ok o img then 0 else -1.
Proof.
  png_stages o img; try reflexivity.
  png_rows. fold (rows_ok o img) in Hrows_val.
  destruct rows_val as [row|].
  - rewrite (proj1 Hrows_val) by (eexists; reflexivity).
    destruct (write_end_ok o); reflexivity.
  - destruct (rows_ok o img); [|reflexivity].
    destruct (proj2 Hrows_val eq_refl) as [? H]. discriminate H.
Qed.

(** [save_png] creates (or truncates) the destination when [fopen]
    succeeds, and changes nothing else on disk. *)
Lemma save_png_world :
  r_world (save_png o img filepath w)
  = {| w_dirs := w_dirs w;
       w_files := if fopen_ok o && negb (exists_in (w_files w) filepath)
                  then w_files w ++ [filepath] else w_files w;
       w_rand_calls := w_rand_calls w |}.
Proof.
  png_stages o img; try (destruct w; reflexivity).
  png_rows. subst rows_world.
  destruct rows_val; [destruct (write_end_ok o)|]; reflexivity.
Qed.

Lemma save_png_dirs :
  w_dirs (r_world (save_png o img filepath w)) = w_dirs w.
Proof. rewrite save_png_world. reflexivity. Qed.

Lemma save_png_files :
  w_files (r_world (save_png o img filepath w))
  = if fopen_ok o && negb (exists_in (w_files w) filepath)
    then w_files w ++ [filepath] else w_files w.
Proof. rewrite save_png_world. reflexivity. Qed.

Lemma save_png_rand :
  w_rand_calls (r_world (save_png o img filepath w)) = w_rand_calls w.
Proof. rewrite save_png_world. reflexivity. Qed.

Lemma save_png_events_kind :
  forall ev, In ev (r_events (save_png o img filepath w)) ->
             is_save_png_ev ev = true.
Proof.
  intros ev.
  png_stages o img;
    try (cbn; intros Hin; repeat (destruct Hin as [<-|Hin]; [reflexivity|]);
         destruct Hin).
  png_rows. intros Hin.
  repeat (destruct Hin as [<-|Hin]; [reflexivity|]).
  rewrite <- app_assoc in Hin.
  apply in_app_or in Hin. destruct Hin as [Hin|Hin].
  - destruct (Hrows_events ev Hin) as [->|(y & prev & _ & _ & ->)]; reflexivity.
  - destruct rows_val; [destruct (write_end_ok o)|]; cbn in Hin;
      repeat (destruct Hin as [<-|Hin]; [reflexivity|]); destruct Hin.
Qed.

(** Every row handed to [png_write_row] is the row buffer, of
    [row_size] bytes, just filled from one scanline of the image. *)
Lemma save_png_rows_written y row :
  In (EvPngWriteRow y row) (r_events (save_png o img filepath w)) ->
  0 <= y < height img
  /\ exists prev, length prev = Z.to_nat (row_size img)
                  /\ row = fill_row img y prev.
Proof.
  png_stages o img;
    try (cbn; intros Hin;
         repeat (destruct Hin as [Hin|Hin]; [discriminate Hin|]);
         destruct Hin).
  png_rows. intros Hin.
  repeat (destruct Hin as [Hin|Hin]; [discriminate Hin|]).
  rewrite <- app_assoc in Hin.
  apply in_app_or in Hin. destruct Hin as [Hin|Hin].
  - destruct (Hrows_events _ Hin) as [Heq|(y' & prev & Hy & Hlen & Heq)];
      [discriminate Heq|].
    injection Heq as -> ->. split; [lia|].
    exists prev. split; [|reflexivity].
    rewrite Hlen, length_map, length_seq. reflexivity.
  - destruct rows_val; [destruct (write_end_ok o)|]; cbn in Hin;
      repeat (destruct Hin as [Hin|Hin]; [discriminate Hin|]); destruct Hin.
Qed.
End SavePng.

(** ** The pixel normalizer inside [save_png] *)

(** C1. Every row [save_png] hands to the encoder holds, for every pixel
    of its scanline, the three bytes obtained by masking the packed pixel
    with the red, green and blue masks and shifting right by 16, 8 and 0
    bits, stored in that order at cells [3x], [3x+1], [3x+2]; with masks
    0xFF0000, 0xFF00, 0xFF and pixel 0x112233 the bytes are 0x11, 0x22,
    0x33. *)
Theorem save_png_normalizes_pixels
  (o : png_oracle) (img : XImage) (filepath : cstring) (w : world)
  (y x : Z) (row : list Z) :
  In (EvPngWriteRow y row) (r_events (save_png o img filepath w)) ->
  0 <= x < width img ->
  3 * width img <= INT_MAX ->
  (row !! Z.to_nat (3 * x)
     = Some (uchar (Z.shiftr (Z.land (XGetPixel img x y) (red_mask img)) 16))
   /\ row !! Z.to_nat (3 * x + 1)
     = Some (uchar (Z.shiftr (Z.land (XGetPixel img x y) (green_mask img)) 8))
   /\ row !! Z.to_nat (3 * x + 2)
     = Some (uchar (Z.land (XGetPixel img x y) (blue_mask img))))
  /\ (red_mask img = 0xFF0000 -> green_mask img = 0xFF00 ->
      blue_mask img = 0xFF -> XGetPixel img x y = 0x112233 ->
      row !! Z.to_nat (3 * x) = Some 0x11
      /\ row !! Z.to_nat (3 * x + 1) = Some 0x22
      /\ row !! Z.to_nat (3 * x + 2) = Some 0x33).
Proof.
  intros Hin Hx Hmax.
  destruct (save_png_rows_written _ _ _ _ _ _ Hin) as [Hy [prev [Hlen Hrow]]].
  subst row.
  assert (Hsize : row_size img = 3 * width img).
  { unfold row_size. rewrite int_wrap_id by (unfold INT_MAX in *; lia).
    apply Z.mod_small. unfold INT_MAX in Hmax. lia. }
  assert (Hcells := fill_row_loop_at img y (Z.to_nat (width img)) 0 prev x).
  cbv zeta in Hcells. fold (fill_row img y prev) in Hcells.
  destruct Hcells as (Hr & Hg & Hb); [lia | lia | | lia |].
  { rewrite Hlen, Hsize. lia. }
  split; [split; [exact Hr | split; [exact Hg | exact Hb]]|].
  intros Hrm Hgm Hbm Hpix.
  rewrite Hr, Hg, Hb. unfold red_byte, green_byte, blue_byte.
  rewrite Hrm, Hgm, Hbm, Hpix. repeat split; reflexivity.
Qed.

Lemma save_png_normalizes_pixels_witness :
  let run := save_png png_all_ok sample_image (str "shot.png") empty_world in
  let row := [0x11; 0x22; 0x33; 0x12; 0x23; 0x34] in
  (In (EvPngWriteRow 0 row) (r_events run)
   /\ 0 <= 0 < width sample_image
   /\ 3 * width sample_image <= INT_MAX)
  /\ row !! Z.to_nat (3 * 0) = Some 0x11
  /\ row !! Z.to_nat (3 * 0 + 1) = Some 0x22
  /\ row !! Z.to_nat (3 * 0 + 2) = Some 0x33.
Proof.
  cbv zeta.
  assert (Hin : In (EvPngWriteRow 0 [0x11; 0x22; 0x33; 0x12; 0x23; 0x34])
                  (r_events (save_png png_all_ok sample_image (str "shot.png")
                               empty_world))).
  { vm_compute. do 7 right. left. reflexivity. }
  assert (Hx : 0 <= 0 < width sample_image) by (simpl; lia).
  assert (Hmax : 3 * width sample_image <= INT_MAX) by (vm_compute; discriminate).
  split; [split; [exact Hin | split; [exact Hx | exact Hmax]]|].
  apply (proj2 (save_png_normalizes_pixels png_all_ok sample_image
                  (str "shot.png") empty_world 0 0 _ Hin Hx Hmax));
    reflexivity.
Defined.

(** ** C strings in a buffer *)

Lemma cstring_eqb_eq (a b : cstring) : cstring_eqb a b = true <-> a = b.
Proof.
  revert b. induction a as [|x a IH]; intros [|y b]; simpl;
    try (split; [discriminate | discriminate]); [tauto|].
  rewrite andb_true_iff, Ascii.eqb_eq, IH.
  split; [intros [-> ->]; reflexivity | intros H; injection H; auto].
Qed.

Lemma cstring_eqb_refl (a : cstring) : cstring_eqb a a = true.
Proof. apply cstring_eqb_eq. reflexivity. Qed.

Lemma exists_in_In (l : list cstring) (p : cstring) :
  exists_in l p = true <-> In p l.
Proof.
  unfold exists_in. rewrite existsb_exists. split.
  - intros (q & Hq & Heq). apply cstring_eqb_eq in Heq. subst q. exact Hq.
  - intros Hin. exists p. split; [exact Hin | apply cstring_eqb_refl].
Qed.

Lemma c_str_nul_free (buf : list ascii) : nul_free (c_str buf).
Proof.
  induction buf as [|c buf IH]; simpl; [constructor|].
  destruct (Ascii.eqb c NUL) eqn:Hc; constructor; assumption.
Qed.

Lemma nul_free_take (n : nat) (t : cstring) : nul_free t -> nul_free (take n t).
Proof.
  intros Ht. revert n. induction Ht as [|c t Hc Ht IH]; intros [|n]; simpl;
    constructor; [exact Hc | apply IH].
Qed.

(** A NUL-free string followed by nothing, or by a NUL, reads as itself. *)
Lemma c_str_terminated (t s : list ascii) :
  nul_free t -> s = [] \/ s = [NUL] -> c_str (t ++ s) = t.
Proof.
  intros Ht Hs. induction Ht as [|c t Hc Ht IH]; simpl.
  - destruct Hs as [->| ->]; reflexivity.
  - rewrite Hc, IH. reflexivity.
Qed.

(** Writing a NUL at index [i] cuts the string there. *)
Lemma c_str_cut (t s : list ascii) (i : nat) :
  nul_free t -> (i < length t)%nat ->
  c_str (<[i := NUL]> (t ++ s)) = take i t.
Proof.
  intros Ht. revert i. induction Ht as [|c t Hc Ht IH]; intros i Hi; simpl in Hi.
  - lia.
  - destruct i as [|i]; simpl; [reflexivity|].
    rewrite Hc, IH by lia. reflexivity.
Qed.

Lemma char_at_app_l (t s : list ascii) (i : nat) :
  (i < length t)%nat -> char_at (t ++ s) i = char_at t i.
Proof. intros Hi. unfold char_at. rewrite lookup_app_l by exact Hi. reflexivity. Qed.

Lemma char_at_nul_free (t : cstring) (i : nat) :
  nul_free t -> (i < length t)%nat -> Ascii.eqb (char_at t i) NUL = false.
Proof.
  intros Ht. revert i. induction Ht as [|c t Hc Ht IH]; intros i Hi; simpl in Hi.
  - lia.
  - destruct i as [|i]; [exact Hc|]. apply IH. lia.
Qed.

(** At and after the end of the string the buffer reads NUL. *)
Lemma char_at_end (t s : list ascii) (i : nat) :
  s = [] \/ s = [NUL] -> (length t <= i)%nat -> char_at (t ++ s) i = NUL.
Proof.
  intros Hs Hi. unfold char_at.
  destruct ((t ++ s) !! i) as [c|] eqn:Hlook; [|reflexivity].
  rewrite lookup_app_r in Hlook by exact Hi.
  destruct Hs as [->| ->]; [destruct (i - length t)%nat; discriminate Hlook|].
  destruct (i - length t)%nat as [|[|j]]; simpl in Hlook;
    [injection Hlook as <-; reflexivity | discriminate Hlook | discriminate Hlook].
Qed.

(** ** [mkdir] and [mkdir_p] *)

Lemma with_dirs_same (w : world) : with_dirs (w_dirs w) w = w.
Proof. destruct w; reflexivity. Qed.

Lemma mkdir_run (p : cstring) (mode : Z) (w : world) :
  mkdir p mode w
  = mkRun (mkdir_ret (w_dirs w) p)
      (with_dirs (mkdir_dirs (w_dirs w) p) w)
      [EvMkdir p mode (mkdir_ret (w_dirs w) p)].
Proof. reflexivity. Qed.

Section MkdirP.
Variable mode : Z.

(** The loop calls [mkdir] on the prefix before each slash, restores the
    buffer, and touches nothing but the directories. *)
Lemma mkdir_p_loop_run (t s : list ascii) :
  nul_free t -> s = [] \/ s = [NUL] ->
  forall fuel i w,
    (length t < i + fuel)%nat ->
    let ps := slash_prefixes t (length t - i) i in
    mkdir_p_loop fuel i (t ++ s) mode w
    = mkRun (t ++ s)
        (with_dirs (fold_left mkdir_dirs ps (w_dirs w)) w)
        (mkdir_events ps mode (w_dirs w)).
Proof.
  intros Ht Hs fuel. induction fuel as [|fuel IH]; intros i w Hfuel ps.
  - assert (Hi : (length t - i = 0)%nat) by lia.
    subst ps. rewrite Hi. simpl. rewrite with_dirs_same. reflexivity.
  - simpl mkdir_p_loop.
    destruct (Nat.lt_ge_cases i (length t)) as [Hlt|Hge].
    + rewrite (char_at_app_l t s i Hlt), (char_at_nul_free t i Ht Hlt).
      subst ps. replace (length t - i)%nat with (S (length t - S i)) by lia.
      simpl slash_prefixes.
      destruct (Ascii.eqb (char_at t i) SLASH) eqn:Hslash.
      * rewrite (c_str_cut t s i Ht Hlt).
        assert (Hrestore : <[i := SLASH]> (<[i := NUL]> (t ++ s)) = t ++ s).
        { rewrite list_insert_insert_eq. apply list_insert_id.
          apply Ascii.eqb_eq in Hslash. rewrite <- Hslash.
          unfold char_at. rewrite lookup_app_l by exact Hlt.
          destruct (t !! i) as [c|] eqn:Hc; [reflexivity|].
          apply lookup_ge_None in Hc. lia. }
        rewrite Hrestore. unfold bind. rewrite mkdir_run.
        cbn [r_val r_world r_events].
        rewrite IH by lia. reflexivity.
      * rewrite IH by lia. reflexivity.
    + rewrite (char_at_end t s i Hs Hge). simpl.
      subst ps. replace (length t - i)%nat with 0%nat by lia.
      simpl. rewrite with_dirs_same. reflexivity.
Qed.
End MkdirP.

Lemma mkdir_events_app (a b : list cstring) (mode : Z) (dirs : list cstring) :
  mkdir_events (a ++ b) mode dirs
  = mkdir_events a mode dirs ++ mkdir_events b mode (fold_left mkdir_dirs a dirs).
Proof.
  revert dirs. induction a as [|p a IH]; intros dirs; simpl; [reflexivity|].
  rewrite IH. reflexivity.
Qed.

Lemma insert_last {A} (l : list A) (x : A) :
  l <> [] -> <[(length l - 1)%nat := x]> l = take (length l - 1) l ++ [x].
Proof.
  intros Hne.
  assert (Hlen : (0 < length l)%nat) by (destruct l; [congruence | simpl; lia]).
  rewrite insert_take_drop by lia.
  replace (S (length l - 1)) with (length l) by lia.
  rewrite drop_all. reflexivity.
Qed.

Lemma mkdir_p_tmp_nul_free (path : cstring) : nul_free (snprintf 512 (fmt_s path)).
Proof. apply nul_free_take, c_str_nul_free. Qed.

Lemma mkdir_p_target_nul_free (path : cstring) : nul_free (mkdir_p_target path).
Proof.
  unfold mkdir_p_target.
  destruct (Ascii.eqb _ SLASH);
    [apply nul_free_take|]; apply mkdir_p_tmp_nul_free.
Qed.

(** An empty path: [mkdir_p] returns -1 and calls nothing. *)
Lemma mkdir_p_empty (path : cstring) (mode : Z) (w : world) :
  c_str path = [] -> mkdir_p path mode w = mkRun (-1) w [].
Proof.
  intros Hpath. unfold mkdir_p, fmt_s. rewrite Hpath. reflexivity.
Qed.

(** A non-empty path: [mkdir_p] is [mkdir] on each path of
    [mkdir_p_paths], and its value is the value of the last call. *)
Lemma mkdir_p_run (path : cstring) (mode : Z) (w : world) :
  c_str path <> [] ->
  let t := mkdir_p_target path in
  let ps := slash_prefixes t (length t - 1) 1 in
  let dirs' := fold_left mkdir_dirs ps (w_dirs w) in
  mkdir_p path mode w
  = mkRun (mkdir_ret dirs' t)
      (with_dirs (mkdir_dirs dirs' t) w)
      (mkdir_events ps mode (w_dirs w) ++ [EvMkdir t mode (mkdir_ret dirs' t)]).
Proof.
  intros Hpath. cbv zeta.
  pose proof (mkdir_p_target_nul_free path) as Ht.
  unfold mkdir_p, mkdir_p_target in *.
  set (tmp := snprintf 512 (fmt_s path)) in *.
  assert (Hne : tmp <> []).
  { subst tmp. unfold snprintf, fmt_s. destruct (c_str path); [congruence|].
    simpl. discriminate. }
  assert (Hlen : (0 < length tmp)%nat) by (destruct tmp; [congruence | simpl; lia]).
  replace (length tmp =? 0)%nat with false by (symmetry; apply Nat.eqb_neq; lia).
  destruct (Ascii.eqb (char_at tmp (length tmp - 1)) SLASH).
  - rewrite (insert_last tmp NUL Hne).
    set (t := take (length tmp - 1) tmp) in *.
    assert (Hlt : length t = (length tmp - 1)%nat).
    { subst t. rewrite length_take. lia. }
    unfold bind.
    rewrite (mkdir_p_loop_run mode t [NUL] Ht (or_intror eq_refl))
      by (pose proof (length_app t [NUL]); simpl in *; lia).
    cbn [r_val r_world r_events].
    rewrite (c_str_terminated t [NUL] Ht (or_intror eq_refl)).
    rewrite mkdir_run. destruct w; reflexivity.
  - unfold bind.
    pose proof (mkdir_p_loop_run mode tmp [] Ht (or_introl eq_refl)
                  (length tmp) 1 w) as Hloop.
    pose proof (c_str_terminated tmp [] Ht (or_introl eq_refl)) as Hread.
    rewrite app_nil_r in Hloop, Hread.
    rewrite Hloop by lia.
    cbn [r_val r_world r_events].
    rewrite Hread, mkdir_run. destruct w; reflexivity.
Qed.

Lemma mkdir_p_paths_run (path : cstring) (mode : Z) (w : world) :
  c_str path <> [] ->
  r_events (mkdir_p path mode w) = mkdir_events (mkdir_p_paths path) mode (w_dirs w)
  /\ r_world (mkdir_p path mode w)
     = with_dirs (fold_left mkdir_dirs (mkdir_p_paths path) (w_dirs w)) w.
Proof.
  intros Hpath. rewrite (mkdir_p_run path mode w Hpath). cbn [r_events r_world].
  unfold mkdir_p_paths. rewrite mkdir_events_app, fold_left_app. split; reflexivity.
Qed.

Lemma mkdir_events_kind (ps : list cstring) (mode : Z) : forall dirs,
  Forall (fun ev => is_mkdir_ev ev = true) (mkdir_events ps mode dirs).
Proof.
  induction ps as [|p ps IH]; intros dirs; simpl; constructor;
    [reflexivity | apply IH].
Qed.

(** [mkdir_p] produces [mkdir] events only, and leaves the files and the
    random generator alone. *)
Lemma mkdir_p_frame (path : cstring) (mode : Z) (w : world) :
  Forall (fun ev => is_mkdir_ev ev = true) (r_events (mkdir_p path mode w))
  /\ w_files (r_world (mkdir_p path mode w)) = w_files w
  /\ w_rand_calls (r_world (mkdir_p path mode w)) = w_rand_calls w.
Proof.
  destruct (c_str path) as [|c rest] eqn:Hpath.
  - rewrite (mkdir_p_empty path mode w Hpath). repeat split. constructor.
  - assert (Hne : c_str path <> []) by (rewrite Hpath; discriminate).
    destruct (mkdir_p_paths_run path mode w Hne) as [-> ->].
    repeat split. apply mkdir_events_kind.
Qed.

(** ** Creating directories twice *)

Lemma mkdir_ret_cases (dirs : list cstring) (p : cstring) :
  mkdir_ret dirs p = 0 \/ mkdir_ret dirs p = -1.
Proof.
  unfold mkdir_ret.
  destruct (cstring_eqb p []), (exists_in dirs p),
    (cstring_eqb (parent p) [] || exists_in dirs (parent p)); auto.
Qed.

Lemma mkdir_ret_exists (dirs : list cstring) (p : cstring) :
  In p dirs -> mkdir_ret dirs p = -1.
Proof.
  intros Hin. unfold mkdir_ret.
  apply exists_in_In in Hin. rewrite Hin.
  destruct (cstring_eqb p []); reflexivity.
Qed.

Lemma mkdir_dirs_In (dirs : list cstring) (p q : cstring) :
  In q (mkdir_dirs dirs p) <-> In q dirs \/ (q = p /\ mkdir_ret dirs p = 0).
Proof.
  unfold mkdir_dirs. destruct (mkdir_ret_cases dirs p) as [Hr|Hr]; rewrite Hr; simpl.
  - rewrite in_app_iff. simpl. intuition.
  - intuition. discriminate.
Qed.

Lemma mkdir_all_mono (ps : list cstring) : forall dirs q,
  In q dirs -> In q (fold_left mkdir_dirs ps dirs).
Proof.
  induction ps as [|p ps IH]; intros dirs q Hq; simpl; [exact Hq|].
  apply IH, mkdir_dirs_In. left. exact Hq.
Qed.

(** Creating longer paths does not bring a shorter one into existence. *)
Lemma mkdir_all_shorter (ps : list cstring) : forall dirs q,
  Forall (fun p => (length q < length p)%nat) ps ->
  In q (fold_left mkdir_dirs ps dirs) -> In q dirs.
Proof.
  induction ps as [|p ps IH]; intros dirs q Hlen Hq; simpl in Hq; [exact Hq|].
  inversion Hlen as [|? ? Hp Hps]; subst.
  apply IH in Hq; [|exact Hps].
  apply mkdir_dirs_In in Hq. destruct Hq as [Hq|[-> _]]; [exact Hq | lia].
Qed.

Lemma strip_leaf_shorter (l : cstring) :
  (length (strip_leaf l) <= length l - 1)%nat.
Proof.
  induction l as [|c l IH]; simpl; [lia|].
  destruct (Ascii.eqb c SLASH); lia.
Qed.

Lemma parent_shorter (p : cstring) :
  p <> [] -> (length (parent p) < length p)%nat.
Proof.
  intros Hp. unfold parent.
  pose proof (strip_leaf_shorter (rev p)) as Hs.
  rewrite length_rev in *.
  assert (0 < length p)%nat by (destruct p; [congruence | simpl; lia]). lia.
Qed.

(** A [mkdir] refused on a path that does not exist stays refused while no
    shorter path appears. *)
Lemma mkdir_refused_stays (dirs dirs' : list cstring) (p : cstring) :
  mkdir_ret dirs p <> 0 -> ~ In p dirs ->
  (forall q, (length q < length p)%nat -> In q dirs' -> In q dirs) ->
  mkdir_ret dirs' p <> 0.
Proof.
  intros Hret Hnew Hshort. unfold mkdir_ret in *.
  destruct (cstring_eqb p []) eqn:Hp; [discriminate|].
  assert (Hpne : p <> []).
  { intros ->. discriminate Hp. }
  destruct (exists_in dirs p) eqn:Hex.
  { apply exists_in_In in Hex. contradiction. }
  destruct (exists_in dirs' p); [discriminate|].
  destruct (cstring_eqb (parent p) []) eqn:Hroot; [contradiction Hret; reflexivity|].
  simpl in *.
  destruct (exists_in dirs (parent p)) eqn:Hpar; [contradiction Hret; reflexivity|].
  destruct (exists_in dirs' (parent p)) eqn:Hpar'; [|discriminate].
  apply exists_in_In in Hpar'.
  apply Hshort in Hpar'; [|apply parent_shorter; exact Hpne].
  apply exists_in_In in Hpar'. congruence.
Qed.

(** Calling [mkdir] again on the same paths changes nothing on disk. *)
Lemma mkdir_all_idempotent (ps : list cstring) :
  increasing ps ->
  forall dirs,
    fold_left mkdir_dirs ps (fold_left mkdir_dirs ps dirs)
    = fold_left mkdir_dirs ps dirs.
Proof.
  induction ps as [|p ps IH]; intros Hinc dirs; [reflexivity|].
  destruct Hinc as [Hlonger Hinc]. simpl.
  assert (Hagain : mkdir_dirs (fold_left mkdir_dirs ps (mkdir_dirs dirs p)) p
                   = fold_left mkdir_dirs ps (mkdir_dirs dirs p)).
  { set (dirs1 := fold_left mkdir_dirs ps (mkdir_dirs dirs p)).
    assert (Hret : mkdir_ret dirs1 p <> 0).
    { destruct (exists_in (mkdir_dirs dirs p) p) eqn:Hex.
      - apply exists_in_In in Hex.
        rewrite mkdir_ret_exists; [discriminate|].
        apply mkdir_all_mono. exact Hex.
      - assert (Hnin : ~ In p (mkdir_dirs dirs p)).
        { intros Hin. apply exists_in_In in Hin. congruence. }
        assert (Hrefused : mkdir_ret dirs p <> 0).
        { intros H0. apply Hnin, mkdir_dirs_In. right. split; [reflexivity | exact H0]. }
        assert (Hsame : mkdir_dirs dirs p = dirs).
        { unfold mkdir_dirs. destruct (mkdir_ret_cases dirs p) as [H0|H1];
            [contradiction | rewrite H1; reflexivity]. }
        subst dirs1. rewrite Hsame in *.
        apply (mkdir_refused_stays dirs); [exact Hrefused | exact Hnin |].
        intros q Hq. apply mkdir_all_shorter.
        eapply Forall_impl; [exact Hlonger|]. simpl. intros r Hr. lia. }
    unfold mkdir_dirs at 1.
    destruct (mkdir_ret_cases dirs1 p) as [H0|H1];
      [contradiction | rewrite H1; reflexivity]. }
  rewrite Hagain. apply IH. exact Hinc.
Qed.

Lemma slash_prefixes_spec (t : cstring) (n : nat) : forall i q,
  In q (slash_prefixes t n i) ->
  exists j, (i <= j < i + n)%nat /\ q = take j t.
Proof.
  induction n as [|n IH]; intros i q Hq; simpl in Hq; [destruct Hq|].
  destruct (Ascii.eqb (char_at t i) SLASH).
  - destruct Hq as [<-|Hq]; [exists i; split; [lia | reflexivity]|].
    destruct (IH _ _ Hq) as (j & Hj & ->). exists j. split; [lia | reflexivity].
  - destruct (IH _ _ Hq) as (j & Hj & ->). exists j. split; [lia | reflexivity].
Qed.

Lemma slash_prefixes_increasing (t : cstring) (n : nat) : forall i,
  (n = 0 \/ i + n <= length t)%nat -> increasing (slash_prefixes t n i).
Proof.
  induction n as [|n IH]; intros i Hn; simpl; [exact I|].
  assert (Hrest : increasing (slash_prefixes t n (S i))) by (apply IH; lia).
  destruct (Ascii.eqb (char_at t i) SLASH); [|exact Hrest].
  split; [|exact Hrest].
  apply List.Forall_forall. intros q Hq.
  destruct (slash_prefixes_spec _ _ _ _ Hq) as (j & Hj & ->).
  rewrite !length_take. lia.
Qed.

Lemma increasing_snoc (ps : list cstring) (t : cstring) :
  increasing ps -> Forall (fun q => (length q < length t)%nat) ps ->
  increasing (ps ++ [t]).
Proof.
  induction ps as [|p ps IH]; intros Hinc Hlt; simpl.
  - split; [constructor | exact I].
  - destruct Hinc as [Hlonger Hinc].
    inversion Hlt as [|? ? Hp Hps]; subst.
    split; [|apply IH; assumption].
    apply Forall_app. split; [exact Hlonger|].
    constructor; [exact Hp | constructor].
Qed.

(** The paths [mkdir_p] creates go from the shortest to the longest. *)
Lemma mkdir_p_paths_increasing (path : cstring) : increasing (mkdir_p_paths path).
Proof.
  unfold mkdir_p_paths. set (t := mkdir_p_target path).
  apply increasing_snoc.
  - apply slash_prefixes_increasing. lia.
  - apply List.Forall_forall. intros q Hq.
    destruct (slash_prefixes_spec _ _ _ _ Hq) as (j & Hj & ->).
    rewrite length_take. lia.
Qed.

(** A second [mkdir_p] on the same path leaves the world as the first one
    left it. *)
Lemma mkdir_p_twice (path : cstring) (mode : Z) (w : world) :
  r_world (mkdir_p path mode (r_world (mkdir_p path mode w)))
  = r_world (mkdir_p path mode w).
Proof.
  destruct (c_str path) as [|c rest] eqn:Hpath.
  - rewrite !(mkdir_p_empty path mode _ Hpath). reflexivity.
  - assert (Hne : c_str path <> []) by (rewrite Hpath; discriminate).
    destruct (mkdir_p_paths_run path mode w Hne) as [_ ->].
    destruct (mkdir_p_paths_run path mode
                (with_dirs (fold_left mkdir_dirs (mkdir_p_paths path) (w_dirs w)) w)
                Hne) as [_ ->].
    cbn [with_dirs w_dirs w_files w_rand_calls].
    rewrite mkdir_all_idempotent by apply mkdir_p_paths_increasing.
    reflexivity.
Qed.

(** ** One pass of the loop *)

Lemma Run_ext {A} (r1 r2 : Run A) :
  r_val r1 = r_val r2 -> r_world r1 = r_world r2 ->
  r_events r1 = r_events r2 -> r1 = r2.
Proof. destruct r1, r2; simpl; intros -> -> ->; reflexivity. Qed.

Lemma log_events (ev : event) (w : world) : r_events (log ev w) = [ev].
Proof. reflexivity. Qed.

Lemma log_world (ev : event) (w : world) : r_world (log ev w) = w.
Proof. reflexivity. Qed.

Lemma ret_events {A} (a : A) (w : world) : r_events (ret a w) = [].
Proof. reflexivity. Qed.

Lemma ret_world {A} (a : A) (w : world) : r_world (ret a w) = w.
Proof. reflexivity. Qed.

Lemma ret_val {A} (a : A) (w : world) : r_val (ret a w) = a.
Proof. reflexivity. Qed.

Lemma log_val (ev : event) (w : world) : r_val (log ev w) = tt.
Proof. reflexivity. Qed.

(** Push the projections of a run through [bind], [log] and [ret]. *)
Ltac run_norm :=
  repeat first
    [ rewrite bind_events | rewrite bind_world | rewrite bind_val
    | rewrite log_events | rewrite log_world | rewrite log_val
    | rewrite ret_events | rewrite ret_world | rewrite ret_val ].

Section Iteration.
Variable e : env.
Variable home : cstring.
Variable interval_ms : Z.
Variables scr_w scr_h : Z.
Variable k : nat.
Variable w : world.

(** A pass whose capture fails. *)
Lemma iteration_capture_failed :
  env_image e k = None ->
  iteration e home interval_ms scr_w scr_h k w
  = mkRun tt (r_world (pass_name e home k w))
      ([EvTime] ++ r_events (pass_dirs e home k w)
       ++ r_events (pass_name e home k w)
       ++ [EvXGetImage scr_w scr_h false]
       ++ [EvStderr (str "Screenshot failed" ++ ["010"%char])]
       ++ [EvUsleep (usleep_arg interval_ms)]).
Proof.
  intros Himg. unfold iteration. rewrite Himg.
  apply Run_ext; run_norm; cbn [r_val r_world r_events];
    unfold pass_name, pass_dirs, pass_dirpath; reflexivity.
Qed.

(** A pass whose capture succeeds. *)
Lemma iteration_captured (img : XImage) :
  env_image e k = Some img ->
  iteration e home interval_ms scr_w scr_h k w
  = mkRun tt (r_world (pass_png e home k w img))
      ([EvTime] ++ r_events (pass_dirs e home k w)
       ++ r_events (pass_name e home k w)
       ++ [EvXGetImage scr_w scr_h true]
       ++ (r_events (pass_png e home k w img)
           ++ (if r_val (pass_png e home k w img) =? 0
               then [EvStdout (str "Saved " ++ pass_filepath e home k w
                                 ++ ["010"%char])]
               else [])
           ++ [EvXDestroyImage])
       ++ [EvUsleep (usleep_arg interval_ms)]).
Proof.
  intros Himg. unfold iteration. rewrite Himg.
  apply Run_ext; run_norm; cbn [r_val r_world r_events];
    unfold pass_png, pass_filepath, pass_name, pass_dirs, pass_dirpath.
  - reflexivity.
  - destruct (r_val (save_png _ _ _ _) =? 0); run_norm; reflexivity.
  - destruct (r_val (save_png _ _ _ _) =? 0); run_norm; reflexivity.
Qed.
End Iteration.

(** ** Counting events *)

Lemma count_ev_app (f : event -> bool) (a b : list event) :
  count_ev f (a ++ b) = (count_ev f a + count_ev f b)%nat.
Proof. unfold count_ev. rewrite List.filter_app, length_app. reflexivity. Qed.

Lemma count_ev_none (f : event -> bool) (evs : list event) :
  (forall ev, In ev evs -> f ev = false) -> count_ev f evs = 0%nat.
Proof.
  unfold count_ev. induction evs as [|ev evs IH]; intros Hf; simpl; [reflexivity|].
  rewrite (Hf ev) by (left; reflexivity).
  apply IH. intros ev' Hin. apply Hf. right. exact Hin.
Qed.

(** ** [random_hex] *)

Section RandomHex.
Variable e : env.

Lemma random_hex_S (len : nat) :
  random_hex e (S len)
  = bind (rand e) (fun r =>
      bind (random_hex e len) (fun rest =>
        ret (char_at hex (Z.to_nat (Z.rem r 16)) :: rest))).
Proof. reflexivity. Qed.

Lemma rand_run (w : world) :
  rand e w
  = mkRun (env_rand e (w_rand_calls w))
      {| w_dirs := w_dirs w; w_files := w_files w;
         w_rand_calls := S (w_rand_calls w) |}
      [EvRand (env_rand e (w_rand_calls w))].
Proof. reflexivity. Qed.

(** [random_hex] calls [rand] and nothing else. *)
Lemma random_hex_frame (len : nat) : forall w,
  w_dirs (r_world (random_hex e len w)) = w_dirs w
  /\ w_files (r_world (random_hex e len w)) = w_files w
  /\ w_rand_calls (r_world (random_hex e len w)) = (w_rand_calls w + len)%nat
  /\ (forall ev, In ev (r_events (random_hex e len w)) -> is_rand_ev ev = true).
Proof.
  induction len as [|len IH]; intros w.
  - repeat split; [simpl; lia | intros ev []].
  - rewrite random_hex_S. run_norm. rewrite rand_run.
    cbn [r_val r_world r_events].
    destruct (IH {| w_dirs := w_dirs w; w_files := w_files w;
                    w_rand_calls := S (w_rand_calls w) |})
      as (Hd & Hf & Hr & Hev).
    cbn [w_dirs w_files w_rand_calls] in *.
    repeat split; [exact Hd | exact Hf | lia |].
    intros ev Hin. rewrite app_nil_r in Hin.
    destruct Hin as [<-|Hin]; [reflexivity | apply Hev; exact Hin].
Qed.

Lemma hex_chars (i : nat) :
  (i < 16)%nat -> is_lower_hex (char_at hex i) = true.
Proof.
  intros Hi. do 16 (destruct i as [|i]; [reflexivity|]). lia.
Qed.

(** With [rand] in its range, the name is [len] lowercase hexadecimal
    digits. *)
Lemma random_hex_name (len : nat) : forall w,
  (forall i, 0 <= env_rand e i) ->
  length (r_val (random_hex e len w)) = len
  /\ Forall (fun c => is_lower_hex c = true) (r_val (random_hex e len w)).
Proof.
  induction len as [|len IH]; intros w Hrand.
  - split; [reflexivity | constructor].
  - rewrite random_hex_S. run_norm. rewrite rand_run.
    cbn [r_val r_world r_events].
    destruct (IH {| w_dirs := w_dirs w; w_files := w_files w;
                    w_rand_calls := S (w_rand_calls w) |} Hrand) as [Hlen Hhex].
    split; [simpl; rewrite Hlen; reflexivity|].
    constructor; [|exact Hhex].
    apply hex_chars.
    pose proof (Hrand (w_rand_calls w)) as Hr.
    pose proof (Z.rem_bound_pos (env_rand e (w_rand_calls w)) 16 Hr ltac:(lia)).
    lia.
Qed.
End RandomHex.

(** ** The stages of a pass *)

Lemma c_str_take_cons (n : nat) (c : ascii) (l : list ascii) :
  Ascii.eqb c NUL = false -> c_str (take (S n) (c :: l)) <> [].
Proof. intros Hc. simpl. rewrite Hc. discriminate. Qed.

Section Pass.
Variable e : env.
Variable home : cstring.
Variable k : nat.
Variable w : world.

Lemma pass_dirs_events ev :
  In ev (r_events (pass_dirs e home k w)) -> is_mkdir_ev ev = true.
Proof.
  unfold pass_dirs.
  destruct (mkdir_p_frame (pass_dirpath e home k) 493 w) as [Hev _].
  rewrite List.Forall_forall in Hev. apply Hev.
Qed.

Lemma pass_name_events ev :
  In ev (r_events (pass_name e home k w)) -> is_rand_ev ev = true.
Proof. unfold pass_name. apply random_hex_frame. Qed.

Lemma pass_png_events img ev :
  In ev (r_events (pass_png e home k w img)) -> is_save_png_ev ev = true.
Proof. unfold pass_png. apply save_png_events_kind. Qed.

Lemma pass_name_files :
  w_files (r_world (pass_name e home k w)) = w_files w.
Proof.
  unfold pass_name.
  destruct (random_hex_frame e RANDOM_NAME_LEN (r_world (pass_dirs e home k w)))
    as (_ & -> & _).
  unfold pass_dirs. apply mkdir_p_frame.
Qed.

Lemma pass_name_dirs :
  w_dirs (r_world (pass_name e home k w)) = w_dirs (r_world (pass_dirs e home k w)).
Proof. unfold pass_name. apply random_hex_frame. Qed.

Lemma pass_png_dirs img :
  w_dirs (r_world (pass_png e home k w img))
  = w_dirs (r_world (pass_dirs e home k w)).
Proof.
  unfold pass_png. rewrite save_png_dirs. apply pass_name_dirs.
Qed.

(** The directory path is never empty: it starts with the home
    directory or, when that is empty, with a slash. *)
Lemma pass_dirpath_nonempty : c_str (pass_dirpath e home k) <> [].
Proof.
  unfold pass_dirpath, dirpath_of, snprintf, fmt_s.
  change (512 - 1)%nat with (S 510).
  pose proof (c_str_nul_free home) as Hnul.
  destruct (c_str home) as [|c rest].
  - change (str "/Screenshots/") with (SLASH :: str "Screenshots/").
    cbn [app]. apply c_str_take_cons. reflexivity.
  - inversion Hnul as [|? ? Hc _]; subst.
    cbn [app]. apply c_str_take_cons. exact Hc.
Qed.

End Pass.


(** ** A failed capture *)

Lemma main_loop_S (e : env) (home : cstring) (interval_ms scr_w scr_h : Z)
  (n k : nat) :
  main_loop e home interval_ms scr_w scr_h (S n) k
  = bind (iteration e home interval_ms scr_w scr_h k)
      (fun _ => main_loop e home interval_ms scr_w scr_h n (S k)).
Proof. reflexivity. Qed.

(** C5. In a pass whose capture fails no file is written: [save_png] is
    not called, the failure is reported, [XGetImage] is called once (no
    retry) and the pass ends with its sleep, after which the loop goes on
    with the next pass.  In any pass, the "Saved <path>" line is printed
    exactly when an image was captured and [save_png] returned 0. *)
Theorem capture_failure_abandons_pass
  (e : env) (home : cstring) (interval_ms scr_w scr_h : Z) (k : nat) (w : world) :
  let pass := iteration e home interval_ms scr_w scr_h k w in
  (env_image e k = None ->
     w_files (r_world pass) = w_files w
     /\ Forall (fun ev => is_save_png_ev ev = false) (r_events pass)
     /\ In (EvStderr (str "Screenshot failed" ++ ["010"%char])) (r_events pass)
     /\ count_ev is_xgetimage_ev (r_events pass) = 1%nat
     /\ count_ev is_stdout_ev (r_events pass) = 0%nat
     /\ exists evs, r_events pass = evs ++ [EvUsleep (usleep_arg interval_ms)])
  /\ (forall msg,
        In (EvStdout msg) (r_events pass)
        <-> exists img,
              env_image e k = Some img
              /\ r_val (pass_png e home k w img) = 0
              /\ msg = str "Saved " ++ pass_filepath e home k w ++ ["010"%char])
  /\ (forall n,
        r_events (main_loop e home interval_ms scr_w scr_h (S n) k w)
        = r_events pass
          ++ r_events (main_loop e home interval_ms scr_w scr_h n (S k)
                         (r_world pass))).
Proof.
  cbv zeta. split; [|split].
  - intros Himg. rewrite (iteration_capture_failed _ _ _ _ _ _ _ Himg).
    cbn [r_world r_events].
    assert (Hkinds : forall ev,
               In ev ([EvTime] ++ r_events (pass_dirs e home k w)
                      ++ r_events (pass_name e home k w)) ->
               is_save_png_ev ev = false /\ is_xgetimage_ev ev = false
               /\ is_stdout_ev ev = false).
    { intros ev Hin. apply in_app_or in Hin. destruct Hin as [[<-|[]]|Hin];
        [repeat split|].
      apply in_app_or in Hin. destruct Hin as [Hin|Hin].
      - apply pass_dirs_events in Hin. destruct ev; try discriminate Hin.
        repeat split.
      - apply pass_name_events in Hin. destruct ev; try discriminate Hin.
        repeat split. }
    split; [apply pass_name_files|].
    split.
    { apply List.Forall_forall. intros ev Hin.
      rewrite !app_assoc in Hin. rewrite <- (app_assoc [EvTime]) in Hin.
      rewrite <- !app_assoc in Hin. rewrite !app_assoc in Hin.
      apply in_app_or in Hin. destruct Hin as [Hin|[<-|[]]]; [|reflexivity].
      apply in_app_or in Hin. destruct Hin as [Hin|[<-|[]]]; [|reflexivity].
      apply in_app_or in Hin. destruct Hin as [Hin|[<-|[]]]; [|reflexivity].
      rewrite <- app_assoc in Hin. apply (Hkinds ev Hin). }
    split.
    { apply in_or_app. right. apply in_or_app. right. apply in_or_app. right.
      right. left. reflexivity. }
    split.
    { rewrite (app_assoc [EvTime]), (app_assoc ([EvTime] ++ _)), count_ev_app.
      rewrite <- app_assoc.
      rewrite (count_ev_none is_xgetimage_ev) by (intros ev Hin; apply (Hkinds ev Hin)).
      reflexivity. }
    split.
    { rewrite (app_assoc [EvTime]), (app_assoc ([EvTime] ++ _)), count_ev_app.
      rewrite <- app_assoc.
      rewrite (count_ev_none is_stdout_ev) by (intros ev Hin; apply (Hkinds ev Hin)).
      reflexivity. }
    eexists. rewrite !app_assoc. reflexivity.
  - intros msg. destruct (env_image e k) as [img|] eqn:Himg.
    + rewrite (iteration_captured _ _ _ _ _ _ _ img Himg). cbn [r_events].
      split.
      * intros Hin.
        apply in_app_or in Hin. destruct Hin as [[Hin|[]]|Hin]; [discriminate Hin|].
        apply in_app_or in Hin. destruct Hin as [Hin|Hin];
          [apply pass_dirs_events in Hin; discriminate Hin|].
        apply in_app_or in Hin. destruct Hin as [Hin|Hin];
          [apply pass_name_events in Hin; discriminate Hin|].
        apply in_app_or in Hin. destruct Hin as [[Hin|[]]|Hin]; [discriminate Hin|].
        apply in_app_or in Hin. destruct Hin as [Hin|[Hin|[]]]; [|discriminate Hin].
        apply in_app_or in Hin. destruct Hin as [Hin|Hin];
          [apply pass_png_events in Hin; discriminate Hin|].
        apply in_app_or in Hin. destruct Hin as [Hin|[Hin|[]]]; [|discriminate Hin].
        destruct (r_val (pass_png e home k w img) =? 0) eqn:Hret; [|destruct Hin].
        destruct Hin as [Hin|[]]. injection Hin as <-.
        exists img. split; [reflexivity|]. split; [lia | reflexivity].
      * intros (img' & Himg' & Hret & ->). injection Himg' as <-.
        apply in_or_app. right. apply in_or_app. right. apply in_or_app. right.
        apply in_or_app. right. apply in_or_app. left.
        apply in_or_app. right. apply in_or_app. left.
        rewrite Hret. left. reflexivity.
    + rewrite (iteration_capture_failed _ _ _ _ _ _ _ Himg). cbn [r_events].
      split; [|intros (img & Himg' & _); discriminate Himg'].
      intros Hin.
      apply in_app_or in Hin. destruct Hin as [[Hin|[]]|Hin]; [discriminate Hin|].
      apply in_app_or in Hin. destruct Hin as [Hin|Hin];
        [apply pass_dirs_events in Hin; discriminate Hin|].
      apply in_app_or in Hin. destruct Hin as [Hin|Hin];
        [apply pass_name_events in Hin; discriminate Hin|].
      repeat (destruct Hin as [Hin|Hin]; [discriminate Hin|]). destruct Hin.
  - intros n. rewrite main_loop_S, bind_events. reflexivity.
Qed.

Lemma capture_failure_abandons_pass_witness :
  let e := sample_env [str "screenshot_daemon"] in
  let pass := iteration e (str "/home/u") 1000 2 2 1 empty_world in
  env_image e 1 = None
  /\ w_files (r_world pass) = w_files empty_world
  /\ count_ev is_xgetimage_ev (r_events pass) = 1%nat.
Proof.
  cbv zeta.
  pose proof (proj1 (capture_failure_abandons_pass
                       (sample_env [str "screenshot_daemon"]) (str "/home/u")
                       1000 2 2 1 empty_world) eq_refl) as H.
  split; [reflexivity|].
  split; [exact (proj1 H) | exact (proj1 (proj2 (proj2 (proj2 H))))].
Defined.

(** ** Directories first *)


(** ** The sleep ends the pass *)

(** Whatever happens in a pass, its events are its work followed by one
    [usleep] of the configured argument. *)
Lemma iteration_work_then_sleep
  (e : env) (home : cstring) (interval_ms scr_w scr_h : Z) (k : nat) (w : world) :
  exists work,
    r_events (iteration e home interval_ms scr_w scr_h k w)
    = work ++ [EvUsleep (usleep_arg interval_ms)]
    /\ Forall (fun ev => is_work_ev ev = true) work.
Proof.
  assert (Hdirs : forall ev, In ev (r_events (pass_dirs e home k w)) ->
                             is_work_ev ev = true).
  { intros ev Hin. apply pass_dirs_events in Hin.
    destruct ev; try discriminate Hin. reflexivity. }
  assert (Hname : forall ev, In ev (r_events (pass_name e home k w)) ->
                             is_work_ev ev = true).
  { intros ev Hin. apply pass_name_events in Hin.
    destruct ev; try discriminate Hin. reflexivity. }
  destruct (env_image e k) as [img|] eqn:Himg.
  - rewrite (iteration_captured _ _ _ _ _ _ _ img Himg). cbn [r_events].
    rewrite !app_assoc. eexists. split; [reflexivity|].
    rewrite <- !app_assoc.
    apply List.Forall_forall. intros ev Hin.
    apply in_app_or in Hin. destruct Hin as [[<-|[]]|Hin]; [reflexivity|].
    apply in_app_or in Hin. destruct Hin as [Hin|Hin]; [apply (Hdirs ev Hin)|].
    apply in_app_or in Hin. destruct Hin as [Hin|Hin]; [apply (Hname ev Hin)|].
    apply in_app_or in Hin. destruct Hin as [[<-|[]]|Hin]; [reflexivity|].
    apply in_app_or in Hin. destruct Hin as [Hin|Hin].
    + apply pass_png_events in Hin. destruct ev; try discriminate Hin; reflexivity.
    + apply in_app_or in Hin. destruct Hin as [Hin|[<-|[]]]; [|reflexivity].
      destruct (r_val (pass_png e home k w img) =? 0); [|destruct Hin].
      destruct Hin as [<-|[]]. reflexivity.
  - rewrite (iteration_capture_failed _ _ _ _ _ _ _ Himg). cbn [r_events].
    rewrite !app_assoc. eexists. split; [reflexivity|].
    rewrite <- !app_assoc.
    apply List.Forall_forall. intros ev Hin.
    apply in_app_or in Hin. destruct Hin as [[<-|[]]|Hin]; [reflexivity|].
    apply in_app_or in Hin. destruct Hin as [Hin|Hin]; [apply (Hdirs ev Hin)|].
    apply in_app_or in Hin. destruct Hin as [Hin|Hin]; [apply (Hname ev Hin)|].
    repeat (destruct Hin as [<-|Hin]; [reflexivity|]). destruct Hin.
Qed.

Lemma work_no_sleep (work : list event) (f : event -> bool) :
  (forall ev, is_work_ev ev = true -> f ev = false) ->
  Forall (fun ev => is_work_ev ev = true) work ->
  count_ev f work = 0%nat.
Proof.
  intros Hf Hwork. apply count_ev_none. intros ev Hin.
  rewrite List.Forall_forall in Hwork. apply Hf, Hwork, Hin.
Qed.

Lemma work_not_usleep (ev : event) : is_work_ev ev = true -> is_usleep_ev ev = false.
Proof. destruct ev; simpl; congruence. Qed.

Lemma work_not_xclose (ev : event) : is_work_ev ev = true -> is_xclose_ev ev = false.
Proof. destruct ev; simpl; congruence. Qed.

(** [n] passes of the loop sleep [n] times and never reach the code after
    the loop. *)
Lemma main_loop_passes
  (e : env) (home : cstring) (interval_ms scr_w scr_h : Z) (n : nat) :
  forall k w,
    count_ev is_usleep_ev
      (r_events (main_loop e home interval_ms scr_w scr_h n k w)) = n
    /\ count_ev is_xclose_ev
         (r_events (main_loop e home interval_ms scr_w scr_h n k w)) = 0%nat.
Proof.
  induction n as [|n IH]; intros k w; [split; reflexivity|].
  rewrite main_loop_S, bind_events, !count_ev_app.
  destruct (IH (S k) (r_world (iteration e home interval_ms scr_w scr_h k w)))
    as [-> ->].
  destruct (iteration_work_then_sleep e home interval_ms scr_w scr_h k w)
    as (work & -> & Hwork).
  rewrite !count_ev_app.
  rewrite (work_no_sleep work is_usleep_ev work_not_usleep Hwork).
  rewrite (work_no_sleep work is_xclose_ev work_not_xclose Hwork).
  split; reflexivity.
Qed.

(** ** The process exits only when the display cannot be opened *)

Lemma main_headless (e : env) (n : nat) (w : world) :
  env_display e = false ->
  main e n w
  = mkRun (Exited 1) w
      [EvXOpenDisplay false; EvStderr (str "Cannot open X display" ++ ["010"%char])].
Proof.
  intros Hd. unfold main. rewrite Hd. cbn [negb].
  apply Run_ext; run_norm; reflexivity.
Qed.

Lemma main_display (e : env) (n : nat) (w : world) :
  env_display e = true ->
  let loop := main_loop e (base_dir e) (parse_interval (env_argv e))
                (env_width e) (env_height e) n 0 w in
  main e n w
  = mkRun Running (r_world loop)
      ([EvXOpenDisplay true; EvXGetWindowAttributes; EvTime; EvSrand]
       ++ r_events loop).
Proof.
  intros Hd. cbv zeta. unfold main. rewrite Hd. cbn [negb].
  apply Run_ext; run_norm; [reflexivity | reflexivity |].
  rewrite app_nil_r. reflexivity.
Qed.

(** C7. The process exits with status 1 exactly when the display cannot
    be opened.  When it can, the process is still running after any
    number [n] of passes, having slept [n] times; it never exits with
    another status, and [XCloseDisplay] after the loop is never reached. *)
Theorem exit_only_without_display (e : env) (n : nat) (w : world) :
  (r_val (main e n w) = Exited 1 <-> env_display e = false)
  /\ (env_display e = true ->
      r_val (main e n w) = Running
      /\ count_ev is_usleep_ev (r_events (main e n w)) = n)
  /\ (forall status, r_val (main e n w) = Exited status -> status = 1)
  /\ count_ev is_xclose_ev (r_events (main e n w)) = 0%nat.
Proof.
  destruct (env_display e) eqn:Hd.
  - rewrite (main_display e n w Hd). cbn [r_val r_events].
    destruct (main_loop_passes e (base_dir e) (parse_interval (env_argv e))
                (env_width e) (env_height e) n 0 w) as [Hsleeps Hclose].
    split; [split; discriminate|].
    split; [intros _; split; [reflexivity|]|split; [discriminate|]].
    + rewrite count_ev_app, Hsleeps. reflexivity.
    + rewrite count_ev_app, Hclose. reflexivity.
  - rewrite (main_headless e n w Hd). cbn [r_val r_events].
    split; [split; reflexivity|].
    split; [discriminate|].
    split; [|reflexivity].
    intros status Hst. injection Hst as <-. reflexivity.
Qed.

Lemma exit_only_without_display_witness :
  env_display (sample_env [str "screenshot_daemon"; str "250"]) = true
  /\ r_val (main (sample_env [str "screenshot_daemon"; str "250"]) 3 empty_world)
     = Running
  /\ count_ev is_usleep_ev
       (r_events (main (sample_env [str "screenshot_daemon"; str "250"]) 3
                    empty_world)) = 3%nat.
Proof.
  split; [reflexivity|].
  exact (proj1 (proj2 (exit_only_without_display
                         (sample_env [str "screenshot_daemon"; str "250"]) 3
                         empty_world)) eq_refl).
Defined.

(** ** What the loop sees of the directories *)

Lemma non_mkdir_app (a b : list event) :
  non_mkdir (a ++ b) = non_mkdir a ++ non_mkdir b.
Proof. unfold non_mkdir. apply List.filter_app. Qed.

Lemma non_mkdir_all (evs : list event) :
  (forall ev, In ev evs -> is_mkdir_ev ev = true) -> non_mkdir evs = [].
Proof.
  unfold non_mkdir. induction evs as [|ev evs IH]; intros Hev; simpl; [reflexivity|].
  rewrite (Hev ev) by (left; reflexivity). simpl.
  apply IH. intros ev' Hin. apply Hev. right. exact Hin.
Qed.

(** [random_hex] depends on the world through the generator only. *)
Lemma random_hex_indep (e : env) (len : nat) : forall w1 w2,
  w_rand_calls w1 = w_rand_calls w2 ->
  r_val (random_hex e len w1) = r_val (random_hex e len w2)
  /\ r_events (random_hex e len w1) = r_events (random_hex e len w2).
Proof.
  induction len as [|len IH]; intros w1 w2 Hr; [split; reflexivity|].
  rewrite random_hex_S. run_norm. rewrite !rand_run.
  cbn [r_val r_world r_events]. rewrite Hr.
  destruct (IH {| w_dirs := w_dirs w1; w_files := w_files w1;
                  w_rand_calls := S (w_rand_calls w2) |}
               {| w_dirs := w_dirs w2; w_files := w_files w2;
                  w_rand_calls := S (w_rand_calls w2) |} eq_refl) as [-> ->].
  split; reflexivity.
Qed.

(** The row loop does not look at the world. *)
Lemma write_rows_indep (o : png_oracle) (img : XImage) (n : nat) :
  forall y row w1 w2,
    r_val (write_rows o img n y row w1) = r_val (write_rows o img n y row w2)
    /\ r_events (write_rows o img n y row w1)
       = r_events (write_rows o img n y row w2).
Proof.
  induction n as [|n IH]; intros y row w1 w2; [split; reflexivity|].
  rewrite write_rows_S. unfold bindJ.
  rewrite !bind_val, !bind_events, !png_call_world, !png_call_val, !png_call_events.
  destruct (write_row_ok o y); [|split; reflexivity].
  destruct (IH (y + 1) (fill_row img y row) w1 w2) as [-> ->].
  split; reflexivity.
Qed.

(** Neither does [save_png], for its result and its events. *)
Lemma save_png_indep (o : png_oracle) (img : XImage) (filepath : cstring)
  (w1 w2 : world) :
  r_val (save_png o img filepath w1) = r_val (save_png o img filepath w2)
  /\ r_events (save_png o img filepath w1) = r_events (save_png o img filepath w2).
Proof.
  split; [rewrite !save_png_status; reflexivity|].
  png_stages o img; try reflexivity.
  cbn -[write_rows Z.mul Z.modulo int_wrap row_size rows_ok].
  match goal with
  | |- context [write_rows ?o ?i ?n ?y ?r ?wa] =>
      match goal with
      | |- context [write_rows o i n y r ?wb] =>
          lazymatch wa with
          | wb => fail
          | _ => destruct (write_rows_indep o i n y r wa wb) as [Hv He];
                 rewrite !Hv, !He;
                 destruct (r_val (write_rows o i n y r wb))
          end
      end
  end.
  - destruct (write_end_ok o); reflexivity.
  - reflexivity.
Qed.

Section IgnoresDirs.
Variable e : env.
Variable home : cstring.
Variable k : nat.
Variables w1 w2 : world.
Hypothesis Hfiles : w_files w1 = w_files w2.
Hypothesis Hrand : w_rand_calls w1 = w_rand_calls w2.

Lemma pass_name_rand w :
  w_rand_calls (r_world (pass_name e home k w))
  = (w_rand_calls w + RANDOM_NAME_LEN)%nat.
Proof.
  unfold pass_name.
  destruct (random_hex_frame e RANDOM_NAME_LEN (r_world (pass_dirs e home k w)))
    as (_ & _ & -> & _).
  unfold pass_dirs.
  destruct (mkdir_p_frame (pass_dirpath e home k) 493 w) as (_ & _ & ->).
  reflexivity.
Qed.

Lemma pass_name_indep :
  r_val (pass_name e home k w1) = r_val (pass_name e home k w2)
  /\ r_events (pass_name e home k w1) = r_events (pass_name e home k w2).
Proof.
  unfold pass_name. apply random_hex_indep. unfold pass_dirs.
  destruct (mkdir_p_frame (pass_dirpath e home k) 493 w1) as (_ & _ & ->).
  destruct (mkdir_p_frame (pass_dirpath e home k) 493 w2) as (_ & _ & ->).
  exact Hrand.
Qed.

Lemma pass_filepath_indep :
  pass_filepath e home k w1 = pass_filepath e home k w2.
Proof.
  unfold pass_filepath. rewrite (proj1 pass_name_indep). reflexivity.
Qed.

Lemma pass_png_indep img :
  r_val (pass_png e home k w1 img) = r_val (pass_png e home k w2 img)
  /\ r_events (pass_png e home k w1 img) = r_events (pass_png e home k w2 img)
  /\ w_files (r_world (pass_png e home k w1 img))
     = w_files (r_world (pass_png e home k w2 img))
  /\ w_rand_calls (r_world (pass_png e home k w1 img))
     = w_rand_calls (r_world (pass_png e home k w2 img)).
Proof.
  unfold pass_png. rewrite pass_filepath_indep.
  destruct (save_png_indep (env_png e k) img (pass_filepath e home k w2)
              (r_world (pass_name e home k w1))
              (r_world (pass_name e home k w2))) as [-> ->].
  rewrite !save_png_files, !save_png_rand.
  rewrite !pass_name_files, !pass_name_rand, Hfiles, Hrand.
  repeat split; reflexivity.
Qed.

(** Two passes that start with the same files and generator state, on
    disks with different directories, differ in their [mkdir] events
    only. *)
Lemma iteration_ignores_dirs (interval_ms scr_w scr_h : Z) :
  let p1 := iteration e home interval_ms scr_w scr_h k w1 in
  let p2 := iteration e home interval_ms scr_w scr_h k w2 in
  non_mkdir (r_events p1) = non_mkdir (r_events p2)
  /\ w_files (r_world p1) = w_files (r_world p2)
  /\ w_rand_calls (r_world p1) = w_rand_calls (r_world p2).
Proof.
  cbv zeta.
  destruct (env_image e k) as [img|] eqn:Himg.
  - rewrite !(iteration_captured _ _ _ _ _ _ _ img Himg). cbn [r_world r_events].
    destruct (pass_png_indep img) as (Hv & Hev & Hf & Hr).
    split; [|split; assumption].
    rewrite !non_mkdir_app.
    rewrite !(non_mkdir_all (r_events (pass_dirs _ _ _ _)))
      by (intros ev; apply pass_dirs_events).
    rewrite (proj2 pass_name_indep), Hev, Hv, pass_filepath_indep.
    reflexivity.
  - rewrite !(iteration_capture_failed _ _ _ _ _ _ _ Himg). cbn [r_world r_events].
    split; [|split].
    + rewrite !non_mkdir_app.
      rewrite !(non_mkdir_all (r_events (pass_dirs _ _ _ _)))
        by (intros ev; apply pass_dirs_events).
      rewrite (proj2 pass_name_indep). reflexivity.
    + rewrite !pass_name_files. exact Hfiles.
    + rewrite !pass_name_rand, Hrand. reflexivity.
Qed.
End IgnoresDirs.

(** Calls of [mkdir] on paths that all exist fail and change nothing. *)
Lemma mkdir_all_existing (ps : list cstring) (mode : Z) (dirs : list cstring) :
  (forall p, In p ps -> In p dirs) ->
  fold_left mkdir_dirs ps dirs = dirs
  /\ mkdir_events ps mode dirs = map (fun p => EvMkdir p mode (-1)) ps.
Proof.
  induction ps as [|p ps IH]; intros Hall; [split; reflexivity|].
  assert (Hret : mkdir_ret dirs p = -1)
    by (apply mkdir_ret_exists, Hall; left; reflexivity).
  assert (Hsame : mkdir_dirs dirs p = dirs)
    by (unfold mkdir_dirs; rewrite Hret; reflexivity).
  simpl. rewrite Hsame, Hret.
  destruct IH as [-> ->]; [intros q Hq; apply Hall; right; exact Hq|].
  split; reflexivity.
Qed.

(** The directories on disk after a pass are those its [mkdir_p] left. *)
Lemma iteration_dirs
  (e : env) (home : cstring) (interval_ms scr_w scr_h : Z) (k : nat) (w : world) :
  w_dirs (r_world (iteration e home interval_ms scr_w scr_h k w))
  = w_dirs (r_world (pass_dirs e home k w)).
Proof.
  destruct (env_image e k) as [img|] eqn:Himg.
  - rewrite (iteration_captured _ _ _ _ _ _ _ img Himg). cbn [r_world].
    apply pass_png_dirs.
  - rewrite (iteration_capture_failed _ _ _ _ _ _ _ Himg). cbn [r_world].
    apply pass_name_dirs.
Qed.

(** When every path exists, [mkdir_p] changes nothing and returns -1. *)
Lemma mkdir_p_existing (path : cstring) (mode : Z) (w : world) :
  c_str path <> [] ->
  (forall p, In p (mkdir_p_paths path) -> In p (w_dirs w)) ->
  r_world (mkdir_p path mode w) = w
  /\ r_val (mkdir_p path mode w) = -1
  /\ r_events (mkdir_p path mode w)
     = map (fun p => EvMkdir p mode (-1)) (mkdir_p_paths path).
Proof.
  intros Hpath Hall.
  destruct (mkdir_p_paths_run path mode w Hpath) as [Hev Hw].
  destruct (mkdir_all_existing (mkdir_p_paths path) mode (w_dirs w) Hall)
    as [Hdirs Hevs].
  rewrite Hw, Hev, Hdirs, Hevs, with_dirs_same.
  split; [reflexivity|]. split; [|reflexivity].
  rewrite (mkdir_p_run path mode w Hpath). cbn [r_val].
  apply mkdir_ret_exists, mkdir_all_mono, Hall.
  unfold mkdir_p_paths. apply in_or_app. right. left. reflexivity.
Qed.

(** ** Creating the directories again *)

(** C9. Running [mkdir_p] a second time on the same path leaves the disk
    as the first run left it.  When every segment already exists, each
    [mkdir] fails, nothing changes and [mkdir_p] returns -1; the loop does
    not look at that value: a pass started on the disk the allocator has
    already filled shows the same events, [mkdir] calls apart, writes the
    same files and leaves the same directories as the pass before it. *)
Theorem directory_creation_idempotent (path : cstring) (mode : Z) (w : world) :
  let first := mkdir_p path mode w in
  let second := mkdir_p path mode (r_world first) in
  r_world second = r_world first
  /\ (forall w',
        c_str path <> [] ->
        (forall p, In p (mkdir_p_paths path) -> In p (w_dirs w')) ->
        r_world (mkdir_p path mode w') = w'
        /\ r_val (mkdir_p path mode w') = -1
        /\ r_events (mkdir_p path mode w')
           = map (fun p => EvMkdir p mode (-1)) (mkdir_p_paths path))
  /\ (forall e home interval_ms scr_w scr_h k,
        let p1 := iteration e home interval_ms scr_w scr_h k w in
        let p2 := iteration e home interval_ms scr_w scr_h k
                    (r_world (pass_dirs e home k w)) in
        non_mkdir (r_events p2) = non_mkdir (r_events p1)
        /\ w_files (r_world p2) = w_files (r_world p1)
        /\ w_dirs (r_world p2) = w_dirs (r_world p1)).
Proof.
  cbv zeta. split; [apply mkdir_p_twice|].
  split; [intros w' Hpath Hall; apply mkdir_p_existing; assumption|].
  intros e home interval_ms scr_w scr_h k.
  assert (Hf : w_files (r_world (pass_dirs e home k w)) = w_files w)
    by (unfold pass_dirs; apply mkdir_p_frame).
  assert (Hr : w_rand_calls (r_world (pass_dirs e home k w)) = w_rand_calls w)
    by (unfold pass_dirs; apply mkdir_p_frame).
  destruct (iteration_ignores_dirs e home k _ _ Hf Hr interval_ms scr_w scr_h)
    as (Hev & Hfiles & _).
  split; [exact Hev|]. split; [exact Hfiles|].
  rewrite !iteration_dirs. unfold pass_dirs. apply (f_equal w_dirs).
  apply mkdir_p_twice.
Qed.

Lemma directory_creation_idempotent_witness :
  let path := str "shots/2026" in
  let w' := with_dirs [str "shots"; str "shots/2026"] empty_world in
  (c_str path <> []
   /\ (forall p, In p (mkdir_p_paths path) -> In p (w_dirs w')))
  /\ r_world (mkdir_p path 493 w') = w'
  /\ r_val (mkdir_p path 493 w') = -1.
Proof.
  cbv zeta.
  assert (Hpath : c_str (str "shots/2026") <> []) by (vm_compute; discriminate).
  assert (Hall : forall p, In p (mkdir_p_paths (str "shots/2026")) ->
                           In p (w_dirs (with_dirs [str "shots"; str "shots/2026"]
                                           empty_world))).
  { intros p Hp. vm_compute in Hp. vm_compute. exact Hp. }
  split; [split; [exact Hpath | exact Hall]|].
  destruct (proj1 (proj2 (directory_creation_idempotent (str "shots/2026") 493
                            empty_world))
              (with_dirs [str "shots"; str "shots/2026"] empty_world) Hpath Hall)
    as (Hw & Hv & _).
  split; [exact Hw | exact Hv].
Defined.

(** ** The value of [mkdir_p] *)

(** ** Any file system *)

Lemma mkdir_on_run (answer : world -> cstring -> Z) (p : cstring) (mode : Z)
  (w : world) :
  mkdir_on answer p mode w
  = mkRun (answer w p) (mkdir_world answer w p) [EvMkdir p mode (answer w p)].
Proof. reflexivity. Qed.

Lemma mkdir_on_model (p : cstring) (mode : Z) (w : world) :
  mkdir_on model_answer p mode w = mkdir p mode w.
Proof. reflexivity. Qed.

Section AnyFileSystem.
Variable answer : world -> cstring -> Z.
Variable mode : Z.

Lemma mkdir_p_loop_on_run (t s : list ascii) :
  nul_free t -> s = [] \/ s = [NUL] ->
  forall fuel i w,
    (length t < i + fuel)%nat ->
    let ps := slash_prefixes t (length t - i) i in
    mkdir_p_loop_on answer fuel i (t ++ s) mode w
    = mkRun (t ++ s)
        (fold_left (mkdir_world answer) ps w)
        (mkdir_events_on answer ps mode w).
Proof.
  intros Ht Hs fuel. induction fuel as [|fuel IH]; intros i w Hfuel ps.
  - assert (Hi : (length t - i = 0)%nat) by lia.
    subst ps. rewrite Hi. reflexivity.
  - simpl mkdir_p_loop_on.
    destruct (Nat.lt_ge_cases i (length t)) as [Hlt|Hge].
    + rewrite (char_at_app_l t s i Hlt), (char_at_nul_free t i Ht Hlt).
      subst ps. replace (length t - i)%nat with (S (length t - S i)) by lia.
      simpl slash_prefixes.
      destruct (Ascii.eqb (char_at t i) SLASH) eqn:Hslash.
      * rewrite (c_str_cut t s i Ht Hlt).
        assert (Hrestore : <[i := SLASH]> (<[i := NUL]> (t ++ s)) = t ++ s).
        { rewrite list_insert_insert_eq. apply list_insert_id.
          apply Ascii.eqb_eq in Hslash. rewrite <- Hslash.
          unfold char_at. rewrite lookup_app_l by exact Hlt.
          destruct (t !! i) as [c|] eqn:Hc; [reflexivity|].
          apply lookup_ge_None in Hc. lia. }
        rewrite Hrestore. unfold bind. rewrite mkdir_on_run.
        cbn [r_val r_world r_events].
        rewrite IH by lia. reflexivity.
      * rewrite IH by lia. reflexivity.
    + rewrite (char_at_end t s i Hs Hge). simpl.
      subst ps. replace (length t - i)%nat with 0%nat by lia.
      reflexivity.
Qed.

Lemma mkdir_p_on_empty (path : cstring) (w : world) :
  c_str path = [] -> mkdir_p_on answer path mode w = mkRun (-1) w [].
Proof.
  intros Hpath. unfold mkdir_p_on, fmt_s. rewrite Hpath. reflexivity.
Qed.

(** A non-empty path: [mkdir_p] asks the file system for each prefix in
    turn and then for the whole path, and returns the last answer. *)
Lemma mkdir_p_on_run (path : cstring) (w : world) :
  c_str path <> [] ->
  let t := mkdir_p_target path in
  let ps := slash_prefixes t (length t - 1) 1 in
  let w' := fold_left (mkdir_world answer) ps w in
  mkdir_p_on answer path mode w
  = mkRun (answer w' t)
      (mkdir_world answer w' t)
      (mkdir_events_on answer ps mode w ++ [EvMkdir t mode (answer w' t)]).
Proof.
  intros Hpath. cbv zeta.
  pose proof (mkdir_p_target_nul_free path) as Ht.
  unfold mkdir_p_on, mkdir_p_target in *.
  set (tmp := snprintf 512 (fmt_s path)) in *.
  assert (Hne : tmp <> []).
  { subst tmp. unfold snprintf, fmt_s. destruct (c_str path); [congruence|].
    simpl. discriminate. }
  assert (Hlen : (0 < length tmp)%nat) by (destruct tmp; [congruence | simpl; lia]).
  replace (length tmp =? 0)%nat with false by (symmetry; apply Nat.eqb_neq; lia).
  destruct (Ascii.eqb (char_at tmp (length tmp - 1)) SLASH).
  - rewrite (insert_last tmp NUL Hne).
    set (t := take (length tmp - 1) tmp) in *.
    assert (Hlt : length t = (length tmp - 1)%nat).
    { subst t. rewrite length_take. lia. }
    unfold bind.
    rewrite (mkdir_p_loop_on_run t [NUL] Ht (or_intror eq_refl))
      by (pose proof (length_app t [NUL]); simpl in *; lia).
    cbn [r_val r_world r_events].
    rewrite (c_str_terminated t [NUL] Ht (or_intror eq_refl)).
    rewrite mkdir_on_run. reflexivity.
  - unfold bind.
    pose proof (mkdir_p_loop_on_run tmp [] Ht (or_introl eq_refl)
                  (length tmp) 1 w) as Hloop.
    pose proof (c_str_terminated tmp [] Ht (or_introl eq_refl)) as Hread.
    rewrite app_nil_r in Hloop, Hread.
    rewrite Hloop by lia.
    cbn [r_val r_world r_events].
    rewrite Hread, mkdir_on_run. reflexivity.
Qed.

Lemma mkdir_events_on_kind (ps : list cstring) : forall w ev,
  In ev (mkdir_events_on answer ps mode w) -> is_mkdir_ev ev = true.
Proof.
  induction ps as [|p ps IH]; intros w ev Hin; [destruct Hin|].
  destruct Hin as [<-|Hin]; [reflexivity | apply (IH _ _ Hin)].
Qed.

Lemma mkdir_p_on_events_kind (path : cstring) (w : world) (ev : event) :
  In ev (r_events (mkdir_p_on answer path mode w)) -> is_mkdir_ev ev = true.
Proof.
  destruct (c_str path) as [|c rest] eqn:Hpath.
  - rewrite (mkdir_p_on_empty path w Hpath). intros [].
  - assert (Hne : c_str path <> []) by (rewrite Hpath; discriminate).
    rewrite (mkdir_p_on_run path w Hne). cbn [r_events]. intros Hin.
    apply in_app_or in Hin. destruct Hin as [Hin|[<-|[]]]; [|reflexivity].
    apply (mkdir_events_on_kind _ _ _ Hin).
Qed.

(** A call that fails leaves the disk as it was; no call removes a
    directory or touches a file. *)
Lemma mkdir_world_failed (w : world) (p : cstring) :
  answer w p <> 0 -> mkdir_world answer w p = w.
Proof.
  intros Hr. unfold mkdir_world.
  destruct (answer w p =? 0) eqn:Hz; [apply Z.eqb_eq in Hz; contradiction|].
  destruct w; reflexivity.
Qed.

Lemma mkdir_worlds_failed (ps : list cstring) : forall w,
  (forall p w', In p ps -> answer w' p <> 0) ->
  fold_left (mkdir_world answer) ps w = w
  /\ mkdir_events_on answer ps mode w = map (fun p => EvMkdir p mode (answer w p)) ps.
Proof.
  induction ps as [|p ps IH]; intros w Hfail; [split; reflexivity|].
  cbn [fold_left mkdir_events_on map].
  rewrite (mkdir_world_failed w p) by (apply Hfail; left; reflexivity).
  destruct (IH w) as [Hw Hev]; [intros q w' Hq; apply Hfail; right; exact Hq|].
  rewrite Hw, Hev. split; reflexivity.
Qed.

Lemma mkdir_worlds_mono (ps : list cstring) : forall w q,
  In q (w_dirs w) -> In q (w_dirs (fold_left (mkdir_world answer) ps w)).
Proof.
  induction ps as [|p ps IH]; intros w q Hq; [exact Hq|].
  cbn [fold_left]. apply IH. unfold mkdir_world. cbn [w_dirs].
  destruct (answer w p =? 0); [apply in_or_app; left|]; exact Hq.
Qed.

Lemma mkdir_worlds_frame (ps : list cstring) : forall w,
  w_files (fold_left (mkdir_world answer) ps w) = w_files w
  /\ w_rand_calls (fold_left (mkdir_world answer) ps w) = w_rand_calls w.
Proof.
  induction ps as [|p ps IH]; intros w; [split; reflexivity|].
  cbn [fold_left]. destruct (IH (mkdir_world answer w p)) as [Hf Hr].
  rewrite Hf, Hr. split; reflexivity.
Qed.
End AnyFileSystem.

(** On the file system of the model the two readings of [mkdir_p] are
    one. *)
Lemma mkdir_p_loop_on_model (mode : Z) (fuel : nat) : forall i tmp w,
  mkdir_p_loop_on model_answer fuel i tmp mode w = mkdir_p_loop fuel i tmp mode w.
Proof.
  induction fuel as [|fuel IH]; intros i tmp w; [reflexivity|].
  cbn [mkdir_p_loop_on mkdir_p_loop].
  destruct (Ascii.eqb (char_at tmp i) NUL); [reflexivity|].
  destruct (Ascii.eqb (char_at tmp i) SLASH); [|apply IH].
  unfold bind. rewrite mkdir_on_model, IH. reflexivity.
Qed.

Lemma mkdir_p_on_model (path : cstring) (mode : Z) (w : world) :
  mkdir_p_on model_answer path mode w = mkdir_p path mode w.
Proof.
  unfold mkdir_p_on, mkdir_p.
  destruct (length (snprintf 512 (fmt_s path)) =? 0)%nat; [reflexivity|].
  unfold bind. rewrite mkdir_p_loop_on_model, mkdir_on_model. reflexivity.
Qed.

(** ** The loop body on any file system *)

Lemma save_png_fopen_refused (o : png_oracle) (img : XImage) (filepath : cstring)
  (w : world) :
  fopen_ok o = false ->
  save_png o img filepath w
  = mkRun (-1) w [EvFopen filepath false; EvPerror (str "fopen")].
Proof.
  intros Hopen. unfold save_png, fopen. rewrite Hopen. destruct w; reflexivity.
Qed.

Section IterationOn.
Variable answer : world -> cstring -> Z.
Variable png : nat -> world -> cstring -> png_oracle.
Variable e : env.
Variable home : cstring.
Variable interval_ms : Z.
Variables scr_w scr_h : Z.
Variable k : nat.
Variable w : world.

(** A pass whose capture fails. *)
Lemma iteration_on_capture_failed :
  env_image e k = None ->
  iteration_on answer png e home interval_ms scr_w scr_h k w
  = mkRun tt (r_world (pass_name_on answer e home k w))
      ([EvTime] ++ r_events (pass_dirs_on answer e home k w)
       ++ r_events (pass_name_on answer e home k w)
       ++ [EvXGetImage scr_w scr_h false]
       ++ [EvStderr (str "Screenshot failed" ++ ["010"%char])]
       ++ [EvUsleep (usleep_arg interval_ms)]).
Proof.
  intros Himg. unfold iteration_on. rewrite Himg.
  apply Run_ext; run_norm; cbn [r_val r_world r_events];
    unfold pass_name_on, pass_dirs_on, pass_dirpath; reflexivity.
Qed.

(** A pass whose capture succeeds. *)
Lemma iteration_on_captured (img : XImage) :
  env_image e k = Some img ->
  iteration_on answer png e home interval_ms scr_w scr_h k w
  = mkRun tt (r_world (pass_png_on answer png e home k w img))
      ([EvTime] ++ r_events (pass_dirs_on answer e home k w)
       ++ r_events (pass_name_on answer e home k w)
       ++ [EvXGetImage scr_w scr_h true]
       ++ (r_events (pass_png_on answer png e home k w img)
           ++ (if r_val (pass_png_on answer png e home k w img) =? 0
               then [EvStdout (str "Saved " ++ pass_filepath_on answer e home k w
                                 ++ ["010"%char])]
               else [])
           ++ [EvXDestroyImage])
       ++ [EvUsleep (usleep_arg interval_ms)]).
Proof.
  intros Himg. unfold iteration_on. rewrite Himg.
  apply Run_ext; run_norm; cbv beta; cbn [r_val r_world r_events];
    unfold pass_png_on, pass_filepath_on, pass_name_on, pass_dirs_on, pass_dirpath.
  - reflexivity.
  - destruct (r_val (save_png _ _ _ _) =? 0); run_norm; reflexivity.
  - destruct (r_val (save_png _ _ _ _) =? 0); run_norm; reflexivity.
Qed.

(** A pass whose capture succeeds and whose [fopen] is refused. *)
Lemma iteration_on_refused (img : XImage) :
  env_image e k = Some img ->
  fopen_ok (png k (r_world (pass_name_on answer e home k w))
              (pass_filepath_on answer e home k w)) = false ->
  iteration_on answer png e home interval_ms scr_w scr_h k w
  = mkRun tt (r_world (pass_name_on answer e home k w))
      ([EvTime] ++ r_events (pass_dirs_on answer e home k w)
       ++ r_events (pass_name_on answer e home k w)
       ++ [EvXGetImage scr_w scr_h true;
           EvFopen (pass_filepath_on answer e home k w) false;
           EvPerror (str "fopen"); EvXDestroyImage;
           EvUsleep (usleep_arg interval_ms)]).
Proof.
  intros Himg Hopen.
  pose proof (save_png_fopen_refused _ img (pass_filepath_on answer e home k w)
                (r_world (pass_name_on answer e home k w)) Hopen) as Hpng.
  fold (pass_png_on answer png e home k w img) in Hpng.
  rewrite (iteration_on_captured img Himg). rewrite Hpng.
  apply Run_ext; reflexivity.
Qed.

Lemma pass_dirs_on_events (ev : event) :
  In ev (r_events (pass_dirs_on answer e home k w)) -> is_mkdir_ev ev = true.
Proof. unfold pass_dirs_on. apply mkdir_p_on_events_kind. Qed.
End IterationOn.

(** On the file system of the model, with the answers of [env_png], the
    pass is [iteration]. *)
Lemma iteration_on_model (e : env) (home : cstring) (interval_ms scr_w scr_h : Z)
  (k : nat) (w : world) :
  iteration_on model_answer (png_of_env e) e home interval_ms scr_w scr_h k w
  = iteration e home interval_ms scr_w scr_h k w.
Proof.
  destruct (env_image e k) as [img|] eqn:Himg.
  - rewrite (iteration_captured e home interval_ms scr_w scr_h k w img Himg).
    rewrite (iteration_on_captured model_answer (png_of_env e) e home interval_ms scr_w scr_h k w img Himg).
    unfold pass_png_on, pass_filepath_on, pass_name_on, pass_dirs_on, png_of_env.
    unfold pass_png, pass_filepath, pass_name, pass_dirs.
    rewrite mkdir_p_on_model. reflexivity.
  - rewrite (iteration_capture_failed e home interval_ms scr_w scr_h k w Himg).
    rewrite (iteration_on_capture_failed model_answer (png_of_env e) e home interval_ms scr_w scr_h k w Himg).
    unfold pass_name_on, pass_dirs_on, pass_name, pass_dirs.
    rewrite mkdir_p_on_model. reflexivity.
Qed.

Lemma mkdir_p_on_frame (answer : world -> cstring -> Z) (path : cstring)
  (mode : Z) (w : world) :
  w_files (r_world (mkdir_p_on answer path mode w)) = w_files w
  /\ w_rand_calls (r_world (mkdir_p_on answer path mode w)) = w_rand_calls w
  /\ forall q, In q (w_dirs w) -> In q (w_dirs (r_world (mkdir_p_on answer path mode w))).
Proof.
  destruct (c_str path) as [|c rest] eqn:Hpath.
  - rewrite (mkdir_p_on_empty answer mode path w Hpath). cbn [r_world]. auto.
  - assert (Hne : c_str path <> []) by (rewrite Hpath; discriminate).
    rewrite (mkdir_p_on_run answer mode path w Hne). cbn [r_world].
    set (ps := slash_prefixes _ _ _).
    destruct (mkdir_worlds_frame answer ps w) as [Hf Hr].
    unfold mkdir_world at 1 2. cbn [w_files w_rand_calls].
    split; [exact Hf|]. split; [exact Hr|].
    intros q Hq. apply (mkdir_worlds_mono answer ps w) in Hq.
    unfold mkdir_world. cbn [w_dirs].
    destruct (answer _ _ =? 0); [apply in_or_app; left|]; exact Hq.
Qed.

Section DiscardedValue.
Variables answer answer' : world -> cstring -> Z.
Variable png : nat -> world -> cstring -> png_oracle.
Variable e : env.
Variable home : cstring.
Variable interval_ms : Z.
Variables scr_w scr_h : Z.
Variable k : nat.
Variables w w' : world.
Hypothesis Hdisk :
  r_world (pass_dirs_on answer e home k w) = r_world (pass_dirs_on answer' e home k w').

Lemma pass_name_on_disk :
  pass_name_on answer e home k w = pass_name_on answer' e home k w'.
Proof. unfold pass_name_on. rewrite Hdisk. reflexivity. Qed.

Lemma pass_filepath_on_disk :
  pass_filepath_on answer e home k w = pass_filepath_on answer' e home k w'.
Proof. unfold pass_filepath_on. rewrite pass_name_on_disk. reflexivity. Qed.

Lemma pass_png_on_disk (img : XImage) :
  pass_png_on answer png e home k w img = pass_png_on answer' png e home k w' img.
Proof.
  unfold pass_png_on. rewrite pass_name_on_disk, pass_filepath_on_disk. reflexivity.
Qed.

(** Two passes that find the same disk after [mkdir_p] go on alike,
    whatever [mkdir_p] returned in each. *)
Lemma iteration_on_disk :
  non_mkdir (r_events (iteration_on answer png e home interval_ms scr_w scr_h k w))
  = non_mkdir (r_events (iteration_on answer' png e home interval_ms scr_w scr_h k w'))
  /\ r_world (iteration_on answer png e home interval_ms scr_w scr_h k w)
     = r_world (iteration_on answer' png e home interval_ms scr_w scr_h k w').
Proof.
  destruct (env_image e k) as [img|] eqn:Himg.
  - rewrite (iteration_on_captured answer png e home interval_ms scr_w scr_h k w
               img Himg).
    rewrite (iteration_on_captured answer' png e home interval_ms scr_w scr_h k w'
               img Himg).
    cbn [r_world r_events].
    rewrite (pass_png_on_disk img), pass_name_on_disk, pass_filepath_on_disk.
    split; [|reflexivity].
    rewrite !non_mkdir_app.
    rewrite (non_mkdir_all (r_events (pass_dirs_on answer e home k w)))
      by (intros ev; apply pass_dirs_on_events).
    rewrite (non_mkdir_all (r_events (pass_dirs_on answer' e home k w')))
      by (intros ev; apply pass_dirs_on_events).
    reflexivity.
  - rewrite (iteration_on_capture_failed answer png e home interval_ms scr_w scr_h
               k w Himg).
    rewrite (iteration_on_capture_failed answer' png e home interval_ms scr_w scr_h
               k w' Himg).
    cbn [r_world r_events].
    rewrite pass_name_on_disk.
    split; [|reflexivity].
    rewrite !non_mkdir_app.
    rewrite (non_mkdir_all (r_events (pass_dirs_on answer e home k w)))
      by (intros ev; apply pass_dirs_on_events).
    rewrite (non_mkdir_all (r_events (pass_dirs_on answer' e home k w')))
      by (intros ev; apply pass_dirs_on_events).
    reflexivity.
Qed.
End DiscardedValue.

(** A pass whose directory is missing when the file is opened, on a file
    system that refuses to open a file there. *)
Lemma iteration_on_missing_dir (answer : world -> cstring -> Z) (e : env)
  (home : cstring) (interval_ms scr_w scr_h : Z) (k : nat) (w : world)
  (img : XImage) :
  env_image e k = Some img ->
  dir_on_disk (r_world (pass_name_on answer e home k w))
    (pass_filepath_on answer e home k w) = false ->
  let pass := iteration_on answer (png_enoent e) e home interval_ms scr_w scr_h k w in
  r_events pass
  = [EvTime] ++ r_events (pass_dirs_on answer e home k w)
    ++ r_events (pass_name_on answer e home k w)
    ++ [EvXGetImage scr_w scr_h true;
        EvFopen (pass_filepath_on answer e home k w) false;
        EvPerror (str "fopen"); EvXDestroyImage;
        EvUsleep (usleep_arg interval_ms)]
  /\ count_ev is_stdout_ev (r_events pass) = 0%nat
  /\ w_files (r_world pass) = w_files w.
Proof.
  intros Himg Hdir. cbv zeta.
  assert (Hopen : fopen_ok (png_enoent e k (r_world (pass_name_on answer e home k w))
                              (pass_filepath_on answer e home k w)) = false).
  { unfold png_enoent. rewrite Hdir. reflexivity. }
  rewrite (iteration_on_refused answer (png_enoent e) e home interval_ms scr_w
             scr_h k w img Himg Hopen).
  cbn [r_world r_events].
  assert (Hdirs : forall ev, In ev (r_events (pass_dirs_on answer e home k w)) ->
                             is_stdout_ev ev = false).
  { intros ev Hin. apply pass_dirs_on_events in Hin.
    destruct ev; try discriminate Hin. reflexivity. }
  assert (Hname : forall ev, In ev (r_events (pass_name_on answer e home k w)) ->
                             is_stdout_ev ev = false).
  { intros ev Hin. unfold pass_name_on in Hin.
    apply (proj2 (proj2 (proj2 (random_hex_frame e RANDOM_NAME_LEN _)))) in Hin.
    destruct ev; try discriminate Hin. reflexivity. }
  split; [reflexivity|]. split.
  - rewrite !count_ev_app.
    rewrite (count_ev_none _ _ Hdirs), (count_ev_none _ _ Hname). reflexivity.
  - unfold pass_name_on.
    rewrite (proj1 (proj2 (random_hex_frame e RANDOM_NAME_LEN _))).
    unfold pass_dirs_on. apply mkdir_p_on_frame.
Qed.

(** C10, amended. On any file system: [mkdir_p] returns -1 on an empty
    path without calling [mkdir].  Otherwise it calls [mkdir] on each
    prefix and last on the whole path, and its value is what that last
    call returns on the disk the earlier calls left; what the earlier
    calls returned is not looked at, so when every one of them fails the
    value is still the answer for the whole path.  On a file system that
    refuses to make a directory that exists the value is not 0 when the
    whole path exists.  The loop does not keep the value: two passes
    that find the same disk after [mkdir_p] show the same events, [mkdir]
    calls apart, and leave the same disk, whatever [mkdir_p] returned in
    each.  A directory that was not made is not reported by the loop,
    but it shows: where [fopen] is refused in a directory that does not
    exist, the pass prints the [fopen] error, prints no "Saved" line and
    writes no file.  The file system of the model is one instance. *)
Theorem mkdir_p_value (answer : world -> cstring -> Z) (path : cstring)
  (mode : Z) (w : world) :
  let t := mkdir_p_target path in
  let before := slash_prefixes t (length t - 1) 1 in
  let w_last := fold_left (mkdir_world answer) before w in
  (c_str path = [] -> mkdir_p_on answer path mode w = mkRun (-1) w [])
  /\ (c_str path <> [] ->
      r_events (mkdir_p_on answer path mode w)
      = mkdir_events_on answer before mode w
        ++ [EvMkdir t mode (r_val (mkdir_p_on answer path mode w))]
      /\ r_val (mkdir_p_on answer path mode w) = answer w_last t
      /\ ((forall p w', In p before -> answer w' p <> 0) ->
          r_val (mkdir_p_on answer path mode w) = answer w t)
      /\ ((forall p w', In p (w_dirs w') -> answer w' p <> 0) ->
          In t (w_dirs w) -> r_val (mkdir_p_on answer path mode w) <> 0))
  /\ (forall answer' png e home interval_ms scr_w scr_h k w',
        r_world (mkdir_p_on answer (pass_dirpath e home k) 493 w)
        = r_world (mkdir_p_on answer' (pass_dirpath e home k) 493 w') ->
        non_mkdir
          (r_events (iteration_on answer png e home interval_ms scr_w scr_h k w))
        = non_mkdir
            (r_events (iteration_on answer' png e home interval_ms scr_w scr_h k w'))
        /\ r_world (iteration_on answer png e home interval_ms scr_w scr_h k w)
           = r_world (iteration_on answer' png e home interval_ms scr_w scr_h k w'))
  /\ (forall e home interval_ms scr_w scr_h k img,
        env_image e k = Some img ->
        dir_on_disk (r_world (pass_name_on answer e home k w))
          (pass_filepath_on answer e home k w) = false ->
        let pass :=
          iteration_on answer (png_enoent e) e home interval_ms scr_w scr_h k w in
        In (EvPerror (str "fopen")) (r_events pass)
        /\ count_ev is_stdout_ev (r_events pass) = 0%nat
        /\ w_files (r_world pass) = w_files w)
  /\ mkdir_p_on model_answer path mode w = mkdir_p path mode w
  /\ (forall e home interval_ms scr_w scr_h k,
        iteration_on model_answer (png_of_env e) e home interval_ms scr_w scr_h k w
        = iteration e home interval_ms scr_w scr_h k w).
Proof.
  cbv zeta.
  split; [apply mkdir_p_on_empty|].
  split.
  { intros Hpath. rewrite (mkdir_p_on_run answer mode path w Hpath).
    cbn [r_val r_events].
    split; [reflexivity|]. split; [reflexivity|]. split.
    - intros Hfail.
      rewrite (proj1 (mkdir_worlds_failed answer mode _ w Hfail)). reflexivity.
    - intros Hexist Hin. apply Hexist. apply mkdir_worlds_mono. exact Hin. }
  split.
  { intros answer' png e home interval_ms scr_w scr_h k w' Hdisk.
    apply iteration_on_disk. exact Hdisk. }
  split.
  { intros e home interval_ms scr_w scr_h k img Himg Hdir. cbv zeta.
    destruct (iteration_on_missing_dir answer e home interval_ms scr_w scr_h k w
                img Himg Hdir) as (Hev & Hout & Hfiles).
    split; [|split; assumption].
    rewrite Hev. apply in_or_app. right. apply in_or_app. right.
    apply in_or_app. right. right. right. left. reflexivity. }
  split; [apply mkdir_p_on_model|].
  intros. apply iteration_on_model.
Qed.

Lemma mkdir_p_value_witness :
  let path := str "shots/2026" in
  let w := with_dirs [str "shots"] empty_world in
  let e := sample_env [str "screenshot_daemon"] in
  let home := str "/home/u" in
  let filled := r_world (mkdir_p_on model_answer (pass_dirpath e home 0) 493
                           home_world) in
  (c_str path <> []
   /\ r_world (mkdir_p_on model_answer (pass_dirpath e home 0) 493 home_world)
      = r_world (mkdir_p_on model_answer (pass_dirpath e home 0) 493 filled))
  /\ r_events (mkdir_p_on model_answer path 493 w)
     = [EvMkdir (str "shots") 493 (-1); EvMkdir (str "shots/2026") 493 0]
  /\ r_val (mkdir_p_on model_answer path 493 w) = 0
  /\ r_val (mkdir_p_on model_answer (pass_dirpath e home 0) 493 home_world) = 0
  /\ r_val (mkdir_p_on model_answer (pass_dirpath e home 0) 493 filled) = -1
  /\ non_mkdir
       (r_events (iteration_on model_answer (png_enoent e) e home 1000 2 2 0
                    home_world))
     = non_mkdir
         (r_events (iteration_on model_answer (png_enoent e) e home 1000 2 2 0
                      filled)).
Proof.
  cbv zeta.
  assert (Hpath : c_str (str "shots/2026") <> []) by (vm_compute; discriminate).
  assert (Hdisk :
            r_world (mkdir_p_on model_answer
                       (pass_dirpath (sample_env [str "screenshot_daemon"])
                          (str "/home/u") 0) 493 home_world)
            = r_world (mkdir_p_on model_answer
                         (pass_dirpath (sample_env [str "screenshot_daemon"])
                            (str "/home/u") 0) 493
                         (r_world (mkdir_p_on model_answer
                                     (pass_dirpath
                                        (sample_env [str "screenshot_daemon"])
                                        (str "/home/u") 0) 493 home_world))))
    by (vm_compute; reflexivity).
  split; [split; [exact Hpath | exact Hdisk]|].
  destruct (proj1 (proj2 (mkdir_p_value model_answer (str "shots/2026") 493
                            (with_dirs [str "shots"] empty_world))) Hpath)
    as (Hev & Hval & _).
  split; [rewrite Hev, Hval; vm_compute; reflexivity|].
  split; [rewrite Hval; vm_compute; reflexivity|].
  split; [vm_compute; reflexivity|].
  split; [vm_compute; reflexivity|].
  exact (proj1 (proj1 (proj2 (proj2
           (mkdir_p_value model_answer (str "shots/2026") 493 home_world)))
           model_answer (png_enoent (sample_env [str "screenshot_daemon"]))
           (sample_env [str "screenshot_daemon"]) (str "/home/u") 1000 2 2 0%nat
           _ Hdisk)).
Defined.

(** C10 as stated fails in its last part: a directory that
    cannot be made does show in what the loop does.  The same pass (home
    directory /home/u, which exists, the sample image, [fopen] refused
    only where the directory is missing) is run on a disk where [mkdir]
    works and on one where every [mkdir] is refused.  On the first
    [mkdir_p] returns 0 and the pass saves the file and prints "Saved";
    on the second [mkdir_p] returns -1, [fopen] fails, the pass prints
    the [fopen] error and no "Saved" line and leaves no file. *)
Theorem mkdir_failure_shows_in_pass :
  let e := sample_env [str "screenshot_daemon"] in
  let home := str "/home/u" in
  let made := iteration_on model_answer (png_enoent e) e home 1000 2 2 0 home_world in
  let failed := iteration_on refusing (png_enoent e) e home 1000 2 2 0 home_world in
  r_val (mkdir_p_on model_answer (pass_dirpath e home 0) 493 home_world) = 0
  /\ r_val (mkdir_p_on refusing (pass_dirpath e home 0) 493 home_world) = -1
  /\ count_ev is_stdout_ev (r_events made) = 1%nat
  /\ count_ev is_stdout_ev (r_events failed) = 0%nat
  /\ In (EvPerror (str "fopen")) (r_events failed)
  /\ ~ In (EvPerror (str "fopen")) (r_events made)
  /\ length (w_files (r_world made)) = 1%nat
  /\ w_files (r_world failed) = []
  /\ non_mkdir (r_events made) <> non_mkdir (r_events failed).
Proof.
  cbv zeta.
  split; [vm_compute; reflexivity|].
  split; [vm_compute; reflexivity|].
  split; [vm_compute; reflexivity|].
  split; [vm_compute; reflexivity|].
  split; [vm_compute; tauto|].
  split.
  { vm_compute. intros H.
    repeat (destruct H as [H|H]; [discriminate H|]). exact H. }
  split; [vm_compute; reflexivity|].
  split; [vm_compute; reflexivity|].
  intros H. apply (f_equal (count_ev is_stdout_ev)) in H.
  vm_compute in H. discriminate H.
Qed.

(** ** The capture path *)

Lemma digit_char_spec (d : Z) :
  0 <= d <= 9 -> is_digit (digit_char d) = true /\ digit_val (digit_char d) = d.
Proof.
  intros Hd.
  assert (Hcases : d = 0 \/ d = 1 \/ d = 2 \/ d = 3 \/ d = 4 \/ d = 5 \/ d = 6
                   \/ d = 7 \/ d = 8 \/ d = 9) by lia.
  repeat (destruct Hcases as [->|Hcases]; [split; reflexivity|]).
  subst d. split; reflexivity.
Qed.

Lemma dec_value_snoc (s : cstring) (c : ascii) :
  dec_value (s ++ [c]) = dec_value s * 10 + digit_val c.
Proof. unfold dec_value. rewrite fold_left_app. reflexivity. Qed.

(** With enough fuel, [dec_digits] gives the decimal digits of [n], and no
    more of them than [n] needs. *)
Lemma dec_digits_spec (fuel : nat) : forall n,
  0 <= n < 10 ^ Z.of_nat fuel ->
  forallb is_digit (dec_digits fuel n) = true
  /\ dec_value (dec_digits fuel n) = n
  /\ forall k, (1 <= k)%nat -> n < 10 ^ Z.of_nat k ->
               (length (dec_digits fuel n) <= k)%nat.
Proof.
  induction fuel as [|fuel IH]; intros n Hn.
  - change (10 ^ Z.of_nat 0) with 1 in Hn. assert (n = 0) by lia. subst n.
    split; [reflexivity|]. split; [reflexivity|].
    intros k _ _. cbn [dec_digits length]. lia.
  - cbn [dec_digits]. destruct (n <? 10) eqn:Hsmall.
    + apply Z.ltb_lt in Hsmall.
      destruct (digit_char_spec n) as [Hd Hv]; [lia|].
      split; [cbn [forallb]; rewrite Hd; reflexivity|].
      split; [unfold dec_value; cbn [fold_left]; rewrite Hv; lia|].
      intros k Hk _. cbn [length]. exact Hk.
    + apply Z.ltb_ge in Hsmall.
      assert (Hdiv : 0 <= n / 10 < 10 ^ Z.of_nat fuel).
      { split; [apply Z.div_pos; lia|].
        apply Z.div_lt_upper_bound; [lia|].
        replace (10 * 10 ^ Z.of_nat fuel) with (10 ^ Z.of_nat (S fuel)); [lia|].
        rewrite Nat2Z.inj_succ, Z.pow_succ_r by lia. reflexivity. }
      destruct (IH (n / 10) Hdiv) as (Hdig & Hval & Hlen).
      destruct (digit_char_spec (n mod 10)) as [Hd Hv].
      { pose proof (Z.mod_pos_bound n 10). lia. }
      split; [rewrite forallb_app, Hdig; cbn [forallb]; rewrite Hd; reflexivity|].
      split.
      { rewrite dec_value_snoc, Hval, Hv.
        pose proof (Z.div_mod n 10). lia. }
      intros k Hk Hnk. rewrite length_app. cbn [length].
      destruct k as [|[|k]]; [lia | change (10 ^ Z.of_nat 1) with 10 in Hnk; lia |].
      assert (Hprev : (length (dec_digits fuel (n / 10)) <= S k)%nat).
      { apply Hlen; [lia|].
        apply Z.div_lt_upper_bound; [lia|].
        replace (10 * 10 ^ Z.of_nat (S k)) with (10 ^ Z.of_nat (S (S k))); [lia|].
        rewrite (Nat2Z.inj_succ (S k)), Z.pow_succ_r by lia. reflexivity. }
      lia.
Qed.

(** The fuel of [fmt_u] is enough. *)
Lemma fmt_u_fuel (n : Z) :
  0 <= n -> n < 10 ^ Z.of_nat (S (Z.to_nat (Z.log2 n))).
Proof.
  intros Hn. rewrite Nat2Z.inj_succ, Z2Nat.id by apply Z.log2_nonneg.
  destruct (Z.eq_dec n 0) as [->|Hne]; [reflexivity|].
  pose proof (Z.log2_spec n ltac:(lia)) as [_ Hlt].
  pose proof (Z.log2_nonneg n) as Hlog.
  assert (Hpow : 2 ^ Z.succ (Z.log2 n) <= 10 ^ Z.succ (Z.log2 n))
    by (apply Z.pow_le_mono_l; lia).
  lia.
Qed.

Lemma dec_value_zeros (m : nat) (s : cstring) :
  dec_value (repeat "0"%char m ++ s) = dec_value s.
Proof.
  unfold dec_value. rewrite fold_left_app. f_equal.
  induction m as [|m IH]; [reflexivity|]. simpl. exact IH.
Qed.

Lemma zeros_are_digits (m : nat) : forallb is_digit (repeat "0"%char m) = true.
Proof. induction m as [|m IH]; [reflexivity|]. simpl. exact IH. Qed.

(** [%0<w>d] of a number with at most [w] digits: exactly [w] digits. *)
Lemma fmt_0d_exact (w : nat) (z : Z) :
  (1 <= w)%nat -> 0 <= z < 10 ^ Z.of_nat w -> exact_digits w z = true.
Proof.
  intros Hw Hz.
  destruct (dec_digits_spec _ z (conj (proj1 Hz) (fmt_u_fuel z (proj1 Hz))))
    as (Hdig & Hval & Hlen).
  fold (fmt_u z) in Hdig, Hval, Hlen.
  specialize (Hlen w Hw (proj2 Hz)).
  unfold exact_digits, fmt_0d.
  replace (z <? 0) with false by (symmetry; apply Z.ltb_ge; lia).
  unfold zero_pad.
  rewrite length_app, repeat_length, forallb_app, zeros_are_digits, Hdig,
    dec_value_zeros, Hval.
  rewrite Z.eqb_refl.
  replace (w - length (fmt_u z) + length (fmt_u z))%nat with w by lia.
  rewrite Nat.eqb_refl. reflexivity.
Qed.

Lemma fmt_04d_exact (z : Z) : 0 <= z <= 9999 -> exact_digits 4 z = true.
Proof.
  intros Hz. apply fmt_0d_exact; [lia|].
  change (10 ^ Z.of_nat 4) with 10000. lia.
Qed.

Lemma fmt_02d_exact (z : Z) : 0 <= z <= 99 -> exact_digits 2 z = true.
Proof.
  intros Hz. apply fmt_0d_exact; [lia|].
  change (10 ^ Z.of_nat 2) with 100. lia.
Qed.

Lemma exact_digits_spec (w : nat) (z : Z) :
  exact_digits w z = true ->
  length (fmt_0d w z) = w
  /\ forallb is_digit (fmt_0d w z) = true
  /\ dec_value (fmt_0d w z) = z.
Proof.
  unfold exact_digits. rewrite !andb_true_iff, Nat.eqb_eq, Z.eqb_eq. tauto.
Qed.

Lemma c_str_id (s : cstring) : nul_free s -> c_str s = s.
Proof.
  intros Hs. rewrite <- (app_nil_r s) at 1.
  apply c_str_terminated; [exact Hs | left; reflexivity].
Qed.

Lemma nul_free_c_str (s : cstring) : c_str s = s -> nul_free s.
Proof. intros <-. apply c_str_nul_free. Qed.

Lemma nul_free_app (a b : cstring) : nul_free a -> nul_free b -> nul_free (a ++ b).
Proof. intros Ha Hb. apply Forall_app. split; assumption. Qed.

Lemma digits_nul_free (s : cstring) : forallb is_digit s = true -> nul_free s.
Proof.
  intros Hs. rewrite forallb_forall in Hs.
  apply List.Forall_forall. intros c Hc. specialize (Hs c Hc).
  destruct (Ascii.eqb c NUL) eqn:Heq; [|reflexivity].
  apply Ascii.eqb_eq in Heq. subst c. discriminate Hs.
Qed.

Lemma hex_nul_free (s : cstring) :
  Forall (fun c => is_lower_hex c = true) s -> nul_free s.
Proof.
  intros Hs. eapply Forall_impl; [exact Hs|]. simpl. intros c Hc.
  destruct (Ascii.eqb c NUL) eqn:Heq; [|reflexivity].
  apply Ascii.eqb_eq in Heq. subst c. discriminate Hc.
Qed.

Lemma snprintf_fits (size : nat) (s : cstring) :
  (length s < size)%nat -> snprintf size s = s.
Proof. intros Hlen. unfold snprintf. apply take_ge. lia. Qed.

Section CapturePath.
Variable home : cstring.
Variable t : tm.
Hypothesis Hhome : c_str home = home.
Hypothesis Hlen : (length home <= 485)%nat.
Hypothesis Hyear : 0 <= tm_year t + 1900 <= 9999.
Hypothesis Hmon : 0 <= tm_mon t <= 11.
Hypothesis Hmday : 1 <= tm_mday t <= 31.
Hypothesis Hhour : 0 <= tm_hour t <= 23.

Let YYYY := fmt_0d 4 (tm_year t + 1900).
Let MM := fmt_0d 2 (tm_mon t + 1).
Let DD := fmt_0d 2 (tm_mday t).
Let HH := fmt_0d 2 (tm_hour t).

Lemma YYYY_exact :
  length YYYY = 4%nat /\ forallb is_digit YYYY = true
  /\ dec_value YYYY = tm_year t + 1900.
Proof using Hyear. apply exact_digits_spec, fmt_04d_exact, Hyear. Qed.

Lemma MM_exact :
  length MM = 2%nat /\ forallb is_digit MM = true /\ dec_value MM = tm_mon t + 1.
Proof using Hmon. apply exact_digits_spec, fmt_02d_exact. clear - Hmon. lia. Qed.

Lemma DD_exact :
  length DD = 2%nat /\ forallb is_digit DD = true /\ dec_value DD = tm_mday t.
Proof using Hmday. apply exact_digits_spec, fmt_02d_exact. clear - Hmday. lia. Qed.

Lemma HH_exact :
  length HH = 2%nat /\ forallb is_digit HH = true /\ dec_value HH = tm_hour t.
Proof using Hhour. apply exact_digits_spec, fmt_02d_exact. clear - Hhour. lia. Qed.

(** A home directory of at most 485 characters: the directory path is
    not cut by the 512-byte buffer. *)
Lemma dirpath_of_fits :
  dirpath_of home t
  = home ++ str "/Screenshots/" ++ YYYY ++ str "/" ++ MM ++ str "/"
      ++ DD ++ str "/" ++ HH.
Proof.
  unfold dirpath_of, fmt_s. rewrite Hhome.
  rewrite (int_wrap_id (tm_year t + 1900)) by (unfold INT_MAX; lia).
  rewrite (int_wrap_id (tm_mon t + 1)) by (unfold INT_MAX; lia).
  fold YYYY MM DD HH.
  apply snprintf_fits.
  destruct YYYY_exact as (Hy & _), MM_exact as (Hm & _),
    DD_exact as (Hd & _), HH_exact as (Hh & _).
  rewrite !length_app, Hy, Hm, Hd, Hh.
  change (length (str "/Screenshots/")) with 13%nat.
  change (length (str "/")) with 1%nat. lia.
Qed.

Lemma dirpath_of_nul_free : nul_free (dirpath_of home t).
Proof.
  rewrite dirpath_of_fits.
  destruct YYYY_exact as (_ & Hy & _), MM_exact as (_ & Hm & _),
    DD_exact as (_ & Hd & _), HH_exact as (_ & Hh & _).
  repeat apply nul_free_app;
    try (apply digits_nul_free; assumption);
    try (apply nul_free_c_str; exact Hhome);
    repeat constructor.
Qed.

Lemma dirpath_of_length : (length (dirpath_of home t) = length home + 26)%nat.
Proof.
  rewrite dirpath_of_fits.
  destruct YYYY_exact as (Hy & _), MM_exact as (Hm & _),
    DD_exact as (Hd & _), HH_exact as (Hh & _).
  rewrite !length_app, Hy, Hm, Hd, Hh.
  change (length (str "/Screenshots/")) with 13%nat.
  change (length (str "/")) with 1%nat. lia.
Qed.

(** The file path is the directory path, a slash, the name and the
    suffix, when the name is 8 lowercase hexadecimal digits. *)
Lemma filepath_of_fits (name : cstring) :
  length name = 8%nat -> Forall (fun c => is_lower_hex c = true) name ->
  filepath_of (dirpath_of home t) name
  = dirpath_of home t ++ str "/" ++ name ++ str ".png".
Proof.
  intros Hn Hhex. unfold filepath_of, fmt_s.
  rewrite (c_str_id _ dirpath_of_nul_free), (c_str_id name (hex_nul_free _ Hhex)).
  apply snprintf_fits.
  rewrite !length_app, dirpath_of_length, Hn.
  change (length (str "/")) with 1%nat.
  change (length (str ".png")) with 4%nat. lia.
Qed.
End CapturePath.

(** C2, amended. For a home directory of at most 485 characters, a year
    from 0 to 9999 and a month, day and hour in their ranges, and [rand]
    in its range, the path of a pass is
    [<home>/Screenshots/<YYYY>/<MM>/<DD>/<HH>/<rand8>.png] where the four
    fields are exactly 4, 2, 2 and 2 decimal digits denoting the year,
    the month, the day and the hour, and [rand8] is the 8 lowercase
    hexadecimal digits [random_hex] produced. *)
Theorem capture_path_format (e : env) (home : cstring) (k : nat) (w : world) :
  c_str home = home ->
  (length home <= 485)%nat ->
  0 <= tm_year (env_localtime e k) + 1900 <= 9999 ->
  0 <= tm_mon (env_localtime e k) <= 11 ->
  1 <= tm_mday (env_localtime e k) <= 31 ->
  0 <= tm_hour (env_localtime e k) <= 23 ->
  (forall i, 0 <= env_rand e i) ->
  exists YYYY MM DD HH rand8,
    pass_filepath e home k w
    = home ++ str "/Screenshots/" ++ YYYY ++ str "/" ++ MM ++ str "/"
        ++ DD ++ str "/" ++ HH ++ str "/" ++ rand8 ++ str ".png"
    /\ (length YYYY = 4%nat /\ forallb is_digit YYYY = true
        /\ dec_value YYYY = tm_year (env_localtime e k) + 1900)
    /\ (length MM = 2%nat /\ forallb is_digit MM = true
        /\ dec_value MM = tm_mon (env_localtime e k) + 1)
    /\ (length DD = 2%nat /\ forallb is_digit DD = true
        /\ dec_value DD = tm_mday (env_localtime e k))
    /\ (length HH = 2%nat /\ forallb is_digit HH = true
        /\ dec_value HH = tm_hour (env_localtime e k))
    /\ rand8 = r_val (pass_name e home k w)
    /\ length rand8 = 8%nat
    /\ forallb is_lower_hex rand8 = true.
Proof.
  intros Hhome Hlen Hyear Hmon Hmday Hhour Hrand.
  destruct (random_hex_name e RANDOM_NAME_LEN (r_world (pass_dirs e home k w)) Hrand)
    as [Hn Hhex].
  fold (pass_name e home k w) in Hn, Hhex.
  exists (fmt_0d 4 (tm_year (env_localtime e k) + 1900)),
         (fmt_0d 2 (tm_mon (env_localtime e k) + 1)),
         (fmt_0d 2 (tm_mday (env_localtime e k))),
         (fmt_0d 2 (tm_hour (env_localtime e k))),
         (r_val (pass_name e home k w)).
  split.
  { unfold pass_filepath, pass_dirpath.
    rewrite (filepath_of_fits home _ Hhome Hlen Hyear Hmon Hmday Hhour _ Hn Hhex).
    rewrite (dirpath_of_fits home _ Hhome Hlen Hyear Hmon Hmday Hhour).
    rewrite <- !app_assoc. reflexivity. }
  split; [apply YYYY_exact; assumption|].
  split; [apply MM_exact; assumption|].
  split; [apply DD_exact; assumption|].
  split; [apply HH_exact; assumption|].
  split; [reflexivity|]. split; [exact Hn|].
  apply forallb_forall. rewrite List.Forall_forall in Hhex. exact Hhex.
Qed.

Lemma capture_path_format_witness :
  let e := sample_env [str "screenshot_daemon"] in
  (c_str (str "/home/u") = str "/home/u"
   /\ (length (str "/home/u") <= 485)%nat
   /\ 0 <= tm_year (env_localtime e 0) + 1900 <= 9999
   /\ 0 <= tm_mon (env_localtime e 0) <= 11
   /\ 1 <= tm_mday (env_localtime e 0) <= 31
   /\ 0 <= tm_hour (env_localtime e 0) <= 23
   /\ (forall i, 0 <= env_rand e i))
  /\ exists YYYY MM DD HH rand8,
       pass_filepath e (str "/home/u") 0 empty_world
       = str "/home/u" ++ str "/Screenshots/" ++ YYYY ++ str "/" ++ MM ++ str "/"
           ++ DD ++ str "/" ++ HH ++ str "/" ++ rand8 ++ str ".png"
       /\ length YYYY = 4%nat /\ length MM = 2%nat /\ length DD = 2%nat
       /\ length HH = 2%nat /\ length rand8 = 8%nat.
Proof.
  cbv zeta.
  assert (H1 : c_str (str "/home/u") = str "/home/u") by reflexivity.
  assert (H2 : (length (str "/home/u") <= 485)%nat) by (simpl; lia).
  assert (H3 : 0 <= tm_year (env_localtime (sample_env [str "screenshot_daemon"]) 0)
                    + 1900 <= 9999) by (simpl; lia).
  assert (H4 : 0 <= tm_mon (env_localtime (sample_env [str "screenshot_daemon"]) 0)
               <= 11) by (simpl; lia).
  assert (H5 : 1 <= tm_mday (env_localtime (sample_env [str "screenshot_daemon"]) 0)
               <= 31) by (simpl; lia).
  assert (H6 : 0 <= tm_hour (env_localtime (sample_env [str "screenshot_daemon"]) 0)
               <= 23) by (simpl; lia).
  assert (H7 : forall i, 0 <= env_rand (sample_env [str "screenshot_daemon"]) i)
    by (intros i; simpl; lia).
  split; [repeat split; assumption || apply H3 || apply H4 || apply H5 || apply H6|].
  destruct (capture_path_format (sample_env [str "screenshot_daemon"])
              (str "/home/u") 0 empty_world H1 H2 H3 H4 H5 H6 H7)
    as (YYYY & MM & DD & HH & rand8 & Hp & (Hy & _) & (Hm & _) & (Hd & _)
        & (Hh & _) & _ & Hn & _).
  exists YYYY, MM, DD, HH, rand8.
  repeat split; assumption.
Defined.

(** C2 as stated fails for a long home directory: with 500 characters the
    directory path is cut to the 511 characters its buffer holds, and the
    file path is what remains, a slash, the name and the suffix. *)
Lemma capture_path_truncated :
  let e := sample_env [str "screenshot_daemon"] in
  length (pass_filepath e long_home 0 empty_world) = 524%nat
  /\ pass_filepath e long_home 0 empty_world
     <> long_home ++ str "/Screenshots/2026/10/03/07/"
          ++ r_val (pass_name e long_home 0 empty_world) ++ str ".png".
Proof.
  cbv zeta. split; [vm_compute; reflexivity|].
  intros Heq. apply (f_equal (@length ascii)) in Heq.
  vm_compute in Heq. discriminate Heq.
Qed.

(** ** The interval argument *)

(** No digits: [atoi] returns 0. *)
Lemma non_numeric_atoi (s : cstring) : non_numeric s = true -> atoi s = 0.
Proof.
  unfold non_numeric, atoi, strtol.
  destruct (skip_space s) as [|c rest]; [reflexivity|].
  destruct (Ascii.eqb c "-") eqn:Hminus; simpl orb.
  - destruct rest as [|d rest]; [reflexivity|].
    intros Hd. apply negb_true_iff in Hd. simpl. rewrite Hd. reflexivity.
  - destruct (Ascii.eqb c "+") eqn:Hplus.
    + destruct rest as [|d rest]; [reflexivity|].
      intros Hd. apply negb_true_iff in Hd. simpl. rewrite Hd. reflexivity.
    + intros Hc. apply negb_true_iff in Hc. simpl. rewrite Hc. reflexivity.
Qed.

Lemma strtol_digits_value (d : cstring) : forall acc,
  forallb is_digit d = true ->
  strtol_digits acc d = fold_left (fun a c => a * 10 + digit_val c) d acc.
Proof.
  induction d as [|c d IH]; intros acc Hd; [reflexivity|].
  simpl in Hd. apply andb_true_iff in Hd. destruct Hd as [Hc Hd].
  simpl. rewrite Hc. apply IH. exact Hd.
Qed.

Lemma digit_not_space (c : ascii) : is_digit c = true -> is_space c = false.
Proof.
  unfold is_digit, is_space. intros Hc.
  apply andb_true_iff in Hc. destruct Hc as [Hlo Hhi].
  apply Nat.leb_le in Hlo, Hhi.
  apply orb_false_iff. split.
  - apply Nat.eqb_neq. lia.
  - apply andb_false_iff. right. apply Nat.leb_gt. lia.
Qed.

Lemma digit_not_sign (c : ascii) :
  is_digit c = true -> Ascii.eqb c "-" = false /\ Ascii.eqb c "+" = false.
Proof.
  intros Hc. split.
  - destruct (Ascii.eqb c "-") eqn:Heq; [|reflexivity].
    apply Ascii.eqb_eq in Heq. subst c. discriminate Hc.
  - destruct (Ascii.eqb c "+") eqn:Heq; [|reflexivity].
    apply Ascii.eqb_eq in Heq. subst c. discriminate Hc.
Qed.

(** Every sleep of a run is for the interval the argument gave. *)
Lemma main_loop_usleep_arg
  (e : env) (home : cstring) (interval_ms scr_w scr_h : Z) (n : nat) :
  forall k w usec,
    In (EvUsleep usec) (r_events (main_loop e home interval_ms scr_w scr_h n k w)) ->
    usec = usleep_arg interval_ms.
Proof.
  induction n as [|n IH]; intros k w usec Hin; [destruct Hin|].
  rewrite main_loop_S, bind_events in Hin.
  apply in_app_or in Hin. destruct Hin as [Hin|Hin]; [|apply IH in Hin; exact Hin].
  destruct (iteration_work_then_sleep e home interval_ms scr_w scr_h k w)
    as (work & Hev & Hwork).
  rewrite Hev in Hin. apply in_app_or in Hin.
  destruct Hin as [Hin|[Hin|[]]]; [|injection Hin as <-; reflexivity].
  rewrite List.Forall_forall in Hwork. apply Hwork in Hin. discriminate Hin.
Qed.

Lemma main_usleep_arg (e : env) (n : nat) (w : world) (usec : Z) :
  In (EvUsleep usec) (r_events (main e n w)) ->
  usec = usleep_arg (parse_interval (env_argv e)).
Proof.
  destruct (env_display e) eqn:Hd.
  - rewrite (main_display e n w Hd). cbn [r_events]. intros Hin.
    apply in_app_or in Hin. destruct Hin as [Hin|Hin].
    + repeat (destruct Hin as [Hin|Hin]; [discriminate Hin|]). destruct Hin.
    + apply main_loop_usleep_arg in Hin. exact Hin.
  - rewrite (main_headless e n w Hd). cbn [r_events]. intros Hin.
    repeat (destruct Hin as [Hin|Hin]; [discriminate Hin|]). destruct Hin.
Qed.

Lemma atoi_written (s : cstring) :
  INT_MIN <= written_value s <= INT_MAX -> atoi s = written_value s.
Proof.
  intros Hv. unfold atoi, strtol. fold (written_value s).
  unfold INT_MIN, INT_MAX, LONG_MAX, LONG_MIN in *.
  rewrite Z.min_r, Z.max_r by lia.
  apply int_wrap_id. unfold INT_MAX. lia.
Qed.

Lemma int_wrap_range (z : Z) : INT_MIN <= int_wrap z <= INT_MAX.
Proof.
  unfold int_wrap, INT_MIN, INT_MAX.
  pose proof (Z.mod_pos_bound (z + 2147483648) 4294967296 ltac:(lia)). lia.
Qed.

Lemma non_numeric_written (s : cstring) :
  non_numeric s = true -> written_value s = 0.
Proof.
  unfold non_numeric, written_value. intros Hnn.
  destruct (skip_space s) as [|c rest]; [reflexivity|].
  destruct (Ascii.eqb c "-") eqn:Hm.
  - cbn [orb] in Hnn. destruct rest as [|d rest]; [reflexivity|].
    cbn [strtol_digits]. apply negb_true_iff in Hnn. rewrite Hnn. reflexivity.
  - destruct (Ascii.eqb c "+") eqn:Hp.
    + cbn [orb] in Hnn. destruct rest as [|d rest]; [reflexivity|].
      cbn [strtol_digits]. apply negb_true_iff in Hnn. rewrite Hnn. reflexivity.
    + cbn [orb] in Hnn. cbn [strtol_digits].
      apply negb_true_iff in Hnn. rewrite Hnn. reflexivity.
Qed.

Lemma digits_written (d : cstring) :
  forallb is_digit d = true ->
  written_value d = dec_value d /\ written_value ("-"%char :: d) = - dec_value d.
Proof.
  intros Hd. split.
  - unfold written_value.
    destruct d as [|c d]; [reflexivity|].
    assert (Hc : is_digit c = true).
    { simpl in Hd. apply andb_true_iff in Hd. apply Hd. }
    simpl skip_space. rewrite (digit_not_space c Hc).
    destruct (digit_not_sign c Hc) as [-> ->].
    apply strtol_digits_value. exact Hd.
  - unfold written_value.
    change (skip_space ("-"%char :: d)) with ("-"%char :: d). cbv iota.
    change (Ascii.eqb "-" "-") with true. cbv iota.
    rewrite (strtol_digits_value d 0 Hd). reflexivity.
Qed.

(** C4, amended. Without an argument the interval is 1000.  With an
    argument that is non-numeric it is 1000; with one that reads as a
    number [v] in the range of [int] it is 1000 when [v] is zero or
    negative and [v] when [v] is positive.  For a string of digits [v]
    is the number they denote, and its negation after a minus sign.
    Whatever the argument, the interval is a positive [int], and every
    sleep of the process is for that interval. *)
Theorem interval_argument (prog arg : cstring) (rest : list cstring) :
  parse_interval [] = 1000
  /\ parse_interval [prog] = 1000
  /\ (non_numeric arg = true -> parse_interval (prog :: arg :: rest) = 1000)
  /\ (INT_MIN <= written_value arg <= 0 ->
      parse_interval (prog :: arg :: rest) = 1000)
  /\ (0 < written_value arg <= INT_MAX ->
      parse_interval (prog :: arg :: rest) = written_value arg)
  /\ (forallb is_digit arg = true ->
      written_value arg = dec_value arg
      /\ written_value ("-"%char :: arg) = - dec_value arg)
  /\ 0 < parse_interval (prog :: arg :: rest) <= INT_MAX
  /\ (forall e n w usec,
        env_argv e = prog :: arg :: rest ->
        In (EvUsleep usec) (r_events (main e n w)) ->
        usec = usleep_arg (parse_interval (prog :: arg :: rest))).
Proof.
  assert (Hle : forall a, atoi a <= 0 -> parse_interval (prog :: a :: rest) = 1000).
  { intros a Ha. unfold parse_interval.
    destruct (atoi a >? 0) eqn:Hgt; [|reflexivity].
    apply Z.gtb_lt in Hgt. lia. }
  assert (Hgt : forall a, 0 < atoi a -> parse_interval (prog :: a :: rest) = atoi a).
  { intros a Ha. unfold parse_interval.
    destruct (atoi a >? 0) eqn:Hgt; [reflexivity|].
    rewrite Z.gtb_ltb in Hgt. apply Z.ltb_ge in Hgt. lia. }
  split; [reflexivity|]. split; [reflexivity|].
  split; [intros Hnn; apply Hle; rewrite (non_numeric_atoi arg Hnn); lia|].
  split.
  { intros Hv. apply Hle. rewrite atoi_written; unfold INT_MAX; lia. }
  split.
  { intros Hv. rewrite Hgt; rewrite atoi_written; unfold INT_MIN; lia. }
  split; [apply digits_written|].
  split.
  { pose proof (int_wrap_range (strtol arg)) as Hr. fold (atoi arg) in Hr.
    destruct (Z.lt_ge_cases 0 (atoi arg)) as [Hpos|Hneg].
    - rewrite (Hgt arg Hpos). lia.
    - rewrite (Hle arg Hneg). unfold INT_MAX. lia. }
  intros e n w usec Hargv Hin. rewrite <- Hargv.
  apply (main_usleep_arg e n w usec Hin).
Qed.

Lemma interval_argument_witness :
  (non_numeric (str "fast") = true
   /\ INT_MIN <= written_value (str "-5") <= 0
   /\ 0 < written_value (str "250") <= INT_MAX)
  /\ parse_interval [str "screenshot_daemon"; str "fast"] = 1000
  /\ parse_interval [str "screenshot_daemon"; str "-5"] = 1000
  /\ parse_interval [str "screenshot_daemon"; str "250"] = 250.
Proof.
  assert (H1 : non_numeric (str "fast") = true) by reflexivity.
  assert (H2 : INT_MIN <= written_value (str "-5") <= 0)
    by (vm_compute; split; discriminate).
  assert (H3 : 0 < written_value (str "250") <= INT_MAX)
    by (vm_compute; split; [reflexivity | discriminate]).
  split; [repeat split; assumption || apply H2 || apply H3|].
  split; [|split].
  - exact (proj1 (proj2 (proj2 (interval_argument (str "screenshot_daemon")
                                  (str "fast") []))) H1).
  - exact (proj1 (proj2 (proj2 (proj2 (interval_argument (str "screenshot_daemon")
                                         (str "-5") [])))) H2).
  - exact (proj1 (proj2 (proj2 (proj2 (proj2
             (interval_argument (str "screenshot_daemon") (str "250") []))))) H3).
Defined.

(** C4 as stated fails outside the range of [int]: glibc's
    [atoi] is [(int) strtol(...)], and the cast keeps the low 32 bits.
    The negative argument -4294967295 gives an interval of 1 ms, not
    1000; the positive 4294967297 gives 1 ms, not 4294967297; the
    negative -2147483649 gives 2147483647 ms. *)
Theorem interval_outside_int_range :
  (written_value (str "-4294967295") = -4294967295
   /\ parse_interval [str "screenshot_daemon"; str "-4294967295"] = 1)
  /\ (written_value (str "4294967297") = 4294967297
      /\ parse_interval [str "screenshot_daemon"; str "4294967297"] = 1)
  /\ (written_value (str "-2147483649") = -2147483649
      /\ parse_interval [str "screenshot_daemon"; str "-2147483649"] = 2147483647).
Proof. vm_compute. repeat split. Qed.

(** ** The sleep and the configured interval *)

(** While the product fits an [int], the sleep is the interval. *)
Lemma usleep_arg_exact (interval_ms : Z) :
  0 <= interval_ms <= 2147483 -> usleep_arg interval_ms = interval_ms * 1000.
Proof.
  intros Hi. unfold usleep_arg, uint_wrap.
  rewrite int_wrap_id by (unfold INT_MAX; lia).
  apply Z.mod_small. lia.
Qed.

(** In general the sleep is the product modulo 2^32. *)
Lemma usleep_arg_wraps (interval_ms : Z) :
  usleep_arg interval_ms = (interval_ms * 1000) mod 4294967296.
Proof.
  unfold usleep_arg, uint_wrap, int_wrap.
  set (z := interval_ms * 1000).
  pose proof (Z.div_mod (z + 2147483648) 4294967296 ltac:(lia)) as Hdm.
  replace ((z + 2147483648) mod 4294967296 - 2147483648)
    with (z + (- ((z + 2147483648) / 4294967296)) * 4294967296) by lia.
  apply Z_mod_plus_full.
Qed.

(** C6, at the argument 5000000. The interval is 5000000 ms, and every
    pass still ends with its sleep after the work; but [interval_ms * 1000]
    does not fit an [int], and the sleep is for 705032704 microseconds,
    about 705 s instead of 5000 s. *)
Theorem long_interval_sleep_wraps :
  let argv := [str "screenshot_daemon"; str "5000000"] in
  let run := main (sample_env argv) 2 empty_world in
  parse_interval argv = 5000000
  /\ List.filter is_usleep_ev (r_events run)
     = [EvUsleep 705032704; EvUsleep 705032704]
  /\ last (r_events run) = Some (EvUsleep (usleep_arg 5000000))
  /\ usleep_arg 5000000 = 705032704
  /\ usleep_arg 5000000 < 5000000 * 1000.
Proof.
  cbv zeta. split; [vm_compute; reflexivity|].
  split; [vm_compute; reflexivity|].
  split; [vm_compute; reflexivity|].
  split; [vm_compute; reflexivity|].
  vm_compute. reflexivity.
Qed.

(** ** The row buffer on a failed row write *)

(** C3, where the second row write fails. [save_png] returns -1 and has
    closed the file, but the row buffer it allocated is not freed: the
    handler that [png_error] jumps to destroys the codec and closes the
    file only. *)
Theorem save_png_leaks_row_on_write_error :
  let run := save_png png_row_fails sample_image (str "shot.png") empty_world in
  r_val run = -1
  /\ r_events run
     = [EvFopen (str "shot.png") true; EvPngCreateWrite true;
        EvPngCreateInfo true; EvPngInitIO; EvPngSetIHDR 2 2 8; EvPngWriteInfo;
        EvMalloc 6 true;
        EvPngWriteRow 0 [0x11; 0x22; 0x33; 0x12; 0x23; 0x34];
        EvPngWriteRow 1 [0x13; 0x24; 0x35; 0x14; 0x25; 0x36];
        EvPngError; EvPngDestroy; EvFclose]
  /\ open_files (r_events run) = 0
  /\ live_rows (r_events run) = 1.
Proof.
  cbv zeta. split; [vm_compute; reflexivity|].
  split; [vm_compute; reflexivity|].
  split; [apply save_png_closes_file|].
  rewrite save_png_row_leak. vm_compute. reflexivity.
Qed.

(** * Further properties *)

(** ** [save_png] *)

Lemma count_ev_cons (f : event -> bool) (ev : event) (evs : list event) :
  count_ev f (ev :: evs) = ((if f ev then 1 else 0) + count_ev f evs)%nat.
Proof. unfold count_ev. simpl. destruct (f ev); reflexivity. Qed.

Lemma written_rows_app (a b : list event) :
  written_rows (a ++ b) = written_rows a ++ written_rows b.
Proof.
  induction a as [|ev a IH]; [reflexivity|].
  destruct ev; simpl; rewrite IH; reflexivity.
Qed.

(** The rows the loop hands over are numbered from its first scanline on,
    without a gap, and stop at the first failure. *)
Lemma write_rows_written (o : png_oracle) (img : XImage) (n : nat) :
  forall y row w,
  exists m,
    (m <= n)%nat
    /\ written_rows (r_events (write_rows o img n y row w))
       = map (fun i => y + Z.of_nat i) (seq 0 m)
    /\ (is_Some (r_val (write_rows o img n y row w)) -> m = n)
    /\ count_ev is_fclose_ev (r_events (write_rows o img n y row w)) = 0%nat.
Proof.
  induction n as [|n IH]; intros y row w.
  - exists 0%nat. repeat split; reflexivity.
  - rewrite write_rows_S. unfold bindJ.
    rewrite bind_events, bind_val, png_call_world, png_call_val, png_call_events.
    destruct (write_row_ok o y).
    + destruct (IH (y + 1) (fill_row img y row) w) as (m & Hm & Hrows & Hall & Hclose).
      exists (S m). split; [lia|]. split; [|split].
      * cbn [app written_rows]. rewrite Hrows.
        cbn [seq map]. rewrite Z.add_0_r. f_equal.
        rewrite <- seq_shift, map_map. apply map_ext. intros i. lia.
      * intros Hsome. rewrite (Hall Hsome). reflexivity.
      * rewrite count_ev_app, Hclose. reflexivity.
    + exists 1%nat. split; [lia|]. split; [|split].
      * cbn. rewrite Z.add_0_r. reflexivity.
      * intros [? H]. discriminate H.
      * reflexivity.
Qed.

(** ** The normalized scanline *)

Lemma lookup_flat_map_triples {A} (f : nat -> list A) (n : nat) :
  (forall x, length (f x) = 3%nat) ->
  forall s j c, (j < n)%nat -> (c < 3)%nat ->
    flat_map f (seq s n) !! (3 * j + c)%nat = f (s + j)%nat !! c.
Proof.
  intros Hlen. induction n as [|n IH]; intros s j c Hj Hc; [lia|].
  cbn [seq flat_map]. destruct j as [|j].
  - rewrite lookup_app_l by (rewrite Hlen; lia).
    rewrite Nat.add_0_r. reflexivity.
  - rewrite lookup_app_r by (rewrite Hlen; lia).
    rewrite Hlen.
    replace (3 * S j + c - 3)%nat with (3 * j + c)%nat by lia.
    rewrite IH by lia.
    replace (S s + j)%nat with (s + S j)%nat by lia. reflexivity.
Qed.

Lemma length_flat_map_triples {A} (f : nat -> list A) (n : nat) :
  (forall x, length (f x) = 3%nat) ->
  forall s, length (flat_map f (seq s n)) = (3 * n)%nat.
Proof.
  intros Hlen. induction n as [|n IH]; intros s; [reflexivity|].
  cbn [seq flat_map]. rewrite length_app, Hlen, IH. lia.
Qed.

Lemma normalized_row_length (img : XImage) (y : Z) :
  length (normalized_row img y) = (3 * Z.to_nat (width img))%nat.
Proof.
  unfold normalized_row. apply length_flat_map_triples. reflexivity.
Qed.

(** The loop over [x] leaves the normalized scanline in the buffer. *)
Lemma fill_row_normalized (img : XImage) (y : Z) (row : list Z) :
  3 * width img <= INT_MAX ->
  length row = Z.to_nat (3 * width img) ->
  fill_row img y row = normalized_row img y.
Proof.
  intros Hmax Hlen. apply list_eq. intros i.
  destruct (Nat.lt_ge_cases i (3 * Z.to_nat (width img))) as [Hi|Hi].
  - pose proof (Nat.div_mod_eq i 3) as Hdm.
    pose proof (Nat.mod_upper_bound i 3 ltac:(lia)) as Hc.
    set (j := (i / 3)%nat) in *. set (c := (i mod 3)%nat) in *.
    clearbody j c. subst i.
    assert (Hj : (j < Z.to_nat (width img))%nat) by lia.
    destruct (fill_row_loop_at img y (Z.to_nat (width img)) 0 row (Z.of_nat j))
      as (Hr & Hg & Hb); [lia | lia | lia | lia |].
    fold (fill_row img y row) in Hr, Hg, Hb.
    unfold normalized_row.
    rewrite (lookup_flat_map_triples
               (fun x => pixel_bytes img y (Z.of_nat x)) _ (fun _ => eq_refl)
               0 j c Hj Hc).
    cbn [Nat.add pixel_bytes].
    assert (Hcases : c = 0%nat \/ c = 1%nat \/ c = 2%nat) by lia.
    destruct Hcases as [->|[->| ->]].
    + replace (3 * j + 0)%nat with (Z.to_nat (3 * Z.of_nat j)) by lia. exact Hr.
    + replace (3 * j + 1)%nat with (Z.to_nat (3 * Z.of_nat j + 1)) by lia. exact Hg.
    + replace (3 * j + 2)%nat with (Z.to_nat (3 * Z.of_nat j + 2)) by lia. exact Hb.
  - rewrite !lookup_ge_None_2; [reflexivity | |].
    + rewrite normalized_row_length. exact Hi.
    + unfold fill_row. rewrite fill_row_loop_length, Hlen. lia.
Qed.


Lemma normalized_row_bytes (img : XImage) (y : Z) :
  Forall (fun b => 0 <= b < 256) (normalized_row img y).
Proof.
  unfold normalized_row.
  induction (seq 0 (Z.to_nat (width img))) as [|x xs IH]; [constructor|].
  cbn [flat_map]. apply Forall_app. split; [|exact IH].
  unfold pixel_bytes, red_byte, green_byte, blue_byte.
  repeat constructor; apply uchar_range.
Qed.

(** X1. One pass of the loop over [x] overwrites the whole row buffer: the
    result is the normalized scanline (R, G, B of each pixel in turn, each
    a byte), whatever the buffer held before, so neither what [malloc]
    left in it nor the previous scanline shows in a row. *)
Theorem fill_row_overwrites_buffer (img : XImage) (y : Z) (row1 row2 : list Z) :
  3 * width img <= INT_MAX ->
  length row1 = Z.to_nat (3 * width img) ->
  length row2 = Z.to_nat (3 * width img) ->
  fill_row img y row1 = normalized_row img y
  /\ fill_row img y row1 = fill_row img y row2
  /\ Forall (fun b => 0 <= b < 256) (fill_row img y row1).
Proof.
  intros Hmax Hlen1 Hlen2.
  pose proof (fill_row_normalized img y row1 Hmax Hlen1) as H1.
  pose proof (fill_row_normalized img y row2 Hmax Hlen2) as H2.
  split; [exact H1|].
  split; [rewrite H1, H2; reflexivity|].
  rewrite H1. apply normalized_row_bytes.
Qed.

Lemma fill_row_overwrites_buffer_witness :
  let garbage := [0xAA; 0xAA; 0xAA; 0xAA; 0xAA; 0xAA] in
  let previous := [0x11; 0x22; 0x33; 0x12; 0x23; 0x34] in
  (3 * width sample_image <= INT_MAX
   /\ length garbage = Z.to_nat (3 * width sample_image)
   /\ length previous = Z.to_nat (3 * width sample_image))
  /\ fill_row sample_image 1 garbage = [0x13; 0x24; 0x35; 0x14; 0x25; 0x36]
  /\ fill_row sample_image 1 garbage = fill_row sample_image 1 previous.
Proof.
  cbv zeta.
  assert (H1 : 3 * width sample_image <= INT_MAX) by (vm_compute; discriminate).
  assert (H2 : length [0xAA; 0xAA; 0xAA; 0xAA; 0xAA; 0xAA]
               = Z.to_nat (3 * width sample_image)) by reflexivity.
  assert (H3 : length [0x11; 0x22; 0x33; 0x12; 0x23; 0x34]
               = Z.to_nat (3 * width sample_image)) by reflexivity.
  split; [split; [exact H1 | split; [exact H2 | exact H3]]|].
  destruct (fill_row_overwrites_buffer sample_image 1 _ _ H1 H2 H3) as (Hn & He & _).
  split; [rewrite Hn; reflexivity | exact He].
Defined.

(** ** The hard-coded shifts *)

Lemma channel_byte (p mask shift : Z) :
  0 <= shift ->
  uchar (Z.shiftr (Z.land p mask) shift)
  = Z.land (Z.shiftr p shift) (Z.land (Z.shiftr mask shift) 255).
Proof.
  intros Hs. unfold uchar.
  change 256 with (2 ^ 8). rewrite <- Z.land_ones by lia.
  change (Z.ones 8) with 255.
  rewrite Z.shiftr_land, Z.land_assoc. reflexivity.
Qed.

(** X2. With the TrueColor masks the three bytes are the three low bytes
    of the pixel: put together again they give the pixel without its bits
    above the 24th, so a 24-bit pixel is recovered exactly. *)
Theorem truecolor_bytes_recombine (img : XImage) (x y : Z) :
  red_mask img = 0xFF0000 -> green_mask img = 0xFF00 -> blue_mask img = 0xFF ->
  red_byte img x y * 65536 + green_byte img x y * 256 + blue_byte img x y
  = XGetPixel img x y mod 16777216
  /\ (0 <= XGetPixel img x y < 16777216 ->
      red_byte img x y * 65536 + green_byte img x y * 256 + blue_byte img x y
      = XGetPixel img x y).
Proof.
  intros Hr Hg Hb.
  assert (Hsum : red_byte img x y * 65536 + green_byte img x y * 256
                 + blue_byte img x y = XGetPixel img x y mod 16777216).
  { unfold red_byte, green_byte, blue_byte. rewrite Hr, Hg, Hb.
    set (p := XGetPixel img x y).
    rewrite (channel_byte p 0xFF0000 16), (channel_byte p 0xFF00 8) by lia.
    change (Z.land (Z.shiftr 0xFF0000 16) 255) with (Z.ones 8).
    change (Z.land (Z.shiftr 0xFF00 8) 255) with (Z.ones 8).
    change 0xFF with (Z.ones 8).
    rewrite !Z.land_ones, !Z.shiftr_div_pow2 by lia.
    unfold uchar. change (2 ^ 8) with 256. change (2 ^ 16) with 65536.
    rewrite Z.mod_mod by lia.
    Z.div_mod_to_equations. lia. }
  split; [exact Hsum|].
  intros Hp. rewrite Hsum. apply Z.mod_small. exact Hp.
Qed.

Lemma truecolor_bytes_recombine_witness :
  (red_mask sample_image = 0xFF0000 /\ green_mask sample_image = 0xFF00
   /\ blue_mask sample_image = 0xFF)
  /\ red_byte sample_image 1 1 * 65536 + green_byte sample_image 1 1 * 256
     + blue_byte sample_image 1 1
     = XGetPixel sample_image 1 1 mod 16777216.
Proof.
  split; [repeat split; reflexivity|].
  exact (proj1 (truecolor_bytes_recombine sample_image 1 1 eq_refl eq_refl eq_refl)).
Defined.

(** X3. The shifts do not follow the masks. Where the red mask lies in the
    low 16 bits the red byte is 0 for every pixel, and where the blue mask
    has no bit in the low byte the blue byte is 0: a BGR image comes out
    with its red and blue channels empty. *)
Theorem shifts_ignore_mask_position (img : XImage) (x y : Z) :
  (0 <= red_mask img < 65536 -> red_byte img x y = 0)
  /\ (blue_mask img mod 256 = 0 -> blue_byte img x y = 0)
  /\ (red_mask img = 0xFF -> blue_mask img = 0xFF0000 ->
      pixel_bytes img y x = [0; green_byte img x y; 0]).
Proof.
  assert (Hred : 0 <= red_mask img < 65536 -> red_byte img x y = 0).
  { intros Hm. unfold red_byte. rewrite channel_byte by lia.
    rewrite (Z.shiftr_div_pow2 (red_mask img)) by lia.
    change (2 ^ 16) with 65536.
    rewrite (Z.div_small (red_mask img)) by lia.
    rewrite Z.land_0_l, Z.land_0_r. reflexivity. }
  assert (Hblue : blue_mask img mod 256 = 0 -> blue_byte img x y = 0).
  { intros Hm. unfold blue_byte, uchar.
    change 256 with (2 ^ 8) in *. rewrite <- Z.land_ones in * by lia.
    rewrite <- Z.land_assoc, Hm, Z.land_0_r. reflexivity. }
  split; [exact Hred|]. split; [exact Hblue|].
  intros Hr Hb. unfold pixel_bytes.
  rewrite Hred by (rewrite Hr; lia).
  rewrite Hblue by (rewrite Hb; reflexivity).
  reflexivity.
Qed.

Lemma shifts_ignore_mask_position_witness :
  (red_mask bgr_image = 0xFF /\ blue_mask bgr_image = 0xFF0000)
  /\ fill_row bgr_image 0 [0xAA; 0xAA; 0xAA] = [0; 0x22; 0].
Proof.
  split; [split; reflexivity|].
  rewrite (fill_row_normalized bgr_image 0 [0xAA; 0xAA; 0xAA])
    by (vm_compute; first [discriminate | reflexivity]).
  unfold normalized_row.
  change (seq 0 (Z.to_nat (width bgr_image))) with [0%nat].
  cbn [flat_map]. change (Z.of_nat 0) with 0. rewrite app_nil_r.
  rewrite (proj2 (proj2 (shifts_ignore_mask_position bgr_image 0 0))
             eq_refl eq_refl).
  reflexivity.
Defined.

(** ** [save_png] on its paths *)

(** When no row write fails, the loop hands over the normalized scanlines
    in order. *)
Lemma write_rows_all_ok (o : png_oracle) (img : XImage) (n : nat) :
  3 * width img <= INT_MAX ->
  forall y row w,
    length row = Z.to_nat (3 * width img) ->
    forallb (fun k => write_row_ok o (y + Z.of_nat k)) (seq 0 n) = true ->
    r_events (write_rows o img n y row w)
    = map (fun k => EvPngWriteRow (y + Z.of_nat k) (normalized_row img (y + Z.of_nat k)))
        (seq 0 n).
Proof.
  intros Hmax. induction n as [|n IH]; intros y row w Hlen Hok; [reflexivity|].
  rewrite write_rows_S. unfold bindJ.
  rewrite bind_events, png_call_world, png_call_val, png_call_events.
  cbn [seq forallb] in Hok. rewrite Z.add_0_r in Hok.
  apply andb_true_iff in Hok. destruct Hok as [Hy Hrest].
  rewrite Hy, (fill_row_normalized img y row Hmax Hlen).
  rewrite (IH (y + 1) (normalized_row img y) w).
  - cbn [seq map app]. rewrite Z.add_0_r. f_equal.
    rewrite <- seq_shift, map_map. apply map_ext. intros k.
    replace (y + 1 + Z.of_nat k) with (y + Z.of_nat (S k)) by lia. reflexivity.
  - rewrite normalized_row_length. lia.
  - rewrite forallb_seq_S in Hrest.
    erewrite forallb_pointwise; [exact Hrest|].
    intros k. simpl. f_equal. lia.
Qed.

(** X4. When every step succeeds [save_png] returns 0 and does, in this
    order: open the file, create the codec, declare the header with the
    image's width and height at 8 bits, allocate a row of [3 * width]
    bytes, write the normalized scanlines 0 to [height - 1], free the row,
    finish, destroy the codec and close the file. *)
Theorem save_png_success_trace
  (o : png_oracle) (img : XImage) (filepath : cstring) (w : world) :
  all_ok o img = true ->
  0 <= width img -> 3 * width img <= INT_MAX ->
  r_val (save_png o img filepath w) = 0
  /\ r_events (save_png o img filepath w)
     = [EvFopen filepath true; EvPngCreateWrite true; EvPngCreateInfo true;
        EvPngInitIO; EvPngSetIHDR (width img) (height img) 8; EvPngWriteInfo;
        EvMalloc (3 * width img) true]
       ++ map (fun y => EvPngWriteRow (Z.of_nat y) (normalized_row img (Z.of_nat y)))
            (seq 0 (Z.to_nat (height img)))
       ++ [EvFree; EvPngWriteEnd; EvPngDestroy; EvFclose].
Proof.
  intros Hall Hw Hmax.
  split; [rewrite save_png_status, Hall; reflexivity|].
  assert (Hsize : row_size img = 3 * width img).
  { unfold row_size. rewrite int_wrap_id by (unfold INT_MAX in *; lia).
    apply Z.mod_small. unfold INT_MAX in Hmax. lia. }
  unfold all_ok, reaches_rows in Hall.
  repeat (apply andb_true_iff in Hall; destruct Hall as [? Hall]).
  repeat match goal with
         | H : _ && _ = true |- _ => apply andb_true_iff in H; destruct H
         end.
  unfold save_png, save_png_body, malloc_row, fopen.
  repeat match goal with
         | H : _ = true |- _ => rewrite H
         end.
  cbn -[write_rows Z.mul Z.modulo int_wrap row_size rows_ok normalized_row].
  match goal with
  | |- context [write_rows ?o ?i ?n ?y ?r ?w] =>
      pose proof (write_rows_all_ok o i n Hmax y r w) as Hev;
      pose proof (proj2 (write_rows_val o i n y r w)) as Hval;
      destruct (write_rows o i n y r w) as [rows_val rows_world rows_events]
  end.
  cbn [r_val r_world r_events] in *.
  rewrite Hev.
  - destruct Hval as [row Hrow]; [assumption|]. subst rows_val.
    cbn -[Z.mul normalized_row]. rewrite Hsize, app_nil_r.
    rewrite (map_ext
               (fun k => EvPngWriteRow (0 + Z.of_nat k)
                           (normalized_row img (0 + Z.of_nat k)))
               (fun y => EvPngWriteRow (Z.of_nat y) (normalized_row img (Z.of_nat y))))
      by (intros k; rewrite Z.add_0_l; reflexivity).
    reflexivity.
  - rewrite length_map, length_seq, Hsize. reflexivity.
  - assumption.
Qed.

Lemma save_png_success_trace_witness :
  (all_ok png_all_ok sample_image = true
   /\ 0 <= width sample_image /\ 3 * width sample_image <= INT_MAX)
  /\ r_events (save_png png_all_ok sample_image (str "shot.png") empty_world)
     = [EvFopen (str "shot.png") true; EvPngCreateWrite true; EvPngCreateInfo true;
        EvPngInitIO; EvPngSetIHDR 2 2 8; EvPngWriteInfo; EvMalloc 6 true;
        EvPngWriteRow 0 [0x11; 0x22; 0x33; 0x12; 0x23; 0x34];
        EvPngWriteRow 1 [0x13; 0x24; 0x35; 0x14; 0x25; 0x36];
        EvFree; EvPngWriteEnd; EvPngDestroy; EvFclose].
Proof.
  assert (H1 : all_ok png_all_ok sample_image = true) by reflexivity.
  assert (H2 : 0 <= width sample_image) by (simpl; lia).
  assert (H3 : 3 * width sample_image <= INT_MAX) by (vm_compute; discriminate).
  split; [split; [exact H1 | split; [exact H2 | exact H3]]|].
  rewrite (proj2 (save_png_success_trace png_all_ok sample_image (str "shot.png")
                    empty_world H1 H2 H3)).
  reflexivity.
Defined.

(** In the case that reaches the row loop: name the loop's run and recall
    the order of its rows and its result. *)
Ltac png_rows_written :=
  cbn -[write_rows Z.mul Z.modulo int_wrap row_size rows_ok count_ev];
  match goal with
  | |- context [write_rows ?o ?i ?n ?y ?r ?w] =>
      pose proof (write_rows_written o i n y r w) as Hwritten;
      destruct (write_rows o i n y r w) as [rows_val rows_world rows_events];
      cbn [r_val r_world r_events] in *;
      destruct Hwritten as (m & Hm & Hrows & Hall & Hclose)
  end.

(** X5. On every path, success or failure, the scanlines handed to
    [png_write_row] are 0, 1, 2, ... in this order, without a gap or a
    repeat, and at most [height] of them; when [save_png] returns 0 they
    are all of 0 to [height - 1]. *)
Theorem save_png_rows_top_to_bottom
  (o : png_oracle) (img : XImage) (filepath : cstring) (w : world) :
  exists m,
    (m <= Z.to_nat (height img))%nat
    /\ written_rows (r_events (save_png o img filepath w))
       = map Z.of_nat (seq 0 m)
    /\ (r_val (save_png o img filepath w) = 0 -> m = Z.to_nat (height img)).
Proof.
  png_stages o img;
    try (exists 0%nat; split; [lia|]; split; [reflexivity|];
         intros Hret; cbn in Hret; discriminate Hret).
  png_rows_written.
  exists m. split; [exact Hm|].
  cbn [written_rows]. rewrite !written_rows_app, Hrows.
  assert (Hmap : map (fun i => 0 + Z.of_nat i) (seq 0 m) = map Z.of_nat (seq 0 m))
    by (apply map_ext; intros i; apply Z.add_0_l).
  rewrite Hmap.
  destruct rows_val as [row|].
  - split; [|intros _; apply Hall; eexists; reflexivity].
    destruct (write_end_ok o); cbn; rewrite !app_nil_r; reflexivity.
  - split; [cbn; rewrite !app_nil_r; reflexivity|].
    intros Hret. cbn in Hret. discriminate Hret.
Qed.

(** X6. [save_png] calls [fclose] exactly once when [fopen] succeeded and
    never when it failed, whatever happens in between. *)
Theorem save_png_closes_once
  (o : png_oracle) (img : XImage) (filepath : cstring) (w : world) :
  count_ev is_fclose_ev (r_events (save_png o img filepath w))
  = if fopen_ok o then 1%nat else 0%nat.
Proof.
  png_stages o img; try reflexivity.
  png_rows_written.
  rewrite !count_ev_cons, !count_ev_app, Hclose. cbn [is_fclose_ev].
  destruct rows_val as [row|]; [destruct (write_end_ok o)|]; reflexivity.
Qed.

(** X7. [save_png] returns 0 when [fopen], the codec set-up, the header,
    the allocation, every row write and the finish all succeed, and -1 in
    every other case. *)
Theorem save_png_result
  (o : png_oracle) (img : XImage) (filepath : cstring) (w : world) :
  (r_val (save_png o img filepath w) = 0 <-> all_ok o img = true)
  /\ (r_val (save_png o img filepath w) <> 0 ->
      r_val (save_png o img filepath w) = -1).
Proof.
  rewrite save_png_status.
  destruct (all_ok o img).
  - split; [split; reflexivity|]. intros H. contradiction H. reflexivity.
  - split; [split; discriminate|]. intros _. reflexivity.
Qed.

(** X8. The row buffer is released on every path but one: it is still
    allocated at the return exactly when it was allocated and a row write
    failed; [save_png] then returns -1, with the file closed. *)
Theorem save_png_row_buffer
  (o : png_oracle) (img : XImage) (filepath : cstring) (w : world) :
  (all_ok o img = true -> live_rows (r_events (save_png o img filepath w)) = 0)
  /\ (reaches_rows o img = false ->
      live_rows (r_events (save_png o img filepath w)) = 0)
  /\ (reaches_rows o img = true -> rows_ok o img = true ->
      live_rows (r_events (save_png o img filepath w)) = 0)
  /\ (reaches_rows o img = true -> rows_ok o img = false ->
      live_rows (r_events (save_png o img filepath w)) = 1
      /\ r_val (save_png o img filepath w) = -1
      /\ open_files (r_events (save_png o img filepath w)) = 0).
Proof.
  rewrite save_png_row_leak, save_png_status, save_png_closes_file.
  unfold all_ok.
  destruct (reaches_rows o img), (rows_ok o img); simpl;
    repeat split; try reflexivity; intros; try discriminate.
Qed.

(** X9. The image is written in place. After a successful [fopen] the
    destination is on disk when [save_png] returns, also when it returns
    -1, and no other file or directory has changed; after a failed
    [fopen] nothing has changed and only the error is reported. *)
Theorem save_png_writes_in_place
  (o : png_oracle) (img : XImage) (filepath : cstring) (w : world) :
  (fopen_ok o = true ->
     In filepath (w_files (r_world (save_png o img filepath w)))
     /\ (forall f, In f (w_files (r_world (save_png o img filepath w))) ->
                   f = filepath \/ In f (w_files w))
     /\ (forall f, In f (w_files w) ->
                   In f (w_files (r_world (save_png o img filepath w))))
     /\ w_dirs (r_world (save_png o img filepath w)) = w_dirs w)
  /\ (fopen_ok o = false ->
      r_world (save_png o img filepath w) = w
      /\ r_val (save_png o img filepath w) = -1
      /\ r_events (save_png o img filepath w)
         = [EvFopen filepath false; EvPerror (str "fopen")]).
Proof.
  split.
  - intros Hopen. rewrite save_png_dirs, save_png_files, Hopen. cbn [andb].
    destruct (exists_in (w_files w) filepath) eqn:Hex; cbn [negb].
    + apply exists_in_In in Hex. repeat split; auto.
    + repeat split.
      * apply in_or_app. right. left. reflexivity.
      * intros f Hf. apply in_app_or in Hf.
        destruct Hf as [Hf|[<-|[]]]; [right; exact Hf | left; reflexivity].
      * intros f Hf. apply in_or_app. left. exact Hf.
  - intros Hopen. rewrite save_png_world, Hopen. cbn [andb].
    split; [destruct w; reflexivity|].
    split.
    + rewrite save_png_status. unfold all_ok, reaches_rows. rewrite Hopen. reflexivity.
    + unfold save_png, fopen. rewrite Hopen. reflexivity.
Qed.

(** ** [mkdir_p]: which directories, in which order *)

Lemma char_at_take (t : cstring) (i j : nat) :
  (j < i)%nat -> char_at (take i t) j = char_at t j.
Proof. intros Hj. unfold char_at. rewrite lookup_take_lt by exact Hj. reflexivity. Qed.

Lemma slash_prefixes_In (t : cstring) (n : nat) : forall i p,
  In p (slash_prefixes t n i)
  <-> exists j, (i <= j < i + n)%nat /\ char_at t j = SLASH /\ p = take j t.
Proof.
  induction n as [|n IH]; intros i p; cbn [slash_prefixes].
  - split; [intros [] | intros (j & Hj & _); lia].
  - destruct (Ascii.eqb (char_at t i) SLASH) eqn:Hslash.
    + apply Ascii.eqb_eq in Hslash. cbn [In]. rewrite IH. split.
      * intros [<-|(j & Hj & Hc & ->)].
        -- exists i. split; [lia|]. split; [exact Hslash | reflexivity].
        -- exists j. split; [lia|]. split; [exact Hc | reflexivity].
      * intros (j & Hj & Hc & ->).
        destruct (Nat.eq_dec j i) as [->|Hne]; [left; reflexivity|].
        right. exists j. split; [lia|]. split; [exact Hc | reflexivity].
    + rewrite IH. split.
      * intros (j & Hj & Hc & ->).
        exists j. split; [lia|]. split; [exact Hc | reflexivity].
      * intros (j & Hj & Hc & ->).
        destruct (Nat.eq_dec j i) as [->|Hne].
        -- rewrite Hc in Hslash. discriminate Hslash.
        -- exists j. split; [lia|]. split; [exact Hc | reflexivity].
Qed.

Lemma mkdir_args_events (ps : list cstring) (mode : Z) : forall dirs,
  mkdir_args (mkdir_events ps mode dirs) = map (fun p => (p, mode)) ps.
Proof.
  induction ps as [|p ps IH]; intros dirs; [reflexivity|].
  cbn [mkdir_events mkdir_args map]. rewrite IH. reflexivity.
Qed.

(** X10. For a non-empty path, [mkdir_p] calls [mkdir], with the given
    mode, on every proper prefix of the path that ends just before a slash
    (the slash at the very start apart), from the shortest to the longest,
    and last on the whole path (cut to 511 characters, without one
    trailing slash), and on nothing else. *)
Theorem mkdir_p_calls (path : cstring) (mode : Z) (w : world) :
  c_str path <> [] ->
  let t := mkdir_p_target path in
  mkdir_args (r_events (mkdir_p path mode w))
  = map (fun p => (p, mode)) (mkdir_p_paths path)
  /\ (forall p, In p (mkdir_p_paths path)
                <-> p = t
                    \/ exists j, (1 <= j < length t)%nat
                                 /\ char_at t j = SLASH /\ p = take j t)
  /\ increasing (mkdir_p_paths path)
  /\ (exists before, mkdir_p_paths path = before ++ [t]).
Proof.
  intros Hpath. cbv zeta.
  destruct (mkdir_p_paths_run path mode w Hpath) as [Hev _].
  split; [rewrite Hev; apply mkdir_args_events|].
  split; [|split; [apply mkdir_p_paths_increasing | eexists; reflexivity]].
  intros p. unfold mkdir_p_paths. rewrite in_app_iff, slash_prefixes_In.
  cbn [In]. split.
  - intros [(j & Hj & Hc & ->)|[<-|[]]]; [right | left; reflexivity].
    exists j. split; [lia|]. split; [exact Hc | reflexivity].
  - intros [->|(j & Hj & Hc & ->)]; [right; left; reflexivity|].
    left. exists j. split; [lia|]. split; [exact Hc | reflexivity].
Qed.

Lemma mkdir_p_calls_witness :
  c_str (str "/home/u/Screenshots/") <> []
  /\ mkdir_args (r_events (mkdir_p (str "/home/u/Screenshots/") 493 empty_world))
     = [(str "/home", 493); (str "/home/u", 493); (str "/home/u/Screenshots", 493)].
Proof.
  assert (H : c_str (str "/home/u/Screenshots/") <> []) by (vm_compute; discriminate).
  split; [exact H|].
  rewrite (proj1 (mkdir_p_calls (str "/home/u/Screenshots/") 493 empty_world H)).
  vm_compute. reflexivity.
Defined.

Lemma strip_leaf_cases (l : cstring) :
  strip_leaf l = [] \/ exists a, l = a ++ SLASH :: strip_leaf l.
Proof.
  induction l as [|c l IH]; [left; reflexivity|].
  cbn [strip_leaf]. destruct (Ascii.eqb c SLASH) eqn:Hc.
  - apply Ascii.eqb_eq in Hc. subst c. right. exists []. reflexivity.
  - destruct IH as [->|(a & Ha)]; [left; reflexivity|].
    right. exists (c :: a). cbn [app]. rewrite <- Ha. reflexivity.
Qed.

(** The parent of a path is empty or is the path cut at one of its
    slashes, not the first character. *)
Lemma parent_cases (q : cstring) :
  parent q = []
  \/ exists j, (1 <= j < length q)%nat /\ char_at q j = SLASH
               /\ parent q = take j q.
Proof.
  unfold parent.
  destruct (strip_leaf_cases (rev q)) as [->|(a & Ha)]; [left; reflexivity|].
  destruct (strip_leaf (rev q)) as [|c s] eqn:Hs; [left; reflexivity|].
  right.
  assert (Hq : q = rev (c :: s) ++ SLASH :: rev a).
  { rewrite <- (rev_involutive q), Ha, rev_app_distr.
    cbn [rev]. rewrite <- !app_assoc. reflexivity. }
  assert (Hpre : (1 <= length (rev (c :: s)))%nat).
  { rewrite length_rev. cbn [length]. lia. }
  clear Hs Ha. set (pre := rev (c :: s)) in *. clearbody pre. subst q.
  exists (length pre). split; [|split].
  - rewrite length_app. cbn [length]. lia.
  - unfold char_at. rewrite lookup_app_r by lia.
    rewrite Nat.sub_diag. reflexivity.
  - rewrite take_app_length. reflexivity.
Qed.

(** On the file system of the model a directory whose parent is there
    can be made, and one that is there cannot. *)
Lemma model_answer_creates (w : world) (p : cstring) :
  p <> [] -> ~ In p (w_dirs w) ->
  parent p = [] \/ In (parent p) (w_dirs w) -> model_answer w p = 0.
Proof.
  intros Hp Hnew Hparent. unfold model_answer, mkdir_ret.
  destruct (cstring_eqb p []) eqn:Hempty.
  { apply cstring_eqb_eq in Hempty. contradiction. }
  destruct (exists_in (w_dirs w) p) eqn:Hex.
  { apply exists_in_In in Hex. contradiction. }
  destruct Hparent as [->|Hin]; [reflexivity|].
  apply exists_in_In in Hin. rewrite Hin, orb_true_r. reflexivity.
Qed.

Lemma model_answer_exists (w : world) (p : cstring) :
  In p (w_dirs w) -> model_answer w p <> 0.
Proof.
  intros Hin. unfold model_answer. rewrite (mkdir_ret_exists _ _ Hin). discriminate.
Qed.

Section MakesChain.
Variable answer : world -> cstring -> Z.

Lemma mkdir_world_In (w : world) (p q : cstring) :
  In q (w_dirs (mkdir_world answer w p))
  <-> In q (w_dirs w) \/ (q = p /\ answer w p = 0).
Proof.
  unfold mkdir_world. cbn [w_dirs].
  destruct (answer w p =? 0) eqn:Hz.
  - apply Z.eqb_eq in Hz. rewrite in_app_iff. cbn [In]. intuition.
  - apply Z.eqb_neq in Hz. intuition.
Qed.

(** Paths that come after their parents all get made, on a file system
    that lets each of them be made once its parent is there. *)
Lemma mkdir_worlds_create (ps : list cstring) : forall seen w,
  parents_first seen ps ->
  (forall q, In q seen -> In q (w_dirs w)) ->
  (forall p w', In p ps -> ~ In p (w_dirs w') ->
                parent p = [] \/ In (parent p) (w_dirs w') -> answer w' p = 0) ->
  forall p, In p ps -> In p (w_dirs (fold_left (mkdir_world answer) ps w)).
Proof.
  induction ps as [|p0 ps IH]; intros seen w Hpf Hseen Hcreate p Hp; [destruct Hp|].
  destruct Hpf as (Hne & Hparent & Hrest). cbn [fold_left].
  assert (Hnew : In p0 (w_dirs (mkdir_world answer w p0))).
  { apply mkdir_world_In.
    destruct (exists_in (w_dirs w) p0) eqn:Hex;
      [left; apply exists_in_In; exact Hex|].
    right. split; [reflexivity|].
    apply Hcreate; [left; reflexivity | |].
    - intros Hin. apply exists_in_In in Hin. rewrite Hin in Hex. discriminate Hex.
    - destruct Hparent as [H|H]; [left; exact H | right; apply Hseen; exact H]. }
  destruct Hp as [<-|Hp]; [apply mkdir_worlds_mono; exact Hnew|].
  apply (IH (p0 :: seen)); [exact Hrest | | | exact Hp].
  - intros q [<-|Hq]; [exact Hnew|].
    apply mkdir_world_In. left. apply Hseen. exact Hq.
  - intros q w' Hq. apply Hcreate. right. exact Hq.
Qed.

(** Calls of [mkdir] make nothing but the paths they are given. *)
Lemma mkdir_worlds_only (ps : list cstring) : forall w q,
  In q (w_dirs (fold_left (mkdir_world answer) ps w)) -> In q (w_dirs w) \/ In q ps.
Proof.
  induction ps as [|p ps IH]; intros w q Hq; [left; exact Hq|].
  cbn [fold_left] in Hq. apply IH in Hq.
  destruct Hq as [Hq|Hq]; [|right; right; exact Hq].
  apply mkdir_world_In in Hq.
  destruct Hq as [Hq|[-> _]]; [left; exact Hq | right; left; reflexivity].
Qed.
End MakesChain.

Lemma parents_first_app (seen a b : list cstring) :
  parents_first seen (a ++ b) -> parents_first seen a.
Proof.
  revert seen. induction a as [|p a IH]; intros seen Hpf; [exact I|].
  destruct Hpf as (Hne & Hparent & Hrest).
  split; [exact Hne|]. split; [exact Hparent|]. apply IH. exact Hrest.
Qed.

(** The paths of [mkdir_p] come after their parents. *)
Lemma slash_prefixes_parents_first (t : cstring) (n : nat) : forall i seen,
  (1 <= i)%nat -> (i + n = length t)%nat ->
  (forall j, (1 <= j < i)%nat -> char_at t j = SLASH -> In (take j t) seen) ->
  parents_first seen (slash_prefixes t n i ++ [t]).
Proof.
  assert (Hparent : forall i seen,
             (1 <= i <= length t)%nat ->
             (forall j, (1 <= j < i)%nat -> char_at t j = SLASH -> In (take j t) seen) ->
             take i t <> []
             /\ (parent (take i t) = [] \/ In (parent (take i t)) seen)).
  { intros i seen Hi Hseen. split.
    - intros Hnil. apply (f_equal (@length ascii)) in Hnil.
      rewrite length_take in Hnil. simpl in Hnil. lia.
    - destruct (parent_cases (take i t)) as [H|(j & Hj & Hc & ->)]; [left; exact H|].
      rewrite length_take in Hj.
      right. rewrite take_take. replace (j `min` i)%nat with j by lia.
      apply Hseen; [lia|]. rewrite <- Hc. symmetry. apply char_at_take. lia. }
  induction n as [|n IH]; intros i seen Hi Hn Hseen.
  - cbn [slash_prefixes app parents_first].
    destruct (Hparent (length t) seen) as [Hne Hp]; [lia | |].
    { intros j Hj. apply Hseen. lia. }
    rewrite take_ge in Hne, Hp by lia.
    split; [exact Hne|]. split; [exact Hp | exact I].
  - cbn [slash_prefixes].
    destruct (Ascii.eqb (char_at t i) SLASH) eqn:Hslash.
    + destruct (Hparent i seen) as [Hne Hp]; [lia | exact Hseen |].
      cbn [app parents_first].
      split; [exact Hne|]. split; [exact Hp|].
      apply IH; [lia | lia |].
      intros j Hj Hc. destruct (Nat.eq_dec j i) as [->|Hne'];
        [left; reflexivity | right; apply Hseen; [lia | exact Hc]].
    + apply IH; [lia | lia |].
      intros j Hj Hc. destruct (Nat.eq_dec j i) as [->|Hne'].
      * rewrite Hc in Hslash. discriminate Hslash.
      * apply Hseen; [lia | exact Hc].
Qed.

Lemma mkdir_p_paths_parents_first (path : cstring) :
  mkdir_p_target path <> [] -> parents_first [] (mkdir_p_paths path).
Proof.
  intros Ht. unfold mkdir_p_paths.
  assert (Hlen : (0 < length (mkdir_p_target path))%nat).
  { destruct (mkdir_p_target path); [congruence | simpl; lia]. }
  apply slash_prefixes_parents_first; [lia | lia |].
  intros j Hj. lia.
Qed.

(** X11. [mkdir_p] does what [mkdir -p] does, on a file system that
    lets it.  Take any file system that lets each directory of the chain
    be made once its parent is there, and refuses to make one that is
    there.  After [mkdir_p] on a path that is not just a slash every
    directory of the chain exists, whatever was there before; nothing
    was removed, nothing outside the chain was made, and the value is 0
    exactly when the whole path did not exist before. *)
Theorem mkdir_p_creates_chain (answer : world -> cstring -> Z) (path : cstring)
  (mode : Z) (w : world) :
  c_str path <> [] ->
  mkdir_p_target path <> [] ->
  (forall p w', In p (mkdir_p_paths path) -> ~ In p (w_dirs w') ->
                parent p = [] \/ In (parent p) (w_dirs w') -> answer w' p = 0) ->
  (forall p w', In p (mkdir_p_paths path) -> In p (w_dirs w') -> answer w' p <> 0) ->
  let after := w_dirs (r_world (mkdir_p_on answer path mode w)) in
  (forall p, In p (mkdir_p_paths path) -> In p after)
  /\ In (mkdir_p_target path) after
  /\ (forall q, In q (w_dirs w) -> In q after)
  /\ (forall q, In q after -> In q (w_dirs w) \/ In q (mkdir_p_paths path))
  /\ (r_val (mkdir_p_on answer path mode w) = 0
      <-> ~ In (mkdir_p_target path) (w_dirs w)).
Proof.
  intros Hpath Ht Hcreate Hexist. cbv zeta.
  rewrite (mkdir_p_on_run answer mode path w Hpath). cbn [r_val r_world].
  pose proof (mkdir_p_paths_parents_first path Ht) as Hpf.
  unfold mkdir_p_paths in *.
  set (t := mkdir_p_target path) in *.
  set (before := slash_prefixes t (length t - 1) 1) in *.
  change (mkdir_world answer (fold_left (mkdir_world answer) before w) t)
    with (fold_left (mkdir_world answer) [t]
            (fold_left (mkdir_world answer) before w)).
  rewrite <- fold_left_app.
  assert (Hall : forall p, In p (before ++ [t]) ->
                   In p (w_dirs (fold_left (mkdir_world answer) (before ++ [t]) w))).
  { apply (mkdir_worlds_create answer _ [] w Hpf); [intros q []|]. exact Hcreate. }
  split; [exact Hall|].
  split; [apply Hall; apply in_or_app; right; left; reflexivity|].
  split; [intros q Hq; apply mkdir_worlds_mono; exact Hq|].
  split; [intros q Hq; apply (mkdir_worlds_only answer _ _ _ Hq)|].
  assert (Hin_t : In t (before ++ [t])) by (apply in_or_app; right; left; reflexivity).
  assert (Hsame : In t (w_dirs (fold_left (mkdir_world answer) before w))
                  <-> In t (w_dirs w)).
  { split; [|apply mkdir_worlds_mono].
    intros Hin. apply mkdir_worlds_only in Hin.
    destruct Hin as [Hin|Hin]; [exact Hin|].
    apply slash_prefixes_In in Hin. destruct Hin as (j & Hj & _ & Heq).
    apply (f_equal (@length ascii)) in Heq. rewrite length_take in Heq. lia. }
  split.
  - intros Hret Hin. apply Hsame in Hin.
    apply (Hexist t _ Hin_t Hin). exact Hret.
  - intros Hnew. apply Hcreate; [exact Hin_t | rewrite Hsame; exact Hnew |].
    destruct (parent_cases t) as [H|(j & Hj & Hc & ->)]; [left; exact H|].
    right.
    apply (mkdir_worlds_create answer before [] w).
    + apply (parents_first_app [] before [t]). exact Hpf.
    + intros q [].
    + intros p w' Hp. apply Hcreate. apply in_or_app. left. exact Hp.
    + apply slash_prefixes_In. exists j.
      split; [lia|]. split; [exact Hc | reflexivity].
Qed.

Lemma mkdir_p_creates_chain_witness :
  let path := str "/home/u/Screenshots/2026/10/03/07" in
  (c_str path <> [] /\ mkdir_p_target path <> []
   /\ (forall p w', In p (mkdir_p_paths path) -> ~ In p (w_dirs w') ->
                    parent p = [] \/ In (parent p) (w_dirs w') ->
                    model_answer w' p = 0)
   /\ (forall p w', In p (mkdir_p_paths path) -> In p (w_dirs w') ->
                    model_answer w' p <> 0))
  /\ In (str "/home/u/Screenshots/2026/10")
       (w_dirs (r_world (mkdir_p_on model_answer path 493 home_world)))
  /\ In path (w_dirs (r_world (mkdir_p_on model_answer path 493 home_world)))
  /\ r_val (mkdir_p_on model_answer path 493 home_world) = 0.
Proof.
  cbv zeta.
  assert (H1 : c_str (str "/home/u/Screenshots/2026/10/03/07") <> [])
    by (vm_compute; discriminate).
  assert (H2 : mkdir_p_target (str "/home/u/Screenshots/2026/10/03/07") <> [])
    by (vm_compute; discriminate).
  assert (H3 : forall p w',
             In p (mkdir_p_paths (str "/home/u/Screenshots/2026/10/03/07")) ->
             ~ In p (w_dirs w') ->
             parent p = [] \/ In (parent p) (w_dirs w') -> model_answer w' p = 0).
  { intros p w' Hp. apply model_answer_creates.
    pose proof (mkdir_p_paths_parents_first _ H2) as Hpf.
    intros ->. vm_compute in Hp.
    repeat (destruct Hp as [Hp|Hp]; [discriminate Hp|]). exact Hp. }
  assert (H4 : forall p w',
             In p (mkdir_p_paths (str "/home/u/Screenshots/2026/10/03/07")) ->
             In p (w_dirs w') -> model_answer w' p <> 0).
  { intros p w' _. apply model_answer_exists. }
  split; [repeat split; assumption|].
  destruct (mkdir_p_creates_chain model_answer
              (str "/home/u/Screenshots/2026/10/03/07") 493 home_world H1 H2 H3 H4)
    as (Hall & Hlast & _ & _ & Hval).
  split; [|split; [exact Hlast|]].
  - apply Hall. vm_compute. do 4 right. left. reflexivity.
  - apply Hval. vm_compute. intros H.
    repeat (destruct H as [H|H]; [discriminate H|]). exact H.
Defined.

(** ** [mkdir_p]: the buffer *)

Lemma mkdir_p_buffer (p1 p2 : cstring) (mode : Z) (w : world) :
  snprintf 512 (fmt_s p1) = snprintf 512 (fmt_s p2) ->
  mkdir_p p1 mode w = mkdir_p p2 mode w.
Proof. intros Heq. unfold mkdir_p. rewrite Heq. reflexivity. Qed.

Lemma mkdir_p_target_plain (p : cstring) :
  nul_free p -> (length p <= 511)%nat ->
  Ascii.eqb (char_at p (length p - 1)) SLASH = false ->
  mkdir_p_target p = p.
Proof.
  intros Hnul Hlen Hlast. unfold mkdir_p_target, fmt_s.
  rewrite (c_str_id p Hnul), (snprintf_fits 512 p) by lia.
  rewrite Hlast. reflexivity.
Qed.

Lemma mkdir_p_target_slash (p : cstring) :
  nul_free p -> (length p <= 510)%nat ->
  mkdir_p_target (p ++ [SLASH]) = p.
Proof.
  intros Hnul Hlen. unfold mkdir_p_target, fmt_s.
  assert (Hnul' : nul_free (p ++ [SLASH]))
    by (apply nul_free_app; [exact Hnul | repeat constructor]).
  rewrite (c_str_id _ Hnul'), (snprintf_fits 512)
    by (rewrite length_app; cbn [length]; lia).
  rewrite length_app. cbn [length].
  replace (length p + 1 - 1)%nat with (length p) by lia.
  unfold char_at. rewrite lookup_app_r by lia. rewrite Nat.sub_diag.
  cbn [lookup list_lookup]. change (Ascii.eqb SLASH SLASH) with true. cbv iota.
  apply take_app_length.
Qed.

(** X12. One slash at the end of the path makes no difference: [mkdir_p]
    on a path and on the same path followed by a slash make the same
    calls, leave the same disk and return the same value. *)
Theorem mkdir_p_trailing_slash (p : cstring) (mode : Z) (w : world) :
  nul_free p -> p <> [] -> (length p <= 510)%nat ->
  Ascii.eqb (char_at p (length p - 1)) SLASH = false ->
  mkdir_p (p ++ [SLASH]) mode w = mkdir_p p mode w.
Proof.
  intros Hnul Hne Hlen Hlast.
  assert (Hnul' : nul_free (p ++ [SLASH]))
    by (apply nul_free_app; [exact Hnul | repeat constructor]).
  assert (H1 : c_str (p ++ [SLASH]) <> []).
  { rewrite (c_str_id _ Hnul'). destruct p; discriminate. }
  assert (H2 : c_str p <> []) by (rewrite (c_str_id _ Hnul); exact Hne).
  rewrite (mkdir_p_run _ mode w H1), (mkdir_p_run _ mode w H2).
  rewrite (mkdir_p_target_slash p Hnul Hlen).
  rewrite (mkdir_p_target_plain p Hnul ltac:(lia) Hlast).
  reflexivity.
Qed.

Lemma mkdir_p_trailing_slash_witness :
  (nul_free (str "shots/2026") /\ str "shots/2026" <> []
   /\ (length (str "shots/2026") <= 510)%nat
   /\ Ascii.eqb (char_at (str "shots/2026") (length (str "shots/2026") - 1)) SLASH
      = false)
  /\ mkdir_p (str "shots/2026/") 493 empty_world
     = mkdir_p (str "shots/2026") 493 empty_world.
Proof.
  assert (H1 : nul_free (str "shots/2026")) by (repeat constructor).
  assert (H2 : str "shots/2026" <> []) by discriminate.
  assert (H3 : (length (str "shots/2026") <= 510)%nat) by (simpl; lia).
  assert (H4 : Ascii.eqb (char_at (str "shots/2026")
                            (length (str "shots/2026") - 1)) SLASH = false)
    by reflexivity.
  split; [split; [exact H1 | split; [exact H2 | split; [exact H3 | exact H4]]]|].
  exact (mkdir_p_trailing_slash (str "shots/2026") 493 empty_world H1 H2 H3 H4).
Defined.

(** X13. [mkdir_p] works on a copy of at most 511 characters: what the
    path has beyond them is ignored, silently. *)
Theorem mkdir_p_ignores_past_511 (path : cstring) (mode : Z) (w : world) :
  mkdir_p path mode w = mkdir_p (take 511 (c_str path)) mode w
  /\ (length (mkdir_p_target path) <= 511)%nat
  /\ forall rest1 rest2,
       nul_free path -> length path = 511%nat ->
       mkdir_p (path ++ c_str rest1) mode w = mkdir_p (path ++ c_str rest2) mode w.
Proof.
  assert (Hcut : forall p, snprintf 512 (fmt_s (take 511 (c_str p)))
                           = snprintf 512 (fmt_s p)).
  { intros p. unfold snprintf, fmt_s. change (512 - 1)%nat with 511%nat.
    rewrite (c_str_id (take 511 (c_str p)))
      by (apply nul_free_take, c_str_nul_free).
    rewrite take_take. replace (511 `min` 511)%nat with 511%nat by lia.
    reflexivity. }
  split; [apply mkdir_p_buffer; symmetry; apply Hcut|].
  split.
  - unfold mkdir_p_target, snprintf. change (512 - 1)%nat with 511%nat.
    destruct (Ascii.eqb _ SLASH); rewrite ?length_take; lia.
  - intros rest1 rest2 Hnul Hlen. apply mkdir_p_buffer.
    unfold snprintf, fmt_s. change (512 - 1)%nat with 511%nat.
    rewrite (c_str_id (path ++ c_str rest1)), (c_str_id (path ++ c_str rest2))
      by (apply nul_free_app; [exact Hnul | apply c_str_nul_free]).
    rewrite <- Hlen, !take_app_length. reflexivity.
Qed.

(** ** [random_hex]: the draws *)

(** X14. [random_hex] calls [rand] exactly [len] times and nothing else;
    the name has [len] characters, and its [i]-th character is the
    hexadecimal digit for the [i]-th value drawn, modulo 16. *)
Theorem random_hex_draws (e : env) (len : nat) (w : world) :
  r_val (random_hex e len w)
  = map (fun i => hex_digit_of (env_rand e (w_rand_calls w + i))) (seq 0 len)
  /\ r_events (random_hex e len w)
     = map (fun i => EvRand (env_rand e (w_rand_calls w + i))) (seq 0 len)
  /\ length (r_val (random_hex e len w)) = len
  /\ r_world (random_hex e len w)
     = {| w_dirs := w_dirs w; w_files := w_files w;
          w_rand_calls := w_rand_calls w + len |}.
Proof.
  revert w. induction len as [|len IH]; intros w.
  - repeat split. destruct w; cbn. rewrite Nat.add_0_r. reflexivity.
  - rewrite random_hex_S. run_norm. rewrite rand_run.
    cbn [r_val r_world r_events].
    destruct (IH {| w_dirs := w_dirs w; w_files := w_files w;
                    w_rand_calls := S (w_rand_calls w) |}) as (Hv & Hev & Hlen & Hw).
    cbn [w_dirs w_files w_rand_calls] in *.
    assert (Hshift : forall A (f : nat -> A),
               map (fun i => f (S (w_rand_calls w) + i)%nat) (seq 0 len)
               = map (fun i => f (w_rand_calls w + i)%nat) (seq 1 len)).
    { intros A f. rewrite <- seq_shift, map_map. apply map_ext. intros i.
      f_equal. lia. }
    rewrite Hv, Hev, Hw, app_nil_r.
    rewrite (Hshift _ (fun j => hex_digit_of (env_rand e j))).
    rewrite (Hshift _ (fun j => EvRand (env_rand e j))).
    cbn [seq map app length]. rewrite Nat.add_0_r, length_map, length_seq.
    repeat split. f_equal. lia.
Qed.

(** ** The file path *)

Lemma fmt_u_nul_free (n : Z) : 0 <= n -> nul_free (fmt_u n).
Proof.
  intros Hn. apply digits_nul_free. unfold fmt_u.
  apply (dec_digits_spec _ n (conj Hn (fmt_u_fuel n Hn))).
Qed.

Lemma fmt_0d_nul_free (w : nat) (z : Z) : nul_free (fmt_0d w z).
Proof.
  assert (Hpad : forall m s, nul_free s -> nul_free (zero_pad m s)).
  { intros m s Hs. unfold zero_pad. apply nul_free_app; [|exact Hs].
    apply digits_nul_free, zeros_are_digits. }
  unfold fmt_0d. destruct (z <? 0) eqn:Hneg.
  - apply Z.ltb_lt in Hneg. constructor; [reflexivity|].
    apply Hpad, fmt_u_nul_free. lia.
  - apply Z.ltb_ge in Hneg. apply Hpad, fmt_u_nul_free. exact Hneg.
Qed.

Lemma dirpath_of_any_nul_free (home : cstring) (t : tm) :
  nul_free (dirpath_of home t).
Proof.
  unfold dirpath_of, snprintf, fmt_s. apply nul_free_take.
  repeat apply nul_free_app;
    first [ apply c_str_nul_free | apply fmt_0d_nul_free | repeat constructor ].
Qed.

Lemma pass_filepath_parts (e : env) (home : cstring) (k : nat) (w : world) :
  (forall i, 0 <= env_rand e i) ->
  pass_filepath e home k w
  = pass_dirpath e home k ++ str "/" ++ r_val (pass_name e home k w) ++ str ".png".
Proof.
  intros Hrand.
  destruct (random_hex_name e RANDOM_NAME_LEN (r_world (pass_dirs e home k w)) Hrand)
    as [Hn Hhex].
  fold (pass_name e home k w) in Hn, Hhex.
  assert (Hd : (length (pass_dirpath e home k) <= 511)%nat).
  { unfold pass_dirpath, dirpath_of, snprintf. rewrite length_take. lia. }
  unfold pass_filepath, filepath_of, fmt_s.
  rewrite (c_str_id (pass_dirpath e home k))
    by (apply dirpath_of_any_nul_free).
  rewrite (c_str_id _ (hex_nul_free _ Hhex)).
  apply snprintf_fits.
  rewrite !length_app, Hn.
  change (length (str "/")) with 1%nat.
  change (length (str ".png")) with 4%nat.
  change RANDOM_NAME_LEN with 8%nat. lia.
Qed.

(** X15. The second buffer never cuts the path. Whatever the home
    directory and the time, the directory path has at most 511 characters
    and the file path is the directory path, a slash, the 8-character name
    and ".png" in full, also when the directory path itself was cut. *)
Theorem filepath_keeps_name (e : env) (home : cstring) (k : nat) (w : world) :
  (forall i, 0 <= env_rand e i) ->
  pass_filepath e home k w
  = pass_dirpath e home k ++ str "/" ++ r_val (pass_name e home k w) ++ str ".png"
  /\ (length (pass_dirpath e home k) <= 511)%nat
  /\ (length (pass_filepath e home k w) <= 524)%nat.
Proof.
  intros Hrand.
  destruct (random_hex_name e RANDOM_NAME_LEN (r_world (pass_dirs e home k w)) Hrand)
    as [Hn Hhex].
  fold (pass_name e home k w) in Hn, Hhex.
  assert (Hd : (length (pass_dirpath e home k) <= 511)%nat).
  { unfold pass_dirpath, dirpath_of, snprintf. rewrite length_take. lia. }
  pose proof (pass_filepath_parts e home k w Hrand) as Hpath.
  split; [exact Hpath|]. split; [exact Hd|].
  rewrite Hpath, !length_app, Hn.
  change (length (str "/")) with 1%nat.
  change (length (str ".png")) with 4%nat.
  change RANDOM_NAME_LEN with 8%nat. lia.
Qed.

Lemma filepath_keeps_name_witness :
  let e := sample_env [str "screenshot_daemon"] in
  (forall i, 0 <= env_rand e i)
  /\ pass_filepath e long_home 0 empty_world
     = pass_dirpath e long_home 0 ++ str "/3a18f6d4.png"
  /\ length (pass_dirpath e long_home 0) = 511%nat.
Proof.
  cbv zeta.
  assert (H : forall i, 0 <= env_rand (sample_env [str "screenshot_daemon"]) i)
    by (intros i; simpl; lia).
  split; [exact H|].
  split; [|vm_compute; reflexivity].
  rewrite (proj1 (filepath_keeps_name (sample_env [str "screenshot_daemon"])
                    long_home 0 empty_world H)).
  f_equal.
Defined.

(** ** The loop, pass after pass *)

(** X16. Every pass, captured or not, saved or not, is its work followed
    by one sleep, for any interval: the argument of [usleep] is
    [interval_ms * 1000] modulo 2^32 (the [int] product wraps and is
    converted to [useconds_t]), and the work holds no sleep.  For an
    interval from 0 to 2147483 ms that argument is exactly
    [interval_ms * 1000] microseconds. *)
Theorem pass_ends_with_interval_sleep
  (e : env) (home : cstring) (interval_ms scr_w scr_h : Z) (k : nat) (w : world) :
  (exists work,
      r_events (iteration e home interval_ms scr_w scr_h k w)
      = work ++ [EvUsleep ((interval_ms * 1000) mod 4294967296)]
      /\ Forall (fun ev => is_work_ev ev = true) work
      /\ count_ev is_usleep_ev work = 0%nat)
  /\ (0 <= interval_ms <= 2147483 ->
      (interval_ms * 1000) mod 4294967296 = interval_ms * 1000).
Proof.
  destruct (iteration_work_then_sleep e home interval_ms scr_w scr_h k w)
    as (work & Hev & Hwork).
  split.
  - exists work. rewrite Hev, usleep_arg_wraps.
    split; [reflexivity|]. split; [exact Hwork|].
    apply (work_no_sleep work is_usleep_ev work_not_usleep Hwork).
  - intros Hi. rewrite <- usleep_arg_wraps. apply usleep_arg_exact. exact Hi.
Qed.

Lemma pass_ends_with_interval_sleep_witness :
  0 <= 250 <= 2147483
  /\ last (r_events (iteration (sample_env [str "screenshot_daemon"; str "250"])
                       (str "/home/u") 250 2 2 0 empty_world))
     = Some (EvUsleep 250000)
  /\ last (r_events (iteration (sample_env [str "screenshot_daemon"; str "5000000"])
                       (str "/home/u") 5000000 2 2 0 empty_world))
     = Some (EvUsleep 705032704).
Proof.
  assert (H : 0 <= 250 <= 2147483) by lia.
  split; [exact H|]. split.
  - destruct (pass_ends_with_interval_sleep
                (sample_env [str "screenshot_daemon"; str "250"])
                (str "/home/u") 250 2 2 0 empty_world)
      as ((work & Hev & _) & Hexact).
    rewrite Hev, (Hexact H). apply last_snoc.
  - destruct (pass_ends_with_interval_sleep
                (sample_env [str "screenshot_daemon"; str "5000000"])
                (str "/home/u") 5000000 2 2 0 empty_world)
      as ((work & Hev & _) & _).
    rewrite Hev. apply last_snoc.
Defined.





(** The image of a pass: released once when there is one, after
    [save_png] has returned and before the sleep. *)
Lemma iteration_release
  (e : env) (home : cstring) (interval_ms scr_w scr_h : Z) (k : nat) (w : world) :
  let evs := r_events (iteration e home interval_ms scr_w scr_h k w) in
  count_ev is_captured_ev evs
  = (if bool_decide (is_Some (env_image e k)) then 1 else 0)%nat
  /\ count_ev is_xdestroy_ev evs = count_ev is_captured_ev evs
  /\ (forall img, env_image e k = Some img ->
        exists before,
          evs = before ++ [EvXDestroyImage; EvUsleep (usleep_arg interval_ms)]
          /\ count_ev is_xdestroy_ev before = 0%nat
          /\ forall ev, In ev (r_events (pass_png e home k w img)) -> In ev before).
Proof.
  assert (Hdirs : forall f, (forall p m r, f (EvMkdir p m r) = false) ->
                    forall ev, In ev (r_events (pass_dirs e home k w)) ->
                               f ev = false).
  { intros f Hf ev Hin. apply pass_dirs_events in Hin.
    destruct ev; try discriminate Hin. apply Hf. }
  assert (Hname : forall f, (forall r, f (EvRand r) = false) ->
                    forall ev, In ev (r_events (pass_name e home k w)) ->
                               f ev = false).
  { intros f Hf ev Hin. apply pass_name_events in Hin.
    destruct ev; try discriminate Hin. apply Hf. }
  destruct (env_image e k) as [img|] eqn:Himg.
  - assert (Hpng : forall f, (forall ev, is_save_png_ev ev = true -> f ev = false) ->
                     forall ev, In ev (r_events (pass_png e home k w img)) ->
                                f ev = false).
    { intros f Hf ev Hin. apply Hf. apply (pass_png_events _ _ _ _ _ _ Hin). }
    assert (Hcap : forall ev, is_save_png_ev ev = true -> is_captured_ev ev = false)
      by (intros ev; destruct ev; try discriminate; reflexivity).
    assert (Hdes : forall ev, is_save_png_ev ev = true -> is_xdestroy_ev ev = false)
      by (intros ev; destruct ev; try discriminate; reflexivity).
    rewrite (iteration_captured _ _ _ _ _ _ _ img Himg). cbn [r_events].
    rewrite bool_decide_eq_true_2 by (eexists; reflexivity).
    assert (Hc : count_ev is_captured_ev
                   ([EvTime] ++ r_events (pass_dirs e home k w)
                    ++ r_events (pass_name e home k w)
                    ++ [EvXGetImage scr_w scr_h true]
                    ++ (r_events (pass_png e home k w img)
                        ++ (if r_val (pass_png e home k w img) =? 0
                            then [EvStdout (str "Saved " ++ pass_filepath e home k w
                                              ++ ["010"%char])]
                            else [])
                        ++ [EvXDestroyImage])
                    ++ [EvUsleep (usleep_arg interval_ms)]) = 1%nat).
    { rewrite !count_ev_app.
      rewrite (count_ev_none _ _ (Hdirs is_captured_ev (fun _ _ _ => eq_refl))),
        (count_ev_none _ _ (Hname is_captured_ev (fun _ => eq_refl))),
        (count_ev_none _ _ (Hpng is_captured_ev Hcap)).
      destruct (r_val (pass_png e home k w img) =? 0); reflexivity. }
    split; [exact Hc|]. split.
    + rewrite Hc. rewrite !count_ev_app.
      rewrite (count_ev_none _ _ (Hdirs is_xdestroy_ev (fun _ _ _ => eq_refl))),
        (count_ev_none _ _ (Hname is_xdestroy_ev (fun _ => eq_refl))),
        (count_ev_none _ _ (Hpng is_xdestroy_ev Hdes)).
      destruct (r_val (pass_png e home k w img) =? 0); reflexivity.
    + intros img' Himg'. injection Himg' as <-.
      exists ([EvTime] ++ r_events (pass_dirs e home k w)
              ++ r_events (pass_name e home k w)
              ++ [EvXGetImage scr_w scr_h true]
              ++ r_events (pass_png e home k w img)
              ++ (if r_val (pass_png e home k w img) =? 0
                  then [EvStdout (str "Saved " ++ pass_filepath e home k w
                                    ++ ["010"%char])]
                  else [])).
      split; [|split].
      * rewrite <- !app_assoc. reflexivity.
      * rewrite !count_ev_app.
        rewrite (count_ev_none _ _ (Hdirs is_xdestroy_ev (fun _ _ _ => eq_refl))),
          (count_ev_none _ _ (Hname is_xdestroy_ev (fun _ => eq_refl))),
          (count_ev_none _ _ (Hpng is_xdestroy_ev Hdes)).
        destruct (r_val (pass_png e home k w img) =? 0); reflexivity.
      * intros ev Hin. apply in_or_app. right. apply in_or_app. right.
        apply in_or_app. right. apply in_or_app. right.
        apply in_or_app. left. exact Hin.
  - rewrite (iteration_capture_failed _ _ _ _ _ _ _ Himg). cbn [r_events].
    rewrite bool_decide_eq_false_2 by (intros [? H]; discriminate H).
    split; [|split].
    + rewrite !count_ev_app.
      rewrite (count_ev_none _ _ (Hdirs is_captured_ev (fun _ _ _ => eq_refl))),
        (count_ev_none _ _ (Hname is_captured_ev (fun _ => eq_refl))).
      reflexivity.
    + rewrite !count_ev_app.
      rewrite (count_ev_none _ _ (Hdirs is_captured_ev (fun _ _ _ => eq_refl))),
        (count_ev_none _ _ (Hname is_captured_ev (fun _ => eq_refl))),
        (count_ev_none _ _ (Hdirs is_xdestroy_ev (fun _ _ _ => eq_refl))),
        (count_ev_none _ _ (Hname is_xdestroy_ev (fun _ => eq_refl))).
      reflexivity.
    + intros img Himg'. discriminate Himg'.
Qed.

Lemma captured_passes_S (e : env) (k n : nat) :
  captured_passes e k (S n)
  = ((if bool_decide (is_Some (env_image e k)) then 1 else 0)
     + captured_passes e (S k) n)%nat.
Proof.
  unfold captured_passes. cbn [seq List.filter].
  destruct (bool_decide (is_Some (env_image e k))); reflexivity.
Qed.

Lemma main_loop_release
  (e : env) (home : cstring) (interval_ms scr_w scr_h : Z) (n : nat) :
  forall k w,
    count_ev is_captured_ev
      (r_events (main_loop e home interval_ms scr_w scr_h n k w))
    = captured_passes e k n
    /\ count_ev is_xdestroy_ev
         (r_events (main_loop e home interval_ms scr_w scr_h n k w))
       = captured_passes e k n.
Proof.
  induction n as [|n IH]; intros k w.
  - split; reflexivity.
  - rewrite main_loop_S, bind_events, !count_ev_app, captured_passes_S.
    destruct (iteration_release e home interval_ms scr_w scr_h k w)
      as (Hc & Hd & _).
    destruct (IH (S k) (r_world (iteration e home interval_ms scr_w scr_h k w)))
      as (Hc' & Hd').
    cbv zeta in Hc, Hd. rewrite Hd, Hc, Hc', Hd'. split; reflexivity.
Qed.

(** X18. Every captured image is released exactly once. In a pass that
    captured an image, [XDestroyImage] is called once, after all of
    [save_png]'s work whether it returned 0 or -1, and is the last thing
    before the sleep; a pass without an image calls it not at all. Over
    any number of passes of [main] the calls of [XDestroyImage] are as
    many as the passes whose capture gave an image. *)
Theorem captured_image_released_once (e : env) (n : nat) (w : world) :
  (forall home interval_ms scr_w scr_h k w0,
      let evs := r_events (iteration e home interval_ms scr_w scr_h k w0) in
      count_ev is_xdestroy_ev evs
      = (if bool_decide (is_Some (env_image e k)) then 1 else 0)%nat
      /\ forall img, env_image e k = Some img ->
           exists before,
             evs = before ++ [EvXDestroyImage; EvUsleep (usleep_arg interval_ms)]
             /\ count_ev is_xdestroy_ev before = 0%nat
             /\ forall ev, In ev (r_events (pass_png e home k w0 img)) ->
                           In ev before)
  /\ count_ev is_xdestroy_ev (r_events (main e n w))
     = count_ev is_captured_ev (r_events (main e n w))
  /\ (env_display e = true ->
      count_ev is_xdestroy_ev (r_events (main e n w)) = captured_passes e 0 n).
Proof.
  split; [|split].
  - intros home interval_ms scr_w scr_h k w0.
    destruct (iteration_release e home interval_ms scr_w scr_h k w0)
      as (Hc & Hd & Hlast).
    cbv zeta in *. split; [rewrite Hd; exact Hc | exact Hlast].
  - destruct (env_display e) eqn:Hd.
    + rewrite (main_display e n w Hd). cbn [r_events].
      rewrite !count_ev_app.
      destruct (main_loop_release e (base_dir e) (parse_interval (env_argv e))
                  (env_width e) (env_height e) n 0 w) as (-> & ->).
      reflexivity.
    + rewrite (main_headless e n w Hd). reflexivity.
  - intros Hd. rewrite (main_display e n w Hd). cbn [r_events].
    rewrite count_ev_app.
    destruct (main_loop_release e (base_dir e) (parse_interval (env_argv e))
                (env_width e) (env_height e) n 0 w) as (_ & ->).
    reflexivity.
Qed.

(** The files of a pass. *)
Lemma iteration_files
  (e : env) (home : cstring) (interval_ms scr_w scr_h : Z) (k : nat) (w : world) :
  let w1 := r_world (iteration e home interval_ms scr_w scr_h k w) in
  (w_files w1 = w_files w
   \/ (w_files w1 = w_files w ++ [pass_filepath e home k w]
       /\ is_Some (env_image e k)
       /\ fopen_ok (env_png e k) = true
       /\ ~ In (pass_filepath e home k w) (w_files w))).
Proof.
  cbv zeta.
  destruct (env_image e k) as [img|] eqn:Himg.
  - rewrite (iteration_captured _ _ _ _ _ _ _ img Himg). cbn [r_world].
    unfold pass_png. rewrite save_png_files, pass_name_files.
    destruct (fopen_ok (env_png e k)) eqn:Hf; [|left; reflexivity].
    destruct (exists_in (w_files w) (pass_filepath e home k w)) eqn:Hex;
      [left; reflexivity|].
    right. cbn [andb negb]. split; [reflexivity|].
    split; [eexists; reflexivity|]. split; [reflexivity|].
    intros Hin. apply exists_in_In in Hin. rewrite Hin in Hex. discriminate Hex.
  - rewrite (iteration_capture_failed _ _ _ _ _ _ _ Himg). cbn [r_world].
    left. apply pass_name_files.
Qed.

Lemma main_loop_files
  (e : env) (home : cstring) (interval_ms scr_w scr_h : Z) (n : nat) :
  forall k w,
    exists new,
      w_files (r_world (main_loop e home interval_ms scr_w scr_h n k w))
      = w_files w ++ new
      /\ (length new <= captured_passes e k n)%nat.
Proof.
  induction n as [|n IH]; intros k w.
  - exists []. split; [cbn; rewrite app_nil_r; reflexivity | cbn; lia].
  - rewrite main_loop_S, bind_world, captured_passes_S.
    destruct (IH (S k) (r_world (iteration e home interval_ms scr_w scr_h k w)))
      as (new & Hnew & Hlen).
    rewrite Hnew.
    destruct (iteration_files e home interval_ms scr_w scr_h k w)
      as [Hsame | (Hadd & Himg & _)]; cbv zeta in *.
    + exists new. rewrite Hsame. split; [reflexivity | lia].
    + exists (pass_filepath e home k w :: new). rewrite Hadd, <- app_assoc.
      split; [reflexivity|].
      rewrite bool_decide_eq_true_2 by exact Himg. cbn [length]. lia.
Qed.

(** X19. A pass makes at most one file, and only from a captured image.
    The files after a pass are those before it, or those and the pass's
    own file path; the latter only when [XGetImage] gave an image and
    [fopen] succeeded. No pass removes or renames a file, and after [n]
    passes of [main] the files are the earlier ones followed by at most as
    many new ones as passes that captured an image. *)
Theorem one_file_per_captured_pass (e : env) (n : nat) (w : world) :
  (forall home interval_ms scr_w scr_h k w0,
      let w1 := r_world (iteration e home interval_ms scr_w scr_h k w0) in
      w_files w1 = w_files w0
      \/ (w_files w1 = w_files w0 ++ [pass_filepath e home k w0]
          /\ is_Some (env_image e k)
          /\ fopen_ok (env_png e k) = true
          /\ ~ In (pass_filepath e home k w0) (w_files w0)))
  /\ exists new,
      w_files (r_world (main e n w)) = w_files w ++ new
      /\ (length new <= captured_passes e 0 n)%nat
      /\ (length new <= n)%nat.
Proof.
  split; [intros; apply iteration_files|].
  assert (Hle : forall k m, (captured_passes e k m <= m)%nat).
  { intros k m. unfold captured_passes.
    etransitivity; [apply List.filter_length_le|]. rewrite length_seq. lia. }
  destruct (env_display e) eqn:Hd.
  - rewrite (main_display e n w Hd). cbn [r_world].
    destruct (main_loop_files e (base_dir e) (parse_interval (env_argv e))
                (env_width e) (env_height e) n 0 w) as (new & Hnew & Hlen).
    exists new. split; [exact Hnew|]. split; [exact Hlen|].
    specialize (Hle 0%nat n). lia.
  - rewrite (main_headless e n w Hd). cbn [r_world].
    exists []. split; [rewrite app_nil_r; reflexivity|]. cbn [length]. split; lia.
Qed.

(** ** The file and its directory *)

Lemma strip_leaf_no_slash (leaf rest : cstring) :
  Forall (fun c => Ascii.eqb c SLASH = false) leaf ->
  strip_leaf (leaf ++ SLASH :: rest) = rest.
Proof.
  induction 1 as [|c leaf Hc _ IH]; cbn [app strip_leaf].
  - rewrite Ascii.eqb_refl. reflexivity.
  - rewrite Hc. exact IH.
Qed.

Lemma parent_of_leaf (dir leaf : cstring) :
  Forall (fun c => Ascii.eqb c SLASH = false) leaf ->
  parent (dir ++ SLASH :: leaf) = dir.
Proof.
  intros Hleaf. unfold parent.
  rewrite rev_app_distr. cbn [rev]. rewrite <- app_assoc. cbn [app].
  rewrite strip_leaf_no_slash by (apply Forall_rev; exact Hleaf).
  apply rev_involutive.
Qed.

Lemma hex_not_slash (c : ascii) : is_lower_hex c = true -> Ascii.eqb c SLASH = false.
Proof.
  intros Hc. destruct (Ascii.eqb_spec c SLASH) as [->|]; [discriminate Hc | reflexivity].
Qed.

Lemma digit_not_slash (c : ascii) : is_digit c = true -> Ascii.eqb c SLASH = false.
Proof.
  intros Hc. destruct (Ascii.eqb_spec c SLASH) as [->|]; [discriminate Hc | reflexivity].
Qed.

Lemma char_at_last (s : cstring) (c : ascii) :
  char_at (s ++ [c]) (length (s ++ [c]) - 1) = c.
Proof.
  unfold char_at. rewrite length_app. cbn [length].
  replace (length s + 1 - 1)%nat with (length s) by lia.
  rewrite lookup_app_r by lia.
  replace (length s - length s)%nat with 0%nat by lia. reflexivity.
Qed.

(** The calls on the prefixes do not make the whole path. *)
Lemma mkdir_worlds_before_target (answer : world -> cstring -> Z) (t : cstring)
  (w : world) :
  In t (w_dirs (fold_left (mkdir_world answer)
                  (slash_prefixes t (length t - 1) 1) w))
  <-> In t (w_dirs w).
Proof.
  split; [|apply mkdir_worlds_mono].
  intros Hin. apply mkdir_worlds_only in Hin.
  destruct Hin as [Hin|Hin]; [exact Hin|].
  apply slash_prefixes_In in Hin. destruct Hin as (j & Hj & _ & Heq).
  apply (f_equal (@length ascii)) in Heq. rewrite length_take in Heq. lia.
Qed.

Lemma pass_filepath_on_parts (answer : world -> cstring -> Z) (e : env)
  (home : cstring) (k : nat) (w : world) :
  (forall i, 0 <= env_rand e i) ->
  pass_filepath_on answer e home k w
  = pass_dirpath e home k ++ str "/"
      ++ r_val (pass_name_on answer e home k w) ++ str ".png"
  /\ Forall (fun c => is_lower_hex c = true) (r_val (pass_name_on answer e home k w)).
Proof.
  intros Hrand.
  destruct (random_hex_name e RANDOM_NAME_LEN
              (r_world (pass_dirs_on answer e home k w)) Hrand) as [Hn Hhex].
  fold (pass_name_on answer e home k w) in Hn, Hhex.
  split; [|exact Hhex].
  assert (Hd : (length (pass_dirpath e home k) <= 511)%nat).
  { unfold pass_dirpath, dirpath_of, snprintf. rewrite length_take. lia. }
  unfold pass_filepath_on, filepath_of, fmt_s.
  rewrite (c_str_id (pass_dirpath e home k))
    by (apply dirpath_of_any_nul_free).
  rewrite (c_str_id _ (hex_nul_free _ Hhex)).
  apply snprintf_fits.
  rewrite !length_app, Hn.
  change (length (str "/")) with 1%nat.
  change (length (str ".png")) with 4%nat.
  change RANDOM_NAME_LEN with 8%nat. lia.
Qed.

(** X20. The file is opened in the directory of the last [mkdir], on any
    file system.  For a home directory of at most 485 characters and a
    calendar time in range, the directory path is not changed by
    [mkdir_p]'s trailing-slash rule, the last [mkdir] of the pass is on
    the directory path, and the parent directory of the file path is that
    same path.  The directory is on disk when [save_png] is called
    exactly when [mkdir_p] returned 0 or the directory was there before
    the pass: the value the loop does not look at tells whether the file
    can be opened there. *)
Theorem file_opened_in_made_directory
  (answer : world -> cstring -> Z) (e : env) (home : cstring) (k : nat)
  (w : world) :
  c_str home = home ->
  (length home <= 485)%nat ->
  0 <= tm_year (env_localtime e k) + 1900 <= 9999 ->
  0 <= tm_mon (env_localtime e k) <= 11 ->
  1 <= tm_mday (env_localtime e k) <= 31 ->
  0 <= tm_hour (env_localtime e k) <= 23 ->
  (forall i, 0 <= env_rand e i) ->
  let dir := pass_dirpath e home k in
  let calls := pass_dirs_on answer e home k w in
  mkdir_p_target dir = dir
  /\ parent (pass_filepath_on answer e home k w) = dir
  /\ (exists earlier,
        r_events calls = earlier ++ [EvMkdir dir 493 (r_val calls)])
  /\ (In dir (w_dirs (r_world (pass_name_on answer e home k w)))
      <-> r_val calls = 0 \/ In dir (w_dirs w))
  /\ (dir_on_disk (r_world (pass_name_on answer e home k w))
        (pass_filepath_on answer e home k w) = true
      <-> r_val calls = 0 \/ In dir (w_dirs w)).
Proof.
  intros Hhome Hlen Hyear Hmon Hmday Hhour Hrand. cbv zeta.
  pose proof (dirpath_of_fits home _ Hhome Hlen Hyear Hmon Hmday Hhour) as Hfit.
  fold (pass_dirpath e home k) in Hfit.
  destruct (HH_exact _ Hhour) as (HHlen & HHdig & _).
  assert (Hlast : Ascii.eqb (char_at (pass_dirpath e home k)
                               (length (pass_dirpath e home k) - 1)) SLASH = false).
  { rewrite Hfit.
    destruct (fmt_0d 2 (tm_hour (env_localtime e k))) as [|a [|b [|? ?]]];
      try discriminate HHlen.
    change [a; b] with ([a] ++ [b]). rewrite !app_assoc.
    rewrite char_at_last. apply digit_not_slash.
    cbn [forallb] in HHdig. apply andb_prop in HHdig. destruct HHdig as [_ Hb].
    apply andb_prop in Hb. apply Hb. }
  assert (Htarget : mkdir_p_target (pass_dirpath e home k) = pass_dirpath e home k).
  { apply mkdir_p_target_plain.
    - apply dirpath_of_any_nul_free.
    - unfold pass_dirpath, dirpath_of, snprintf. rewrite length_take. lia.
    - exact Hlast. }
  assert (Hparent : parent (pass_filepath_on answer e home k w)
                    = pass_dirpath e home k).
  { destruct (pass_filepath_on_parts answer e home k w Hrand) as [Hparts Hhex].
    rewrite Hparts.
    change (str "/" ++ r_val (pass_name_on answer e home k w) ++ str ".png")
      with (SLASH :: (r_val (pass_name_on answer e home k w) ++ str ".png")).
    apply parent_of_leaf. apply Forall_app. split.
    - revert Hhex. apply List.Forall_impl. intros c. apply hex_not_slash.
    - repeat constructor. }
  assert (Hrun := mkdir_p_on_run answer 493 (pass_dirpath e home k) w
                    (pass_dirpath_nonempty e home k)).
  cbv zeta in Hrun. rewrite Htarget in Hrun.
  fold (pass_dirs_on answer e home k w) in Hrun.
  assert (Hdisk : In (pass_dirpath e home k)
                    (w_dirs (r_world (pass_name_on answer e home k w)))
                  <-> r_val (pass_dirs_on answer e home k w) = 0
                      \/ In (pass_dirpath e home k) (w_dirs w)).
  { unfold pass_name_on.
    rewrite (proj1 (random_hex_frame e RANDOM_NAME_LEN _)).
    rewrite Hrun. cbn [r_val r_world].
    rewrite mkdir_world_In, mkdir_worlds_before_target. intuition. }
  split; [exact Htarget|]. split; [exact Hparent|]. split.
  { rewrite Hrun. cbn [r_val r_events]. eexists. reflexivity. }
  split; [exact Hdisk|].
  unfold dir_on_disk. rewrite Hparent, <- Hdisk. apply exists_in_In.
Qed.

Lemma file_opened_in_made_directory_witness :
  let e := sample_env [str "screenshot_daemon"] in
  (c_str (str "/home/u") = str "/home/u"
   /\ (length (str "/home/u") <= 485)%nat
   /\ 0 <= tm_year (env_localtime e 0) + 1900 <= 9999
   /\ 0 <= tm_mon (env_localtime e 0) <= 11
   /\ 1 <= tm_mday (env_localtime e 0) <= 31
   /\ 0 <= tm_hour (env_localtime e 0) <= 23
   /\ (forall i, 0 <= env_rand e i))
  /\ parent (pass_filepath_on refusing e (str "/home/u") 0 home_world)
     = pass_dirpath e (str "/home/u") 0
  /\ dir_on_disk (r_world (pass_name_on refusing e (str "/home/u") 0 home_world))
       (pass_filepath_on refusing e (str "/home/u") 0 home_world) <> true.
Proof.
  cbv zeta.
  assert (H1 : c_str (str "/home/u") = str "/home/u") by reflexivity.
  assert (H2 : (length (str "/home/u") <= 485)%nat) by (simpl; lia).
  assert (H3 : 0 <= tm_year (env_localtime (sample_env [str "screenshot_daemon"]) 0)
                    + 1900 <= 9999) by (simpl; lia).
  assert (H4 : 0 <= tm_mon (env_localtime (sample_env [str "screenshot_daemon"]) 0)
               <= 11) by (simpl; lia).
  assert (H5 : 1 <= tm_mday (env_localtime (sample_env [str "screenshot_daemon"]) 0)
               <= 31) by (simpl; lia).
  assert (H6 : 0 <= tm_hour (env_localtime (sample_env [str "screenshot_daemon"]) 0)
               <= 23) by (simpl; lia).
  assert (H7 : forall i, 0 <= env_rand (sample_env [str "screenshot_daemon"]) i)
    by (intros i; simpl; lia).
  split; [repeat split; assumption || apply H3 || apply H4 || apply H5 || apply H6|].
  destruct (file_opened_in_made_directory refusing
              (sample_env [str "screenshot_daemon"])
              (str "/home/u") 0 home_world H1 H2 H3 H4 H5 H6 H7)
    as (_ & Hparent & _ & _ & Hdisk).
  split; [exact Hparent|].
  intros Hon. apply Hdisk in Hon. destruct Hon as [Hret|Hin].
  - vm_compute in Hret. discriminate Hret.
  - vm_compute in Hin.
    repeat (destruct Hin as [Hin|Hin]; [discriminate Hin|]). exact Hin.
Defined.

(** ** Without a display *)

(** X21. When the display cannot be opened the program touches nothing:
    it prints one line on stderr and returns, having made no directory,
    drawn no number, read no clock and opened no file; the disk is as it
    was, and neither the argument, nor HOME, nor the number of passes
    asked for makes a difference. *)
Theorem headless_touches_nothing (e : env) (n : nat) (w : world) :
  env_display e = false ->
  r_world (main e n w) = w
  /\ r_events (main e n w)
     = [EvXOpenDisplay false; EvStderr (str "Cannot open X display" ++ ["010"%char])]
  /\ count_ev is_mkdir_ev (r_events (main e n w)) = 0%nat
  /\ count_ev is_rand_ev (r_events (main e n w)) = 0%nat
  /\ count_ev is_save_png_ev (r_events (main e n w)) = 0%nat
  /\ forall e' n', env_display e' = false -> main e' n' w = main e n w.
Proof.
  intros Hd. rewrite (main_headless e n w Hd). cbn [r_world r_events].
  repeat (split; [reflexivity|]).
  intros e' n' Hd'. apply main_headless. exact Hd'.
Qed.

Lemma headless_touches_nothing_witness :
  env_display headless_env = false
  /\ r_world (main headless_env 5 empty_world) = empty_world.
Proof.
  split; [reflexivity|].
  exact (proj1 (headless_touches_nothing headless_env 5 empty_world eq_refl)).
Defined.
